(** * deskHPSDR 3DSS waterfall: history buffer, frequency tracker, resampler,
      colour/height mapper and camera controls

    A shallow embedding of [src/waterfall3dss.c] (and of the threshold
    computation of [src/waterfall.c]) together with the properties of the
    design document that concern them.

    Conventions.
    - C [int] and [long long] values are integers of [Z].  Index arithmetic
      is bounded by the size of the history buffer and is written without
      wrap-around; the free-running counters are wrapped to 32 bits.
    - C [float] and [double] values are [spec_float]s of the Standard
      Library, operated on with the IEEE-754 operations of [SpecFloat] at
      precision 24 / 53 (round to nearest, ties to even).
    - The value of a float as a real number ([B2R]) is used to state and
      prove what the operations compute; the model itself does not depend
      on it.
    - Arrays are lists.  Every load and store checks its index; an access
      outside the array is undefined behaviour in C and is [None] here, so a
      result [Some _] also says that no access left its array. *)

From Stdlib Require Import ZArith Lia Floats.SpecFloat.
From stdpp Require Import base tactics option list list_numbers.
From Stdlib Require Import Reals Lra.

Local Open Scope Z_scope.

(** ** Floating point *)

Module F32.
Definition prec : Z := 24.
Definition emax : Z := 128.
Definition add := SFadd prec emax.
Definition sub := SFsub prec emax.
Definition mul := SFmul prec emax.
Definition div := SFdiv prec emax.
Definition ltb := SFltb.
Definition leb := SFleb.
(** [(float)z] for an integer [z]. *)
Definition of_Z (z : Z) : spec_float := binary_normalize prec emax z 0 false.
(** The decimal literal [n/d] (as in [0.35f] = 35/100), correctly rounded. *)
Definition lit (n d : Z) : spec_float := div (of_Z n) (of_Z d).
Definition zero : spec_float := S754_zero false.
Definition one : spec_float := of_Z 1.
End F32.

Module F64.
Definition prec : Z := 53.
Definition emax : Z := 1024.
Definition add := SFadd prec emax.
Definition sub := SFsub prec emax.
Definition mul := SFmul prec emax.
Definition div := SFdiv prec emax.
Definition ltb := SFltb.
Definition of_Z (z : Z) : spec_float := binary_normalize prec emax z 0 false.
Definition zero : spec_float := S754_zero false.
End F64.

Abbreviation float32 := spec_float.
Abbreviation float64 := spec_float.

(** [(float)x] for a double [x]: the value is rounded to 24 bits. *)
Definition f32_of_f64 (x : float64) : float32 :=
  match x with
  | S754_finite s m e => binary_round F32.prec F32.emax s m e
  | _ => x
  end.

Definition INT_MIN : Z := - 2 ^ 31.
Definition INT_MAX : Z := 2 ^ 31 - 1.

(** Two's complement wrap-around of a 32-bit [int]. *)
Definition wrap32 (z : Z) : Z := (z + 2 ^ 31) mod 2 ^ 32 - 2 ^ 31.

(** The integer part of a finite float, rounded toward zero. *)
Definition float_trunc (x : spec_float) : Z :=
  match x with
  | S754_finite s m e =>
      let a := if 0 <=? e then Z.pos m * 2 ^ e else Z.pos m / 2 ^ (- e) in
      if s then - a else a
  | _ => 0
  end.

(** [(int)x] for a float or double [x]: truncation toward zero.  Outside
    the range of [int] (and for NaN) the conversion is undefined in C; the
    model returns what the x86 conversion instruction returns, [INT_MIN]. *)
Definition float_to_int (x : spec_float) : Z :=
  match x with
  | S754_zero _ => 0
  | S754_finite _ _ _ =>
      let z := float_trunc x in
      if (INT_MIN <=? z) && (z <=? INT_MAX) then z else INT_MIN
  | _ => INT_MIN
  end.

(** [clampf] of the source. *)
Definition clampf (x a b : float32) : float32 :=
  if F32.ltb x a then a else if F32.ltb b x then b else x.

(** The floor value [-140.0f] of never written and cleared cells. *)
Definition FLOOR_DB : float32 := F32.of_Z (-140).

(** ** Arrays *)

Section Arrays.
Context {A : Type}.

Definition load (a : list A) (i : Z) : option A :=
  if decide (0 ≤ i) then a !! Z.to_nat i else None.

Definition store (a : list A) (i : Z) (v : A) : option (list A) :=
  if decide (0 ≤ i < Z.of_nat (length a)) then Some (<[Z.to_nat i := v]> a)
  else None.

(** [memmove(a + dst, a + src, n * sizeof(A))] inside one array: the [n]
    source cells are read before any cell is written. *)
Definition memmove (a : list A) (dst src n : Z) : option (list A) :=
  if decide (0 ≤ n ∧ 0 ≤ src ∧ src + n ≤ Z.of_nat (length a)
             ∧ 0 ≤ dst ∧ dst + n ≤ Z.of_nat (length a))
  then Some (take (Z.to_nat dst) a
             ++ take (Z.to_nat n) (drop (Z.to_nat src) a)
             ++ drop (Z.to_nat (dst + n)) a)
  else None.

(** [for (i = lo; i < hi; i++) s = body(i, s)], stopping at the first
    undefined step. *)
Fixpoint for_loop {St : Type} (n : nat) (i : Z)
    (body : Z → St → option St) (s : St) : option St :=
  match n with
  | O => Some s
  | S n' => s' ← body i s; for_loop n' (i + 1) body s'
  end.

Definition for_range {St : Type} (lo hi : Z)
    (body : Z → St → option St) (s : St) : option St :=
  for_loop (Z.to_nat (hi - lo)) lo body s.

(** [g_malloc0(n * sizeof(A))]: [NULL] for a size of zero, [n] zeroed
    cells otherwise. *)
Definition g_malloc0 (zero : A) (n : Z) : option (list A) :=
  if decide (n = 0) then None else Some (replicate (Z.to_nat n) zero).
End Arrays.

(** ** State *)

Definition WATERFALL_DEPTH : Z := 120.

(** [WaterfallGLState], without the handles of the GL objects and the
    scratch buffers of the renderer. *)
Record WaterfallGLState := mkState {
  bins : Z;
  depth : Z;
  head : Z;
  history : option (list float32);
  tilt_angle : float32;
  zoom_level : float32;
  dragging : bool;
  drag_start_y : float64;
  drag_start_tilt : float32;
  waterfall_zoom : Z;
  waterfall_pan : Z;
  update_count : Z;
  render_count : Z
}.

Definition set_history (h : option (list float32)) (st : WaterfallGLState) :=
  mkState (bins st) (depth st) (head st) h (tilt_angle st) (zoom_level st)
    (dragging st) (drag_start_y st) (drag_start_tilt st) (waterfall_zoom st)
    (waterfall_pan st) (update_count st) (render_count st).
Definition set_head (x : Z) (st : WaterfallGLState) :=
  mkState (bins st) (depth st) x (history st) (tilt_angle st) (zoom_level st)
    (dragging st) (drag_start_y st) (drag_start_tilt st) (waterfall_zoom st)
    (waterfall_pan st) (update_count st) (render_count st).
Definition set_bins (x : Z) (st : WaterfallGLState) :=
  mkState x (depth st) (head st) (history st) (tilt_angle st) (zoom_level st)
    (dragging st) (drag_start_y st) (drag_start_tilt st) (waterfall_zoom st)
    (waterfall_pan st) (update_count st) (render_count st).
Definition set_waterfall_zoom (x : Z) (st : WaterfallGLState) :=
  mkState (bins st) (depth st) (head st) (history st) (tilt_angle st)
    (zoom_level st) (dragging st) (drag_start_y st) (drag_start_tilt st) x
    (waterfall_pan st) (update_count st) (render_count st).
Definition set_waterfall_pan (x : Z) (st : WaterfallGLState) :=
  mkState (bins st) (depth st) (head st) (history st) (tilt_angle st)
    (zoom_level st) (dragging st) (drag_start_y st) (drag_start_tilt st)
    (waterfall_zoom st) x (update_count st) (render_count st).
Definition set_update_count (x : Z) (st : WaterfallGLState) :=
  mkState (bins st) (depth st) (head st) (history st) (tilt_angle st)
    (zoom_level st) (dragging st) (drag_start_y st) (drag_start_tilt st)
    (waterfall_zoom st) (waterfall_pan st) x (render_count st).
Definition set_tilt_angle (x : float32) (st : WaterfallGLState) :=
  mkState (bins st) (depth st) (head st) (history st) x (zoom_level st)
    (dragging st) (drag_start_y st) (drag_start_tilt st) (waterfall_zoom st)
    (waterfall_pan st) (update_count st) (render_count st).
Definition set_zoom_level (x : float32) (st : WaterfallGLState) :=
  mkState (bins st) (depth st) (head st) (history st) (tilt_angle st) x
    (dragging st) (drag_start_y st) (drag_start_tilt st) (waterfall_zoom st)
    (waterfall_pan st) (update_count st) (render_count st).
Definition set_dragging (x : bool) (st : WaterfallGLState) :=
  mkState (bins st) (depth st) (head st) (history st) (tilt_angle st)
    (zoom_level st) x (drag_start_y st) (drag_start_tilt st)
    (waterfall_zoom st) (waterfall_pan st) (update_count st) (render_count st).
Definition set_drag_start (y : float64) (t : float32) (st : WaterfallGLState) :=
  mkState (bins st) (depth st) (head st) (history st) (tilt_angle st)
    (zoom_level st) (dragging st) y t (waterfall_zoom st) (waterfall_pan st)
    (update_count st) (render_count st).

(** The fields of [RECEIVER] that the waterfall reads and writes.
    [waterfall] tells whether the widget pointer is set. *)
Record RECEIVER := mkRx {
  zoom : Z;
  pan : Z;
  pixels : Z;
  sample_rate : Z;
  waterfall_frequency : Z;
  waterfall_sample_rate : Z;
  waterfall_low : Z;
  waterfall_high : Z;
  waterfall_automatic : bool;
  waterfall3dss_palette : Z;
  pixel_samples : list float32;
  waterfall : bool
}.

Definition set_waterfall_tracking (f sr : Z) (rx : RECEIVER) :=
  mkRx (zoom rx) (pan rx) (pixels rx) (sample_rate rx) f sr (waterfall_low rx)
    (waterfall_high rx) (waterfall_automatic rx) (waterfall3dss_palette rx)
    (pixel_samples rx) (waterfall rx).

(** What the update reads from outside the receiver: the allocated width of
    the widget and [vfo[rx->id].frequency]. *)
Record Host := mkHost {
  allocated_width : Z;
  vfo_frequency : Z
}.

(** ** The history buffer *)

(** [wf_reset_history]: every cell to the floor value, [head] to zero. *)
Definition wf_reset_history (st : WaterfallGLState) : option WaterfallGLState :=
  match history st with
  | None => Some st
  | Some h =>
      h' ← for_range 0 (depth st * bins st)
             (λ i a, store a i FLOOR_DB) h;
      Some (set_head 0 (set_history (Some h') st))
  end.

(** The sample that [waterfall3dss_update] copies to bin [i] of the new
    row: the floor value when [i + pan] is no index of the source array. *)
Definition wf_source_sample (rx : RECEIVER) (i : Z) : option float32 :=
  let src_idx := i + pan rx in
  if (src_idx <? 0) || (pixels rx <=? src_idx) then Some FLOOR_DB
  else load (pixel_samples rx) src_idx.

(** "Copy new spectrum data": the row at [head] is overwritten and [head]
    moves on, modulo the depth. *)
Definition wf_push_row (rx : RECEIVER) (st : WaterfallGLState)
    : option WaterfallGLState :=
  h ← history st;
  let row := head st * bins st in
  h' ← for_range 0 (bins st)
         (λ i a, sample_db ← wf_source_sample rx i; store a (row + i) sample_db)
         h;
  if decide (depth st = 0) then None
  else Some (set_head ((head st + 1) `rem` depth st) (set_history (Some h') st)).

(** The physical row of logical age [d], as [waterfall3dss_gl_render]
    computes [row0]. *)
Definition wf_row_at_age (st : WaterfallGLState) (d : Z) : Z :=
  (head st - d - 1 + depth st) `rem` depth st.

(** [st->history[row * B + i]]. *)
Definition wf_cell (st : WaterfallGLState) (row i : Z) : option float32 :=
  h ← history st; load h (row * bins st + i).

(** ** The frequency tracker *)

(** One row of the rotation loop of [waterfall3dss_update]; [r] is the
    physical row, [rowp = history + r * bins]. *)
Definition wf_rotate_row (rotate_bins nbins r : Z) (h : list float32)
    : option (list float32) :=
  let rowp := r * nbins in
  if decide (rotate_bins < 0) then
    let nmove := nbins + rotate_bins in
    let nmove := if decide (nmove < 0) then 0 else nmove in
    let nmove := if decide (nmove > nbins) then nbins else nmove in
    h1 ← (if decide (nmove > 0) then memmove h rowp (rowp - rotate_bins) nmove
          else Some h);
    let nclear := - rotate_bins in
    let nclear := if decide (nclear > nbins) then nbins else nclear in
    if decide (nclear > 0)
    then for_range (nbins - nclear) nbins (λ i a, store a (rowp + i) FLOOR_DB) h1
    else Some h1
  else
    let nmove := nbins - rotate_bins in
    let nmove := if decide (nmove < 0) then 0 else nmove in
    let nmove := if decide (nmove > nbins) then nbins else nmove in
    h1 ← (if decide (nmove > 0) then memmove h (rowp + rotate_bins) rowp nmove
          else Some h);
    let nclear := rotate_bins in
    let nclear := if decide (nclear > nbins) then nbins else nclear in
    if decide (nclear > 0)
    then for_range 0 nclear (λ i a, store a (rowp + i) FLOOR_DB) h1
    else Some h1.

(** [for (r = 0; r < depth; r++)] over the rows.  The buffer pointer is only
    used inside the loop. *)
Definition wf_rotate_history (rotate_bins : Z) (st : WaterfallGLState)
    : option WaterfallGLState :=
  match history st with
  | None => if decide (0 < depth st) then None else Some st
  | Some h =>
      h' ← for_range 0 (depth st) (wf_rotate_row rotate_bins (bins st)) h;
      Some (set_history (Some h') st)
  end.

(** [hz_per_bin = (double)sample_rate / (double)bins]. *)
Definition wf_hz_per_bin (rx : RECEIVER) (st : WaterfallGLState) : float64 :=
  F64.div (F64.of_Z (sample_rate rx)) (F64.of_Z (bins st)).

(** [(double)(waterfall_frequency - current_freq) / hz_per_bin]. *)
Definition wf_rotate_quotient (rx : RECEIVER) (st : WaterfallGLState)
    (current_freq : Z) : float64 :=
  F64.div (F64.of_Z (waterfall_frequency rx - current_freq))
    (wf_hz_per_bin rx st).

Definition wf_rotate_bins (rx : RECEIVER) (st : WaterfallGLState)
    (current_freq : Z) : Z :=
  float_to_int (wf_rotate_quotient rx st current_freq).

(** "Handle frequency changes". *)
Definition wf_handle_frequency (host : Host) (rx : RECEIVER)
    (st : WaterfallGLState) : option (RECEIVER * WaterfallGLState) :=
  if decide (bins st > 0) then
    st' ← (if decide (waterfall_frequency rx ≠ 0
                       ∧ sample_rate rx = waterfall_sample_rate rx) then
             let current_freq := vfo_frequency host in
             if decide (waterfall_frequency rx ≠ current_freq) then
               let half := sample_rate rx `quot` 2 in
               if decide (waterfall_frequency rx < current_freq - half
                          ∨ waterfall_frequency rx > current_freq + half)
               then wf_reset_history st
               else
                 let rotate_bins := wf_rotate_bins rx st current_freq in
                 if decide (rotate_bins ≠ 0)
                 then wf_rotate_history rotate_bins st
                 else Some st
             else Some st
           else wf_reset_history st);
    Some (set_waterfall_tracking (vfo_frequency host) (sample_rate rx) rx, st')
  else Some (rx, st).

(** ** The update tick *)

(** Reallocation for a new bin count, followed by a reset. *)
Definition wf_resize (nbins : Z) (st : WaterfallGLState)
    : option WaterfallGLState :=
  let st := set_bins nbins st in
  wf_reset_history (set_history (g_malloc0 F32.zero (depth st * bins st)) st).

(** Zoom, pan and bin count of the tick. *)
Definition wf_sync_view (nbins : Z) (rx : RECEIVER) (st : WaterfallGLState)
    : option WaterfallGLState :=
  st ← (if decide (waterfall_zoom st ≠ zoom rx)
        then wf_reset_history (set_waterfall_zoom (zoom rx) st)
        else Some st);
  let st := if decide (waterfall_pan st ≠ pan rx)
            then set_waterfall_pan (pan rx) st else st in
  if decide (bins st ≠ nbins) then wf_resize nbins st
  else match history st with
       | None => wf_resize nbins st
       | Some _ => Some st
       end.

(** The counter, the skipped first updates and the copy of the new row.  The
    boolean tells whether a redraw was queued. *)
Definition wf_store_row (rx : RECEIVER) (st : WaterfallGLState)
    : option (WaterfallGLState * bool) :=
  let st := set_update_count (wrap32 (update_count st + 1)) st in
  if decide (update_count st < 5) then Some (st, waterfall rx)
  else st' ← wf_push_row rx st; Some (st', waterfall rx).

(** The bin count of the tick: the allocated width, or 800 when the widget
    has none yet. *)
Definition wf_screen_width (host : Host) : Z :=
  let screen_w := allocated_width host in
  if decide (screen_w ≤ 0) then 800 else screen_w.

(** [waterfall3dss_update] for a receiver whose display state exists. *)
Definition waterfall3dss_update (host : Host) (rx : RECEIVER)
    (st : WaterfallGLState) : option (RECEIVER * WaterfallGLState * bool) :=
  match history st with
  | None => Some (rx, st, false)
  | Some _ =>
      let nbins := wf_screen_width host in
      if decide (nbins ≤ 2) then Some (rx, st, false)
      else
        st ← wf_sync_view nbins rx st;
        '(rx', st) ← wf_handle_frequency host rx st;
        '(st, redraw) ← wf_store_row rx st;
        Some (rx', st, redraw)
  end.

(** The display state that [waterfall3dss_init] creates: zeroed, with the
    fixed depth, the receiver's pixel count as bin count and a reset
    buffer. *)
Definition waterfall3dss_init (rx : RECEIVER) : option WaterfallGLState :=
  let st := mkState (pixels rx) WATERFALL_DEPTH 0
              (g_malloc0 F32.zero (WATERFALL_DEPTH * pixels rx))
              F32.zero F32.zero false F64.zero F32.zero 0 0 0 0 in
  wf_reset_history st.

(** ** The resampler of the renderer *)

(** The source bin of destination column [x], for a width of [W] columns
    and [B] bins. *)
Definition wf_resample_float (W B x : Z) : float32 :=
  F32.mul (F32.div (F32.of_Z x) (F32.of_Z (W - 1))) (F32.of_Z (B - 1)).

Definition wf_resample_bin (W B x : Z) : Z :=
  let bin_f := wf_resample_float W B x in
  let bin_i := float_to_int bin_f in
  if decide (bin_i >= B - 1) then B - 2 else bin_i.

(** [row_tmp0[x]] and [row_tmp1[x]] of the strip of age [d]. *)
Definition wf_resample_pair (st : WaterfallGLState) (W d x : Z)
    : option (float32 * float32) :=
  if decide (depth st = 0) then None
  else
    let D := depth st in
    let row0 := (head st - d - 1 + D) `rem` D in
    let row1 := (head st - d - 2 + D) `rem` D in
    let bin_i := wf_resample_bin W (bins st) x in
    v0 ← wf_cell st row0 bin_i;
    v1 ← wf_cell st row1 bin_i;
    Some (v0, v1).

(** ** Colour and height *)

Record Color := mkColor { c_r : float32; c_g : float32; c_b : float32 }.

(** The white -> blue -> lilac -> red gradient, written twice in the source
    (once over the intensity, once over the depth). *)
Definition plasma_gradient (p : float32) : Color :=
  if F32.ltb p (F32.lit 33 100) then
    let t := F32.div p (F32.lit 33 100) in
    mkColor (F32.sub F32.one (F32.mul t (F32.lit 8 10)))
            (F32.sub F32.one (F32.mul t (F32.lit 6 10)))
            F32.one
  else if F32.ltb p (F32.lit 66 100) then
    let t := F32.div (F32.sub p (F32.lit 33 100)) (F32.lit 33 100) in
    mkColor (F32.add (F32.lit 2 10) (F32.mul t (F32.lit 5 10)))
            (F32.add (F32.lit 4 10) (F32.mul t (F32.lit 1 10)))
            F32.one
  else
    let t := F32.div (F32.sub p (F32.lit 66 100)) (F32.lit 34 100) in
    mkColor (F32.add (F32.lit 7 10) (F32.mul t (F32.lit 3 10)))
            (F32.sub (F32.lit 5 10) (F32.mul t (F32.lit 5 10)))
            (F32.sub F32.one (F32.mul t F32.one)).

Definition color_from_palette (palette : Z) (p : float32) : Color :=
  let p := clampf p F32.zero F32.one in
  if decide (palette = 0) then
    if F32.ltb p (F32.lit 25 100) then
      let t := F32.div p (F32.lit 25 100) in
      mkColor F32.zero t F32.one
    else if F32.ltb p (F32.lit 5 10) then
      let t := F32.div (F32.sub p (F32.lit 25 100)) (F32.lit 25 100) in
      mkColor F32.zero F32.one (F32.sub F32.one t)
    else if F32.ltb p (F32.lit 75 100) then
      let t := F32.div (F32.sub p (F32.lit 5 10)) (F32.lit 25 100) in
      mkColor t F32.one F32.zero
    else
      let t := F32.div (F32.sub p (F32.lit 75 100)) (F32.lit 25 100) in
      mkColor F32.one (F32.sub F32.one (F32.mul t (F32.lit 5 10))) F32.zero
  else if decide (palette = 1) then
    mkColor (F32.mul p (F32.lit 3 10))
            (F32.add (F32.lit 5 10) (F32.mul p (F32.lit 5 10)))
            (F32.add (F32.lit 7 10) (F32.mul p (F32.lit 3 10)))
  else if decide (palette = 2) then
    mkColor (F32.mul p (F32.lit 2 10))
            (F32.add (F32.lit 3 10) (F32.mul p (F32.lit 7 10)))
            (F32.mul p (F32.lit 1 10))
  else if decide (palette = 3) then mkColor p p p
  else if decide (palette = 4) then
    if F32.ltb p (F32.lit 33 100) then
      let t := F32.div p (F32.lit 33 100) in
      mkColor t F32.zero F32.zero
    else if F32.ltb p (F32.lit 66 100) then
      let t := F32.div (F32.sub p (F32.lit 33 100)) (F32.lit 33 100) in
      mkColor F32.one t F32.zero
    else
      let t := F32.div (F32.sub p (F32.lit 66 100)) (F32.lit 34 100) in
      mkColor F32.one F32.one t
  else if decide (palette = 5) then
    mkColor (F32.add F32.zero p)
            (F32.sub F32.one (F32.mul p (F32.lit 5 10)))
            (F32.sub F32.one (F32.mul p (F32.lit 5 10)))
  else if decide (palette = 6) then plasma_gradient p
  else mkColor p p p.

(** What [sample_to_color] returns through its five pointers. *)
Record ColorHeight := mkColorHeight {
  ch_r : float32; ch_g : float32; ch_b : float32; ch_a : float32;
  ch_h01 : float32
}.

Definition noise_threshold : float32 := F32.lit 35 100.

(** The normalised level [p] of [sample_to_color]. *)
Definition wf_level (db_min db_max sample_db : float32) : float32 :=
  clampf (F32.div (F32.sub sample_db db_min) (F32.sub db_max db_min))
    F32.zero F32.one.

(** The remapped and squared signal of the branch above the threshold. *)
Definition wf_signal (p : float32) : float32 :=
  let signal := F32.div (F32.sub p noise_threshold)
                  (F32.sub F32.one noise_threshold) in
  F32.mul signal signal.

(** The colour before it is scaled by the signal: the gradient over the
    depth for Plasma, white to the palette's colour at full intensity for
    the other palettes. *)
Definition wf_base_color (palette : Z) (dist01 : float32) : Color :=
  if decide (palette = 6) then plasma_gradient dist01
  else
    let target := color_from_palette palette F32.one in
    mkColor
      (F32.add F32.one (F32.mul dist01 (F32.sub (c_r target) F32.one)))
      (F32.add F32.one (F32.mul dist01 (F32.sub (c_g target) F32.one)))
      (F32.add F32.one (F32.mul dist01 (F32.sub (c_b target) F32.one))).

(** The body of [sample_to_color] for given bounds [db_min], [db_max]. *)
Definition wf_color_height (db_min db_max : float32) (palette : Z)
    (sample_db dist01 : float32) : ColorHeight :=
  let p := wf_level db_min db_max sample_db in
  if F32.ltb p noise_threshold then
    mkColorHeight F32.zero F32.zero F32.zero F32.one F32.zero
  else
    let signal := wf_signal p in
    let h01 := clampf (F32.mul signal (F32.lit 18 10)) F32.zero F32.one in
    let base := wf_base_color palette dist01 in
    mkColorHeight (F32.mul (c_r base) signal) (F32.mul (c_g base) signal)
      (F32.mul (c_b base) signal) F32.one h01.

Definition sample_to_color (rx : RECEIVER) (sample_db dist01 : float32)
    : ColorHeight :=
  wf_color_height (F32.of_Z (waterfall_low rx)) (F32.of_Z (waterfall_high rx))
    (waterfall3dss_palette rx) sample_db dist01.

(** The thresholds of the 2D path ([waterfall_update] of [waterfall.c])
    for a pixbuf of [width] columns; [soffset] is the sum of the gain
    corrections. *)
Definition waterfall_thresholds (rx : RECEIVER) (width : Z)
    (soffset : float32) : option (float32 * float32) :=
  if waterfall_automatic rx then
    average ← for_range 0 width
                 (λ i average, s ← load (pixel_samples rx) i;
                               Some (F32.add average s))
                 F32.zero;
    let wf_low := F32.sub (F32.add (F32.div average (F32.of_Z width)) soffset)
                    (F32.of_Z 5) in
    Some (wf_low, F32.add wf_low (F32.of_Z 55))
  else Some (F32.of_Z (waterfall_low rx), F32.of_Z (waterfall_high rx)).

(** ** Camera controls *)

Inductive GdkScrollDirection :=
  | GDK_SCROLL_UP | GDK_SCROLL_DOWN | GDK_SCROLL_LEFT | GDK_SCROLL_RIGHT
  | GDK_SCROLL_SMOOTH.

(** The part of [waterfall3dss_gl_realize] that initialises the controls.
    [gl_ok] tells whether the GL context, the two shaders and the program
    were set up: when one of them fails the function returns before it
    reaches the controls, which stay as [waterfall3dss_init] left them. *)
Definition waterfall3dss_gl_realize (gl_ok : bool) (st : WaterfallGLState)
    : WaterfallGLState :=
  if gl_ok then
    set_waterfall_pan 0 (set_waterfall_zoom 0 (set_dragging false
      (set_zoom_level (F32.of_Z 2) (set_tilt_angle (F32.lit 28 10) st))))
  else st.

Definition waterfall3dss_button_press (button : Z) (y : float64)
    (st : WaterfallGLState) : WaterfallGLState * bool :=
  if decide (button = 1)
  then (set_drag_start y (tilt_angle st) (set_dragging true st), true)
  else (st, false).

Definition waterfall3dss_motion (y : float64) (st : WaterfallGLState)
    : WaterfallGLState * bool :=
  if dragging st then
    let delta_y := F64.sub y (drag_start_y st) in
    let sensitivity := F32.lit 2 1000 in
    let tilt := F32.add (drag_start_tilt st)
                  (F32.mul (f32_of_f64 delta_y) sensitivity) in
    (set_tilt_angle (clampf tilt F32.zero (F32.of_Z 5)) st, true)
  else (st, false).

Definition waterfall3dss_button_release (button : Z) (st : WaterfallGLState)
    : WaterfallGLState * bool :=
  if decide (button = 1) then (set_dragging false st, true) else (st, false).

Definition waterfall3dss_scroll (direction : GdkScrollDirection)
    (delta_y : float64) (st : WaterfallGLState) : WaterfallGLState * bool :=
  let zoom_step := F32.lit 15 100 in
  let z :=
    match direction with
    | GDK_SCROLL_UP => F32.sub (zoom_level st) zoom_step
    | GDK_SCROLL_DOWN => F32.add (zoom_level st) zoom_step
    | GDK_SCROLL_SMOOTH =>
        F32.add (zoom_level st)
          (F32.mul (F32.mul (f32_of_f64 delta_y) zoom_step) (F32.lit 5 10))
    | _ => zoom_level st
    end in
  (set_zoom_level (clampf z F32.one (F32.of_Z 4)) st, true).

(** The pointer and scroll events that the widget delivers. *)
Inductive PointerEvent :=
  | ButtonPress (button : Z) (y : float64)
  | MotionNotify (y : float64)
  | ButtonRelease (button : Z)
  | Scroll (direction : GdkScrollDirection) (delta_y : float64).

Definition wf_handle_event (ev : PointerEvent) (st : WaterfallGLState)
    : WaterfallGLState :=
  match ev with
  | ButtonPress button y => fst (waterfall3dss_button_press button y st)
  | MotionNotify y => fst (waterfall3dss_motion y st)
  | ButtonRelease button => fst (waterfall3dss_button_release button st)
  | Scroll direction delta_y => fst (waterfall3dss_scroll direction delta_y st)
  end.

Definition wf_handle_events (evs : list PointerEvent) (st : WaterfallGLState)
    : WaterfallGLState :=
  foldl (λ s ev, wf_handle_event ev s) st evs.

(** ** The design document's formulas, for comparison *)

(** The nearest integer to [n/d] for [d > 0], halves away from zero. *)
Definition Z_round_div (n d : Z) : Z :=
  Z.sgn n * ((2 * Z.abs n + d) / (2 * d)).

(** The rotation of the design document:
    [round((old_frequency - new_frequency) / hz_per_bin)] with
    [hz_per_bin = sample_rate / bins]. *)
Definition spec_rotate_bins (rx : RECEIVER) (st : WaterfallGLState)
    (current_freq : Z) : Z :=
  Z_round_div ((waterfall_frequency rx - current_freq) * bins st)
    (sample_rate rx).


(** ** Well-formed states and inputs *)

(** The buffer is allocated and holds [depth * bins] cells. *)
Definition wf_allocated (st : WaterfallGLState) (h : list float32) : Prop :=
  history st = Some h ∧ Z.of_nat (length h) = depth st * bins st
  ∧ 0 < depth st ∧ 0 < bins st.

(** The source array holds at least [pixels] samples. *)
Definition rx_samples_ok (rx : RECEIVER) : Prop :=
  pixels rx ≤ Z.of_nat (length (pixel_samples rx)).

(** One accepted tick after the other. *)
Fixpoint wf_push_rows (rxs : list RECEIVER) (st : WaterfallGLState)
    : option WaterfallGLState :=
  match rxs with
  | [] => Some st
  | rx :: rxs => st' ← wf_push_row rx st; wf_push_rows rxs st'
  end.

(** The scenario of the design document: depth 4, 4 bins, rows [R0], [R1]
    and [R2]. *)
Definition scenario_state : WaterfallGLState :=
  mkState 4 4 0 (Some (replicate 16 F32.zero)) F32.zero F32.zero false
    F64.zero F32.zero 0 0 0 0.

Definition scenario_rx (row : list Z) : RECEIVER :=
  mkRx 1 0 4 48000 0 0 (-100) (-50) false 0 (F32.of_Z <$> row) true.

Definition R0 : list Z := [1; 2; 3; 4].
Definition R1 : list Z := [5; 6; 7; 8].
Definition R2 : list Z := [9; 10; 11; 12].

(** A buffer of two rows of ten bins holding 1 .. 20, a receiver tuned to
    7.1 MHz at 48 kHz (so that a bin is 4800 Hz wide), and three hosts: one
    that has retuned by two bins, one that has jumped by 100 kHz, one that
    has not moved. *)
Definition demo_state : WaterfallGLState :=
  mkState 10 2 0 (Some (F32.of_Z <$> seqZ 1 20)) F32.zero F32.zero false
    F64.zero F32.zero 1 0 0 0.

Definition demo_rx : RECEIVER :=
  mkRx 1 0 10 48000 7100000 48000 (-100) (-50) false 0
    (F32.of_Z <$> seqZ 101 10) true.

Definition demo_host_retuned : Host := mkHost 10 7090400.
Definition demo_host_jumped : Host := mkHost 10 7200000.
Definition demo_host_steady : Host := mkHost 10 7100000.

(** A receiver that is displayed for the first time. *)
Definition fresh_rx : RECEIVER :=
  mkRx 1 0 10 48000 0 0 (-100) (-50) false 0 (F32.of_Z <$> seqZ 101 10) true.

(** ** Classes of floats and the ranges of the camera state *)

Definition is_nan (x : spec_float) : bool :=
  match x with S754_nan => true | _ => false end.

(** Zero or finite: neither NaN nor an infinity. *)
Definition is_finite (x : spec_float) : bool :=
  match x with S754_zero _ | S754_finite _ _ _ => true | _ => false end.

(** [lo <= x <= hi] with the comparison of the floats. *)
Definition in_range (lo hi x : float32) : Prop :=
  F32.leb lo x = true ∧ F32.leb x hi = true.

(** The handler of the event computes no NaN in the state [st]: the delta
    of a smooth scroll is a number, and the coordinate of a motion during a
    drag differs from the coordinate of the press by a number (neither is
    NaN, and they are not the same infinity).  The other events, and the
    scrolls by steps, read no coordinate or delta. *)
Definition event_defined (ev : PointerEvent) (st : WaterfallGLState) : Prop :=
  match ev with
  | MotionNotify y =>
      dragging st = true → is_nan (F64.sub y (drag_start_y st)) = false
  | Scroll GDK_SCROLL_SMOOTH delta_y => is_nan delta_y = false
  | _ => True
  end.

(** Every event of the sequence is defined in the state in which it
    arrives. *)
Fixpoint events_defined (evs : list PointerEvent) (st : WaterfallGLState)
    : Prop :=
  match evs with
  | [] => True
  | ev :: evs =>
      event_defined ev st ∧ events_defined evs (wf_handle_event ev st)
  end.

(** A condition on the events alone: the presses of button 1 have a finite
    coordinate, and the coordinates of the motions and the deltas of the
    smooth scrolls are not NaN; they may be infinite. *)
Definition event_not_nan (ev : PointerEvent) : Prop :=
  match ev with
  | ButtonPress button y => button = 1 → is_finite y = true
  | MotionNotify y => is_nan y = false
  | Scroll GDK_SCROLL_SMOOTH delta_y => is_nan delta_y = false
  | _ => True
  end.

(** What the handlers keep true of the controls. *)
Definition camera_ok (st : WaterfallGLState) : Prop :=
  in_range F32.zero (F32.of_Z 5) (tilt_angle st)
  ∧ in_range F32.one (F32.of_Z 4) (zoom_level st)
  ∧ in_range F32.zero (F32.of_Z 5) (drag_start_tilt st).

(** The display state of [fresh_rx] as [waterfall3dss_init] creates it. *)
Definition fresh_state : WaterfallGLState :=
  mkState 10 120 0 (Some (replicate 1200 FLOOR_DB)) F32.zero F32.zero false
    F64.zero F32.zero 0 0 0 0.

(** A drag over 10^300 pixels and scrolls with deltas of that size. *)
Definition extreme_events : list PointerEvent :=
  [ ButtonPress 1 (F64.of_Z 100); MotionNotify (F64.of_Z (10 ^ 300));
    ButtonRelease 1; Scroll GDK_SCROLL_SMOOTH (F64.of_Z (- 10 ^ 300));
    Scroll GDK_SCROLL_UP F64.zero ].

(** A drag to an infinite coordinate, a smooth scroll with an infinite
    delta, and a scroll by a step whose unused delta is NaN. *)
Definition infinite_events : list PointerEvent :=
  [ ButtonPress 1 (F64.of_Z 100); MotionNotify (S754_infinity false);
    ButtonRelease 1; Scroll GDK_SCROLL_SMOOTH (S754_infinity true);
    Scroll GDK_SCROLL_DOWN S754_nan ].

(** A drag whose motion event carries NaN as coordinate. *)
Definition nan_drag : list PointerEvent :=
  [ ButtonPress 1 (F64.of_Z 100); MotionNotify S754_nan ].

(** A drag that starts and goes on at the same infinite coordinate. *)
Definition infinite_drag : list PointerEvent :=
  [ ButtonPress 1 (S754_infinity false); MotionNotify (S754_infinity false) ].

(** A smooth scroll whose delta is NaN. *)
Definition nan_scroll : list PointerEvent :=
  [ Scroll GDK_SCROLL_SMOOTH S754_nan ].


(** ** The real value of a float *)

(** [2^e] for an integer exponent. *)
Definition bpow (e : Z) : R := powerRZ 2 e.

Definition F2R (m e : Z) : R := (IZR m * bpow e)%R.

(** The value of a finite float; zero for the others. *)
Definition B2R (x : spec_float) : R :=
  match x with
  | S754_finite s m e => F2R (cond_Zopp s (Z.pos m)) e
  | _ => 0%R
  end.

(** The mantissa [m], the exponent [e] and the location [l] that the
    operations hand to the rounding describe the real [r]: it is [m * 2^e]
    or lies strictly between [m * 2^e] and [(m + 1) * 2^e], below, at or
    above the middle. *)
Definition inbetween (m e : Z) (l : location) (r : R) : Prop :=
  match l with
  | loc_Exact => r = F2R m e
  | loc_Inexact c =>
      (F2R m e < r < F2R (m + 1) e)%R
      ∧ match c with
        | Lt => (r < (IZR m + / 2) * bpow e)%R
        | Eq => r = ((IZR m + / 2) * bpow e)%R
        | Gt => ((IZR m + / 2) * bpow e < r)%R
        end
  end.

(** [n * 2^E] is a multiple of [2^E] nearest to [r], the even one when [r]
    is half way between two. *)
Definition rounds_at (E : Z) (r : R) (n : Z) : Prop :=
  (Rabs (IZR n * bpow E - r) <= bpow E / 2)%R
  ∧ ∀ k, r = ((IZR k + / 2) * bpow E)%R → Z.even n = true.

(** [f] is the positive normal float of [prec] bits that [r] rounds to:
    with [2^(mag-1) <= r < 2^mag], its value is the multiple of
    [2^(mag-prec)] nearest to [r]. *)
Definition rounded (prec : Z) (r : R) (f : spec_float) : Prop :=
  ∃ m e n mag,
    f = S754_finite false m e
    ∧ Zdigits2 (Z.pos m) = prec
    ∧ (bpow (mag - 1) <= r < bpow mag)%R
    ∧ rounds_at (mag - prec) r n
    ∧ F2R (Z.pos m) e = (IZR n * bpow (mag - prec))%R
    ∧ mag - prec ≤ e ≤ mag - prec + 1.

(** ** States between ticks *)

(** The buffer is allocated with [depth * bins] cells and [head] is the
    index of a row. *)
Definition wf_state_ok (st : WaterfallGLState) : Prop :=
  ∃ h, wf_allocated st h ∧ 0 ≤ head st < depth st.

(** Every cell holds the floor value. *)
Definition wf_all_floor (st : WaterfallGLState) : Prop :=
  ∀ r i, 0 ≤ r < depth st → 0 ≤ i < bins st → wf_cell st r i = Some FLOOR_DB.

(** The tracker over a sequence of ticks: one call of
    [wf_handle_frequency] per host, the receiver carrying the tracked
    frequency from one to the next. *)
Fixpoint wf_track (hosts : list Host) (rx : RECEIVER) (st : WaterfallGLState)
    : option (RECEIVER * WaterfallGLState) :=
  match hosts with
  | [] => Some (rx, st)
  | host :: hosts =>
      '(rx', st') ← wf_handle_frequency host rx st; wf_track hosts rx' st'
  end.

(** Retunes of less than one bin each: every frequency of [fs] is not zero
    and differs from the one before it, [f0] for the first, by less than
    [sr / nbins]. *)
Fixpoint wf_slow_drift (nbins sr f0 : Z) (fs : list Z) : Prop :=
  match fs with
  | [] => True
  | f :: fs =>
      f ≠ 0 ∧ Z.abs (f0 - f) * nbins < sr ∧ wf_slow_drift nbins sr f fs
  end.

(** ** The mesh of the renderer *)

Definition WATERFALL_Z_SPAN : float32 := F32.lit 160 100.

(** [*out++ = v] for every [v] of [vs], in order. *)
Fixpoint store_seq {A : Type} (a : list A) (out : Z) (vs : list A)
    : option (list A * Z) :=
  match vs with
  | [] => Some (a, out)
  | v :: vs => a' ← store a out v; store_seq a' (out + 1) vs
  end.

(** The scratch buffers of the renderer: the two resampled rows and the
    vertex array. *)
Record RenderBuffers := mkBuffers {
  row_tmp0 : list float32;
  row_tmp1 : list float32;
  vtx : list float32
}.

(** "Resample from bins to screen width", for the strip of age [d]. *)
Definition wf_resample_strip (st : WaterfallGLState) (W d : Z)
    (bufs : RenderBuffers) : option RenderBuffers :=
  for_range 0 W
    (λ x bufs,
       '(v0, v1) ← wf_resample_pair st W d x;
       t0 ← store (row_tmp0 bufs) x v0;
       t1 ← store (row_tmp1 bufs) x v1;
       Some (mkBuffers t0 t1 (vtx bufs)))
    bufs.

(** The fourteen floats of column [x] in the strip of age [d]: position and
    colour of the vertex on the row of age [d], with sample [s0], and of
    the vertex on the row of age [d + 1], with sample [s1]. *)
Definition wf_strip_vertex (rx : RECEIVER) (st : WaterfallGLState)
    (W d x : Z) (s0 s1 : float32) : list float32 :=
  let D := depth st in
  let z_span := WATERFALL_Z_SPAN in
  let dz := F32.div z_span (F32.of_Z (D - 1)) in
  let y_base := F32.zero in
  let y_scale := F32.lit 60 100 in
  let z0 := F32.mul (SFopp (F32.of_Z d)) dz in
  let z1 := F32.mul (SFopp (F32.of_Z (d + 1))) dz in
  let dist0 := F32.div (F32.of_Z d) (F32.of_Z (D - 1)) in
  let dist1 := F32.div (F32.of_Z (d + 1)) (F32.of_Z (D - 1)) in
  let px_norm := F32.div (F32.of_Z x) (F32.of_Z (W - 1)) in
  let px_centered := F32.mul (F32.sub px_norm (F32.lit 5 10)) (F32.of_Z 2) in
  let width0 := F32.lit 80 100 in
  let width1 := F32.lit 80 100 in
  let px0 := F32.mul px_centered width0 in
  let px1 := F32.mul px_centered width1 in
  let c0 := sample_to_color rx s0 dist0 in
  let y0 := F32.add (F32.add y_base (F32.mul (ch_h01 c0) y_scale))
              (F32.mul (tilt_angle st) dist0) in
  let c1 := sample_to_color rx s1 dist1 in
  let y1 := F32.add (F32.add y_base (F32.mul (ch_h01 c1) y_scale))
              (F32.mul (tilt_angle st) dist1) in
  [px0; y0; z0; ch_r c0; ch_g c0; ch_b c0; ch_a c0;
   px1; y1; z1; ch_r c1; ch_g c1; ch_b c1; ch_a c1].

(** "Generate triangle strip", for the strip of age [d]; [out] is the
    offset of the write pointer in the vertex array. *)
Definition wf_emit_strip (rx : RECEIVER) (st : WaterfallGLState) (W d : Z)
    (s : RenderBuffers * Z) : option (RenderBuffers * Z) :=
  for_range 0 W
    (λ x '(bufs, out),
       s0 ← load (row_tmp0 bufs) x;
       s1 ← load (row_tmp1 bufs) x;
       '(v, out') ← store_seq (vtx bufs) out
                      (wf_strip_vertex rx st W d x s0 s1);
       Some (mkBuffers (row_tmp0 bufs) (row_tmp1 bufs) v, out'))
    s.

(** The loop over the strips of [waterfall3dss_gl_render], for a widget of
    [W] pixels: the buffers and the offset of the write pointer at the
    end. *)
Definition wf_build_mesh (rx : RECEIVER) (st : WaterfallGLState) (W : Z)
    (bufs : RenderBuffers) : option (RenderBuffers * Z) :=
  for_range 0 (depth st - 1)
    (λ d '(bufs, out),
       bufs ← wf_resample_strip st W d bufs;
       wf_emit_strip rx st W d (bufs, out))
    (bufs, 0).

(** The draw calls of the strips, [(first, count)] for each
    [glDrawArrays (GL_TRIANGLE_STRIP, first, count)]. *)
Definition wf_draw_strips (D W : Z) : option (list (Z * Z)) :=
  '(_, calls) ← for_range 0 (D - 1)
                  (λ s '(base, calls),
                     Some (base + W * 2, calls ++ [(base, W * 2)]))
                  (0, []);
  Some calls.

(** ** The grid *)

Definition N_VLINES : Z := 20.
Definition N_HLINES : Z := 15.

(** The number of vertices for which [build_grid] allocates. *)
Definition grid_max_verts : Z := N_VLINES * 2 + N_HLINES * 2 + 8.

(** [build_grid], up to the upload: [grid_data] is the block of
    [grid_max_verts * 7] floats that [g_malloc] returns; the result is the
    block as it is uploaded, the number [idx] of floats written and
    [st->grid_vertices]. *)
Definition build_grid (st : WaterfallGLState) (grid_data : list float32)
    : option (list float32 * Z * Z) :=
  let r := F32.lit 15 100 in
  let g := F32.lit 60 100 in
  let b := F32.lit 70 100 in
  let a := F32.lit 50 100 in
  s ← for_range 0 N_VLINES
         (λ i '(grid_data, idx),
            let x01 := F32.div (F32.of_Z i) (F32.of_Z (N_VLINES - 1)) in
            let x := F32.mul (F32.sub x01 (F32.lit 5 10)) (F32.of_Z 2) in
            let x_front := F32.mul x (F32.lit 80 100) in
            let x_back := F32.mul x (F32.lit 80 100) in
            '(grid_data, idx) ← store_seq grid_data idx
                                  [x_front; F32.zero; F32.zero; r; g; b; a];
            let dist := F32.one in
            let fog := clampf (F32.sub F32.one (F32.mul dist (F32.lit 7 10)))
                         (F32.lit 35 100) F32.one in
            store_seq grid_data idx
              [x_back; tilt_angle st; SFopp WATERFALL_Z_SPAN;
               F32.mul r fog; F32.mul g fog; F32.mul b fog;
               F32.mul a (F32.lit 4 10)])
         (grid_data, 0);
  s ← for_range 0 N_HLINES
         (λ i '(grid_data, idx),
            let z := F32.mul (F32.div (SFopp (F32.of_Z i))
                                (F32.of_Z (N_HLINES - 1)))
                       WATERFALL_Z_SPAN in
            let dist01 := F32.div (F32.of_Z i) (F32.of_Z (N_HLINES - 1)) in
            let taper := F32.lit 80 100 in
            let fog := clampf (F32.sub F32.one
                                 (F32.mul dist01 (F32.lit 7 10)))
                         (F32.lit 35 100) F32.one in
            let y_tilt := F32.mul (tilt_angle st) dist01 in
            let x0 := F32.mul (SFopp F32.one) taper in
            let x1 := F32.mul F32.one taper in
            '(grid_data, idx) ← store_seq grid_data idx
                                  [x0; y_tilt; z; F32.mul r fog; F32.mul g fog;
                                   F32.mul b fog; F32.mul a (F32.lit 8 10)];
            store_seq grid_data idx
              [x1; y_tilt; z; F32.mul r fog; F32.mul g fog; F32.mul b fog;
               F32.mul a (F32.lit 8 10)])
         s;
  let '(grid_data, idx) := s in
  '(grid_data, idx) ← store_seq grid_data idx
                        [SFopp (F32.lit 80 100); F32.zero; F32.zero;
                         r; g; b; a];
  '(grid_data, idx) ← store_seq grid_data idx
                        [F32.lit 80 100; F32.zero; F32.zero; r; g; b; a];
  '(grid_data, idx) ← store_seq grid_data idx
                        [SFopp (F32.lit 80 100); tilt_angle st;
                         SFopp WATERFALL_Z_SPAN;
                         F32.mul r (F32.lit 7 10); F32.mul g (F32.lit 7 10);
                         F32.mul b (F32.lit 7 10); F32.mul a (F32.lit 5 10)];
  '(grid_data, idx) ← store_seq grid_data idx
                        [F32.lit 80 100; tilt_angle st;
                         SFopp WATERFALL_Z_SPAN;
                         F32.mul r (F32.lit 7 10); F32.mul g (F32.lit 7 10);
                         F32.mul b (F32.lit 7 10); F32.mul a (F32.lit 5 10)];
  Some (grid_data, idx, idx `quot` 7).

(** ** Ticks in sequence *)

(** One [waterfall3dss_update] per element, each with the host and the
    receiver of its tick; the display state is carried along and the
    redraw flags are collected. *)
Fixpoint wf_ticks (ticks : list (Host * RECEIVER)) (st : WaterfallGLState)
    : option (WaterfallGLState * list bool) :=
  match ticks with
  | [] => Some (st, [])
  | (host, rx) :: ticks =>
      '(_, st', redraw) ← waterfall3dss_update host rx st;
      '(st'', redraws) ← wf_ticks ticks st';
      Some (st'', redraw :: redraws)
  end.

(** ** The 2D waterfall ([waterfall.c]) *)

(** [memset(a + dst, v, n)]. *)
Definition memset {A : Type} (a : list A) (dst : Z) (v : A) (n : Z)
    : option (list A) :=
  if decide (0 ≤ n ∧ 0 ≤ dst ∧ dst + n ≤ Z.of_nat (length a))
  then Some (take (Z.to_nat dst) a ++ replicate (Z.to_nat n) v
             ++ drop (Z.to_nat (dst + n)) a)
  else None.

(** The conversion of an [int] to [unsigned char]. *)
Definition uchar (z : Z) : Z := z `mod` 256.

(** [(double)x] for a float [x]: the same value, with a mantissa of 53
    bits. *)
Definition f64_of_f32 (x : float32) : float64 :=
  match x with
  | S754_finite s m e => binary_round F64.prec F64.emax s m e
  | _ => x
  end.

Definition LONG_MIN : Z := - 2 ^ 63.
Definition LONG_MAX : Z := 2 ^ 63 - 1.

(** [lround]: the nearest integer, halves away from zero.  Outside the
    range of [long], and for NaN, the result is unspecified; the model
    gives [LONG_MIN]. *)
Definition lround (x : float64) : Z :=
  match x with
  | S754_zero _ => 0
  | S754_finite s m e =>
      let a := if 0 <=? e then Z.pos m * 2 ^ e
               else (Z.pos m + 2 ^ (- e - 1)) / 2 ^ (- e) in
      let z := if s then - a else a in
      if (LONG_MIN <=? z) && (z <=? LONG_MAX) then z else LONG_MIN
  | _ => LONG_MIN
  end.

Definition colorLowR : Z := 0.
Definition colorLowG : Z := 0.
Definition colorLowB : Z := 0.
Definition colorHighR : Z := 255.
Definition colorHighG : Z := 255.
Definition colorHighB : Z := 0.

(** The three bytes that [waterfall_update] writes for one sample, to which
    the offset has been added. *)
Definition waterfall_pixel (wf_low wf_high rangei sample : float32)
    : list Z :=
  if F32.ltb sample wf_low then
    [uchar colorLowR; uchar colorLowG; uchar colorLowB]
  else if F32.ltb wf_high sample then
    [uchar colorHighR; uchar colorHighG; uchar colorHighB]
  else
    let percent := F32.mul (F32.sub sample wf_low) rangei in
    if F32.ltb percent (F32.lit 222222 1000000) then
      let local_percent := F32.mul percent (F32.lit 45 10) in
      [uchar (float_to_int (F32.mul (F32.sub F32.one local_percent)
                              (F32.of_Z colorLowR)));
       uchar (float_to_int (F32.mul (F32.sub F32.one local_percent)
                              (F32.of_Z colorLowG)));
       uchar (float_to_int
                (F32.add (F32.of_Z colorLowB)
                   (F32.mul local_percent (F32.of_Z (255 - colorLowB)))))]
    else if F32.ltb percent (F32.lit 333333 1000000) then
      let local_percent :=
        F32.mul (F32.sub percent (F32.lit 222222 1000000)) (F32.of_Z 9) in
      [uchar 0; uchar (float_to_int (F32.mul local_percent (F32.of_Z 255)));
       uchar 255]
    else if F32.ltb percent (F32.lit 444444 1000000) then
      let local_percent :=
        f32_of_f64
          (F64.mul
             (F64.sub (f64_of_f32 percent)
                (F64.div (F64.of_Z 333333) (F64.of_Z 1000000)))
             (f64_of_f32 (F32.of_Z 9))) in
      [uchar 0; uchar 255;
       uchar (float_to_int (F32.mul (F32.sub F32.one local_percent)
                              (F32.of_Z 255)))]
    else if F32.ltb percent (F32.lit 555555 1000000) then
      let local_percent :=
        F32.mul (F32.sub percent (F32.lit 444444 1000000)) (F32.of_Z 9) in
      [uchar (float_to_int (F32.mul local_percent (F32.of_Z 255)));
       uchar 255; uchar 0]
    else if F32.ltb percent (F32.lit 777777 1000000) then
      let local_percent :=
        F32.mul (F32.sub percent (F32.lit 555555 1000000)) (F32.lit 45 10) in
      [uchar 255;
       uchar (float_to_int (F32.mul (F32.sub F32.one local_percent)
                              (F32.of_Z 255)));
       uchar 0]
    else if F32.ltb percent (F32.lit 888888 1000000) then
      let local_percent :=
        F32.mul (F32.sub percent (F32.lit 777777 1000000)) (F32.of_Z 9) in
      [uchar 255; uchar 0;
       uchar (float_to_int (F32.mul local_percent (F32.of_Z 255)))]
    else
      let local_percent :=
        F32.mul (F32.sub percent (F32.lit 888888 1000000)) (F32.of_Z 9) in
      [uchar (float_to_int
                (F32.mul
                   (F32.add (F32.lit 75 100)
                      (F32.mul (F32.lit 25 100)
                         (F32.sub F32.one local_percent)))
                   (F32.of_Z 255)));
       uchar (float_to_int
                (F32.mul (F32.mul local_percent (F32.of_Z 255))
                   (F32.lit 5 10)));
       uchar 255].

(** A [GdkPixbuf] of three bytes per pixel, seen through its getters. *)
Record Pixbuf := mkPixbuf {
  gdk_pixbuf_get_pixels : list Z;
  gdk_pixbuf_get_width : Z;
  gdk_pixbuf_get_height : Z;
  gdk_pixbuf_get_rowstride : Z
}.

Definition set_pixels (p : list Z) (pb : Pixbuf) : Pixbuf :=
  mkPixbuf p (gdk_pixbuf_get_width pb) (gdk_pixbuf_get_height pb)
    (gdk_pixbuf_get_rowstride pb).

(** The fields that the 2D path reads and writes beside those of
    [RECEIVER] above: [rx->waterfall_mode], [rx->pixbuf],
    [rx->waterfall_zoom] and [rx->waterfall_pan]. *)
Record RECEIVER_2D := mkRx2D {
  rx_common : RECEIVER;
  waterfall_mode : Z;
  pixbuf : option Pixbuf;
  rx_waterfall_zoom : Z;
  rx_waterfall_pan : Z
}.

Definition set_rx_common (r : RECEIVER) (rx : RECEIVER_2D) : RECEIVER_2D :=
  mkRx2D r (waterfall_mode rx) (pixbuf rx) (rx_waterfall_zoom rx)
    (rx_waterfall_pan rx).
Definition set_pixbuf (pb : option Pixbuf) (rx : RECEIVER_2D) : RECEIVER_2D :=
  mkRx2D (rx_common rx) (waterfall_mode rx) pb (rx_waterfall_zoom rx)
    (rx_waterfall_pan rx).
Definition set_rx_waterfall_zoom (z : Z) (rx : RECEIVER_2D) : RECEIVER_2D :=
  mkRx2D (rx_common rx) (waterfall_mode rx) (pixbuf rx) z
    (rx_waterfall_pan rx).
Definition set_rx_waterfall_pan (p : Z) (rx : RECEIVER_2D) : RECEIVER_2D :=
  mkRx2D (rx_common rx) (waterfall_mode rx) (pixbuf rx)
    (rx_waterfall_zoom rx) p.
Definition set_waterfall_frequency (f : Z) (rx : RECEIVER_2D) : RECEIVER_2D :=
  set_rx_common
    (set_waterfall_tracking f (waterfall_sample_rate (rx_common rx))
       (rx_common rx)) rx.

(** The file-level variables [my_width] and [my_height]. *)
Record Statics2D := mkStatics { my_width : Z; my_height : Z }.

(** [hz_per_pixel = (double)rx->sample_rate / ((double)my_width * rx->zoom)]. *)
Definition waterfall_hz_per_pixel (ws : Statics2D) (rx : RECEIVER) : float64 :=
  F64.div (F64.of_Z (sample_rate rx))
    (F64.mul (F64.of_Z (my_width ws)) (F64.of_Z (zoom rx))).

(** [rotfreq], the shift in pixels due to a change of frequency. *)
Definition waterfall_rotfreq (ws : Statics2D) (rx : RECEIVER) (vfofreq : Z)
    : Z :=
  float_to_int (F64.div (F64.of_Z (waterfall_frequency rx - vfofreq))
                  (waterfall_hz_per_pixel ws rx)).

(** The horizontal shift of the picture by [rotate_pixels], with the
    vacated columns cleared. *)
Definition waterfall_shift (ws : Statics2D) (width rotate_pixels : Z)
    (pixels : list Z) : option (list Z) :=
  if decide (rotate_pixels < 0) then
    pixels ← memmove pixels 0 (- rotate_pixels * 3)
               ((my_width ws * my_height ws + rotate_pixels) * 3);
    for_range 0 (my_height ws)
      (λ i pixels,
         memset pixels ((i * my_width ws + (width + rotate_pixels)) * 3) 0
           (- rotate_pixels * 3))
      pixels
  else if decide (rotate_pixels > 0) then
    pixels ← memmove pixels (rotate_pixels * 3) 0
               ((my_width ws * my_height ws - rotate_pixels) * 3);
    for_range 0 (my_height ws)
      (λ i pixels, memset pixels (i * my_width ws * 3) 0 (rotate_pixels * 3))
      pixels
  else Some pixels.

(** The first part of the 2D branch: the picture is cleared, shifted or
    left alone, and the tracked frequency, pan, zoom and sample rate are
    brought up to date.  The result is the pixel array, the receiver and
    [freq_changed]. *)
Definition waterfall_track (host : Host) (ws : Statics2D) (rx : RECEIVER_2D)
    (pb : Pixbuf) : option (list Z * RECEIVER_2D * bool) :=
  let r := rx_common rx in
  let vfofreq := vfo_frequency host in
  let pan := pan r in
  let zoom := zoom r in
  let pixels := gdk_pixbuf_get_pixels pb in
  let width := gdk_pixbuf_get_width pb in
  let hz_per_pixel := waterfall_hz_per_pixel ws r in
  if decide (waterfall_frequency r ≠ 0
             ∧ sample_rate r = waterfall_sample_rate r
             ∧ zoom = rx_waterfall_zoom rx) then
    if decide (waterfall_frequency r ≠ vfofreq ∨ rx_waterfall_pan rx ≠ pan)
    then
      let rotfreq := waterfall_rotfreq ws r vfofreq in
      let rotpan := wrap32 (rx_waterfall_pan rx - pan) in
      let rotate_pixels := wrap32 (rotfreq + rotpan) in
      if decide (rotate_pixels >= my_width ws
                 ∨ rotate_pixels <= - my_width ws) then
        pixels ← memset pixels 0 0 (my_width ws * my_height ws * 3);
        Some (pixels,
              set_rx_waterfall_pan pan (set_waterfall_frequency vfofreq rx),
              false)
      else
        pixels ← waterfall_shift ws width rotate_pixels pixels;
        if decide (rotfreq ≠ 0) then
          Some (pixels,
                set_rx_waterfall_pan pan
                  (set_waterfall_frequency
                     (waterfall_frequency r
                      - lround (F64.mul (F64.of_Z rotfreq) hz_per_pixel))
                     rx),
                true)
        else Some (pixels, set_rx_waterfall_pan pan rx, false)
    else Some (pixels, rx, false)
  else
    pixels ← memset pixels 0 0 (my_width ws * my_height ws * 3);
    Some (pixels,
          set_rx_common (set_waterfall_tracking vfofreq (sample_rate r) r)
            (set_rx_waterfall_zoom zoom (set_rx_waterfall_pan pan rx)),
          false).

(** The second part: the picture moves down by one row and the samples of
    the tick are drawn into the first row. *)
Definition waterfall_draw_row (soffset : float32) (rx : RECEIVER)
    (pb : Pixbuf) (pixels : list Z) : option (list Z) :=
  let width := gdk_pixbuf_get_width pb in
  let height := gdk_pixbuf_get_height pb in
  let rowstride := gdk_pixbuf_get_rowstride pb in
  pixels ← memmove pixels rowstride 0 ((height - 1) * rowstride);
  '(wf_low, wf_high) ← waterfall_thresholds rx width soffset;
  let rangei := F32.div F32.one (F32.sub wf_high wf_low) in
  '(pixels, _) ← for_range 0 width
                   (λ i '(pixels, p),
                      s ← load (pixel_samples rx) (i + pan rx);
                      let sample := F32.add s soffset in
                      store_seq pixels p
                        (waterfall_pixel wf_low wf_high rangei sample))
                   (pixels, 0);
  Some pixels.

(** The 2D branch of [waterfall_update] for a receiver with a pixbuf.
    [soffset] is the sum of the corrections that the function takes from
    the band, the ADC and the filter board. *)
Definition waterfall_update_2d (soffset : float32) (host : Host)
    (ws : Statics2D) (rx : RECEIVER_2D) (pb : Pixbuf) : option RECEIVER_2D :=
  '(pixels, rx', freq_changed) ← waterfall_track host ws rx pb;
  pixels ← (if freq_changed : bool then Some pixels
            else waterfall_draw_row soffset (rx_common rx) pb pixels);
  Some (set_pixbuf (Some (set_pixels pixels pb)) rx').

(** [waterfall_update]: the 3DSS path in mode 1, the 2D path when there is
    a pixbuf, nothing otherwise.  The boolean tells whether a redraw was
    queued. *)
Definition waterfall_update (soffset : float32) (host : Host)
    (ws : Statics2D) (rx : RECEIVER_2D) (st : WaterfallGLState)
    : option (RECEIVER_2D * WaterfallGLState * bool) :=
  if decide (waterfall_mode rx = 1) then
    '(r', st', redraw) ← waterfall3dss_update host (rx_common rx) st;
    Some (set_rx_common r' rx, st', redraw)
  else
    match pixbuf rx with
    | Some pb =>
        rx' ← waterfall_update_2d soffset host ws rx pb; Some (rx', st, true)
    | None => Some (rx, st, false)
    end.

(** [waterfall_init_2d]: the statics take the size, the receiver loses its
    pixbuf and its tracking and gets the new drawing area as widget. *)
Definition waterfall_init_2d (rx : RECEIVER_2D) (width height : Z)
    : Statics2D * RECEIVER_2D :=
  let r := rx_common rx in
  (mkStatics width height,
   set_rx_common
     (mkRx (zoom r) (pan r) (pixels r) (sample_rate r) 0 0 (waterfall_low r)
        (waterfall_high r) (waterfall_automatic r) (waterfall3dss_palette r)
        (pixel_samples r) true)
     (set_pixbuf None rx)).

(** [waterfall_configure_event_cb] for a widget of the given allocation;
    [new_pixbuf] is what [gdk_pixbuf_new] returns for it. *)
Definition waterfall_configure_event_cb (allocated_width allocated_height : Z)
    (new_pixbuf : Pixbuf) (rx : RECEIVER_2D)
    : option (Statics2D * RECEIVER_2D) :=
  pixels ← memset (gdk_pixbuf_get_pixels new_pixbuf) 0 0
             (allocated_width * allocated_height * 3);
  Some (mkStatics allocated_width allocated_height,
        set_pixbuf (Some (set_pixels pixels new_pixbuf)) rx).

(** The byte of channel [ch] of the pixel at ([row], [col]), at
    [pixels + row * rowstride + col * 3 + ch]. *)
Definition pixbuf_byte (pb : Pixbuf) (row col ch : Z) : option Z :=
  load (gdk_pixbuf_get_pixels pb)
    (row * gdk_pixbuf_get_rowstride pb + col * 3 + ch).

(** The pixbuf that [waterfall_configure_event_cb] sets up: [my_width] by
    [my_height] pixels in [height * rowstride] bytes, each row of at least
    three bytes per pixel. *)
Definition pixbuf_ok (ws : Statics2D) (pb : Pixbuf) : Prop :=
  gdk_pixbuf_get_width pb = my_width ws
  ∧ gdk_pixbuf_get_height pb = my_height ws
  ∧ 0 < my_width ws ∧ 0 < my_height ws
  ∧ 3 * my_width ws ≤ gdk_pixbuf_get_rowstride pb
  ∧ Z.of_nat (length (gdk_pixbuf_get_pixels pb))
    = my_height ws * gdk_pixbuf_get_rowstride pb.

(** The samples that a row of the picture reads exist. *)
Definition rx_row_ok (rx : RECEIVER) (width : Z) : Prop :=
  0 ≤ pan rx ∧ pan rx + width ≤ Z.of_nat (length (pixel_samples rx)).

(** The first row of a picture holds the colours of the samples of the
    tick, for the thresholds of the tick. *)
Definition waterfall_first_row (soffset : float32) (rx : RECEIVER)
    (pb' : Pixbuf) : Prop :=
  ∃ wf_low wf_high,
    waterfall_thresholds rx (gdk_pixbuf_get_width pb') soffset
    = Some (wf_low, wf_high)
    ∧ ∀ col ch, 0 ≤ col < gdk_pixbuf_get_width pb' → 0 ≤ ch < 3 →
        ∃ s, load (pixel_samples rx) (col + pan rx) = Some s
             ∧ pixbuf_byte pb' 0 col ch
               = waterfall_pixel wf_low wf_high
                   (F32.div F32.one (F32.sub wf_high wf_low))
                   (F32.add s soffset) !! Z.to_nat ch.

(** [rotate_pixels], the shift of the picture in pixels: the sum of the
    shifts due to the frequency and to the pan. *)
Definition waterfall_rotate_pixels (host : Host) (ws : Statics2D)
    (rx : RECEIVER_2D) : Z :=
  wrap32 (waterfall_rotfreq ws (rx_common rx) (vfo_frequency host)
          + wrap32 (rx_waterfall_pan rx - pan (rx_common rx))).

(** The tracker is initialised and neither the sample rate nor the zoom has
    changed, but the frequency or the pan has. *)
Definition waterfall_moved (host : Host) (rx : RECEIVER_2D) : Prop :=
  waterfall_frequency (rx_common rx) ≠ 0
  ∧ sample_rate (rx_common rx) = waterfall_sample_rate (rx_common rx)
  ∧ zoom (rx_common rx) = rx_waterfall_zoom rx
  ∧ (waterfall_frequency (rx_common rx) ≠ vfo_frequency host
     ∨ rx_waterfall_pan rx ≠ pan (rx_common rx)).

(** * Properties *)

(** ** Arrays and loops *)

Section ArrayFacts.
Context {A : Type}.
Implicit Types (a : list A) (i j : Z) (v : A).

Lemma load_lookup a i : 0 ≤ i → load a i = a !! Z.to_nat i.
Proof. intros. unfold load. by case_decide. Qed.

Lemma load_neg a i : i < 0 → load a i = None.
Proof. intros. unfold load. case_decide; [lia | done]. Qed.

Lemma load_ge a i : Z.of_nat (length a) ≤ i → load a i = None.
Proof.
  intros. unfold load. case_decide; [|done].
  apply lookup_ge_None_2. lia.
Qed.

Lemma load_is_Some a i : 0 ≤ i < Z.of_nat (length a) → is_Some (load a i).
Proof.
  intros. rewrite load_lookup by lia. apply lookup_lt_is_Some_2. lia.
Qed.

Lemma load_replicate n v i :
  0 ≤ i < Z.of_nat n → load (replicate n v) i = Some v.
Proof.
  intros. rewrite load_lookup by lia. apply lookup_replicate_2. lia.
Qed.

Lemma store_Some a i v :
  0 ≤ i < Z.of_nat (length a) → store a i v = Some (<[Z.to_nat i := v]> a).
Proof. intros. unfold store. by case_decide. Qed.

Lemma store_length a a' i v : store a i v = Some a' → length a' = length a.
Proof.
  unfold store. case_decide; [|done]. intros [= <-]. apply length_insert.
Qed.

Lemma load_store a a' i v j :
  store a i v = Some a' →
  load a' j = if decide (j = i) then Some v else load a j.
Proof.
  unfold store. case_decide as Hi; [|done]. intros [= <-].
  case_decide as Hj.
  - subst j. rewrite load_lookup by lia.
    apply list_lookup_insert_eq. lia.
  - unfold load. case_decide; [|done].
    apply list_lookup_insert_ne. lia.
Qed.

(** A loop that stores [g i] at [base + i] for [i] from [lo]. *)
Lemma for_loop_store (f : Z → option A) (g : Z → A) base n lo a :
  (∀ i, lo ≤ i < lo + Z.of_nat n → f i = Some (g i)) →
  0 ≤ base + lo →
  base + lo + Z.of_nat n ≤ Z.of_nat (length a) →
  ∃ a', for_loop n lo (λ i a, v ← f i; store a (base + i) v) a = Some a'
        ∧ length a' = length a
        ∧ ∀ j, load a' j =
               if decide (base + lo ≤ j < base + lo + Z.of_nat n)
               then Some (g (j - base)) else load a j.
Proof.
  revert lo a. induction n as [|n IH]; intros lo a Hf Hlo Hhi.
  - exists a. split_and!; [done..|]. intros j. case_decide; [lia | done].
  - simpl. rewrite Hf by lia. simpl.
    rewrite store_Some by lia. simpl.
    destruct (IH (lo + 1) (<[Z.to_nat (base + lo) := g lo]> a))
      as (a' & Hrun & Hlen & Hcells).
    + intros i Hi. apply Hf. lia.
    + lia.
    + rewrite length_insert. lia.
    + exists a'. split_and!; [done | by rewrite Hlen, length_insert |].
      intros j. rewrite Hcells.
      rewrite (load_store a _ (base + lo) (g lo)) by (apply store_Some; lia).
      repeat case_decide; try lia; try done.
      f_equal. f_equal. lia.
Qed.

Lemma for_range_store (f : Z → option A) (g : Z → A) base lo hi a :
  (∀ i, lo ≤ i < hi → f i = Some (g i)) →
  lo ≤ hi → 0 ≤ base + lo → base + hi ≤ Z.of_nat (length a) →
  ∃ a', for_range lo hi (λ i a, v ← f i; store a (base + i) v) a = Some a'
        ∧ length a' = length a
        ∧ ∀ j, load a' j =
               if decide (base + lo ≤ j < base + hi)
               then Some (g (j - base)) else load a j.
Proof.
  intros Hf Hle Hlo Hhi. unfold for_range.
  destruct (for_loop_store f g base (Z.to_nat (hi - lo)) lo a)
    as (a' & Hrun & Hlen & Hcells); [intros; apply Hf; lia | lia | lia |].
  exists a'. split_and!; [done..|].
  intros j. rewrite Hcells. repeat case_decide; try lia; done.
Qed.

(** Two arrays with the same loads are the same array. *)
Lemma load_ext a b : (∀ j, load a j = load b j) → a = b.
Proof.
  intros H. apply list_eq. intros k.
  specialize (H (Z.of_nat k)). rewrite !load_lookup in H by lia.
  by rewrite Nat2Z.id in H.
Qed.
End ArrayFacts.

(** ** Reset and push *)

Lemma for_loop_ext {St : Type} (f g : Z → St → option St) n lo s :
  (∀ i s, f i s = g i s) → for_loop n lo f s = for_loop n lo g s.
Proof.
  intros Hfg. revert lo s. induction n as [|n IH]; intros lo s; [done|].
  simpl. rewrite Hfg. destruct (g lo s); simpl; [apply IH | done].
Qed.

(** After [wf_reset_history] every cell holds the floor value and [head]
    is zero. *)
Lemma wf_reset_history_spec st h :
  wf_allocated st h →
  wf_reset_history st
  = Some (set_head 0 (set_history (Some (replicate (length h) FLOOR_DB)) st)).
Proof.
  intros (Hh & Hlen & Hd & Hb). unfold wf_reset_history. rewrite Hh.
  destruct (for_range_store (λ _, Some FLOOR_DB) (λ _, FLOOR_DB) 0 0
              (depth st * bins st) h) as (h' & Hrun & Hlen' & Hcells);
    [done | lia | lia | lia |].
  unfold for_range in *.
  erewrite for_loop_ext; [rewrite Hrun | done]. simpl.
  assert (h' = replicate (length h) FLOOR_DB) as ->; [|done].
  apply load_ext. intros j. rewrite Hcells.
  case_decide.
  - by rewrite load_replicate by lia.
  - destruct (decide (j < 0)).
    + by rewrite !load_neg.
    + rewrite !load_ge; [done | rewrite length_replicate; lia | lia].
Qed.

Lemma wf_reset_history_allocated st st' h :
  wf_allocated st h → wf_reset_history st = Some st' →
  wf_allocated st' (replicate (length h) FLOOR_DB)
  ∧ head st' = 0 ∧ depth st' = depth st ∧ bins st' = bins st.
Proof.
  intros Hok. rewrite (wf_reset_history_spec st h Hok). intros [= <-].
  destruct Hok as (Hh & Hlen & Hd & Hb).
  split_and!; try done. unfold wf_allocated; simpl.
  rewrite length_replicate. done.
Qed.

Lemma wf_source_sample_is_Some rx i :
  rx_samples_ok rx → is_Some (wf_source_sample rx i).
Proof.
  unfold rx_samples_ok, wf_source_sample. intros Hok.
  destruct (_ || _) eqn:Hc; [by eexists|].
  apply orb_false_iff in Hc as [H1%Z.ltb_ge H2%Z.leb_gt].
  apply load_is_Some. lia.
Qed.

(** One push: the row at [head] receives the samples of the tick, the other
    rows keep theirs, and [head] advances modulo the depth. *)
Lemma wf_push_row_spec rx st h :
  wf_allocated st h → 0 ≤ head st < depth st → rx_samples_ok rx →
  ∃ st' h',
    wf_push_row rx st = Some st' ∧ wf_allocated st' h'
    ∧ depth st' = depth st ∧ bins st' = bins st
    ∧ head st' = (head st + 1) `mod` depth st
    ∧ ∀ r i, 0 ≤ r < depth st → 0 ≤ i < bins st →
        wf_cell st' r i = if decide (r = head st) then wf_source_sample rx i
                          else wf_cell st r i.
Proof.
  intros (Hh & Hlen & Hd & Hb) Hhead Hrx.
  destruct (for_range_store (wf_source_sample rx)
              (λ i, default FLOOR_DB (wf_source_sample rx i))
              (head st * bins st) 0 (bins st) h)
    as (h' & Hrun & Hlen' & Hcells).
  - intros i _. by destruct (wf_source_sample_is_Some rx i Hrx) as [v ->].
  - lia.
  - nia.
  - nia.
  - unfold wf_push_row. rewrite Hh. simpl. rewrite Hrun. simpl.
    case_decide; [lia|].
    eexists _, h'. split_and!; [done | | done | done | |].
    + unfold wf_allocated; simpl. split_and!; [done | lia | done | done].
    + simpl. apply Z.rem_mod_nonneg; lia.
    + intros r i Hr Hi. unfold wf_cell; simpl. rewrite Hh; simpl.
      rewrite Hcells. case_decide as Hin.
      * assert (r = head st) as -> by nia.
        rewrite decide_True by done.
        destruct (wf_source_sample_is_Some rx i Hrx) as [v Hv].
        rewrite Hv. simpl. f_equal.
        replace (head st * bins st + i - head st * bins st) with i by lia.
        by rewrite Hv.
      * rewrite decide_False; [done|]. intros ->. lia.
Qed.

Lemma wf_push_rows_app rxs rx st :
  wf_push_rows (rxs ++ [rx]) st = wf_push_rows rxs st ≫= wf_push_row rx.
Proof.
  revert st. induction rxs as [|rx' rxs IH]; intros st; simpl.
  - by destruct (wf_push_row rx st).
  - destruct (wf_push_row rx' st); simpl; [apply IH | done].
Qed.

(** The buffer after [n < depth] pushes onto a reset buffer: physical row
    [r] holds the [r]-th pushed row for [r < n], the floor value above. *)
Lemma wf_push_rows_spec rxs st h :
  wf_allocated st h → head st = 0 →
  (∀ r i, 0 ≤ r < depth st → 0 ≤ i < bins st → wf_cell st r i = Some FLOOR_DB) →
  Forall rx_samples_ok rxs → Z.of_nat (length rxs) < depth st →
  ∃ st' h',
    wf_push_rows rxs st = Some st' ∧ wf_allocated st' h'
    ∧ depth st' = depth st ∧ bins st' = bins st
    ∧ head st' = Z.of_nat (length rxs)
    ∧ ∀ r i, 0 ≤ r < depth st → 0 ≤ i < bins st →
        wf_cell st' r i =
          if decide (r < Z.of_nat (length rxs))
          then rx ← rxs !! Z.to_nat r; wf_source_sample rx i
          else Some FLOOR_DB.
Proof.
  intros Hok Hhead Hfloor. induction rxs as [|rx rxs IH] using rev_ind.
  - intros _ _. exists st, h. split_and!; try done.
    intros r i Hr Hi. rewrite decide_False by (simpl; lia). by apply Hfloor.
  - intros [Hall Hrx%Forall_inv]%Forall_app Hlen.
    rewrite length_app in Hlen. simpl in Hlen.
    destruct IH as (st1 & h1 & Hrun & Hok1 & Hd1 & Hb1 & Hh1 & Hcells1);
      [done | lia |].
    destruct (wf_push_row_spec rx st1 h1)
      as (st2 & h2 & Hrun2 & Hok2 & Hd2 & Hb2 & Hh2 & Hcells2);
      [done | lia | done |].
    exists st2, h2. rewrite wf_push_rows_app, Hrun. simpl.
    split_and!; [done | done | congruence | congruence | |].
    + rewrite Hh2, Hh1, Hd1, length_app. simpl.
      rewrite Z.mod_small; lia.
    + intros r i Hr Hi. rewrite Hcells2 by lia. rewrite Hh1.
      rewrite length_app. simpl. case_decide as Hr1.
      * subst r. rewrite decide_True by lia.
        rewrite Nat2Z.id, list_lookup_middle by done. done.
      * rewrite Hcells1 by lia. case_decide.
        -- rewrite decide_True by lia.
           by rewrite lookup_app_l by lia.
        -- by rewrite decide_False by lia.
Qed.

Lemma wf_row_at_age_recent st d :
  0 < depth st → 0 ≤ d < head st → head st < depth st →
  wf_row_at_age st d = head st - 1 - d.
Proof.
  intros. unfold wf_row_at_age.
  rewrite Z.rem_mod_nonneg by lia.
  replace (head st - d - 1 + depth st)
    with (head st - 1 - d + 1 * depth st) by lia.
  rewrite Z.mod_add by lia. apply Z.mod_small. lia.
Qed.

Lemma wf_row_at_age_old st d :
  0 ≤ head st → head st ≤ d < depth st →
  wf_row_at_age st d = head st - 1 - d + depth st.
Proof.
  intros. unfold wf_row_at_age.
  rewrite Z.rem_mod_nonneg by lia. rewrite Z.mod_small; lia.
Qed.

(** C1.  Starting from a freshly reset buffer, [n < depth] accepted ticks
    leave [head = n]; the row of logical age [d], i.e. the physical row
    [(head - d - 1 + depth) % depth], holds the row pushed by tick
    [n - 1 - d] when [d < n] and the floor value when [n <= d < depth]. *)
Theorem ring_buffer_push_age st0 st h0 (rxs : list RECEIVER) :
  wf_allocated st0 h0 →
  wf_reset_history st0 = Some st →
  Forall rx_samples_ok rxs →
  Z.of_nat (length rxs) < depth st0 →
  ∃ st',
    wf_push_rows rxs st = Some st'
    ∧ head st' = Z.of_nat (length rxs)
    ∧ ∀ d i, 0 ≤ d < depth st0 → 0 ≤ i < bins st0 →
        wf_cell st' (wf_row_at_age st' d) i =
          if decide (d < Z.of_nat (length rxs))
          then rx ← rxs !! Z.to_nat (Z.of_nat (length rxs) - 1 - d);
               wf_source_sample rx i
          else Some FLOOR_DB.
Proof.
  intros Hok0 Hreset Hrxs Hn.
  destruct (wf_reset_history_allocated st0 st h0 Hok0 Hreset)
    as (Hok & Hhead & Hd & Hb).
  destruct (wf_push_rows_spec rxs st (replicate (length h0) FLOOR_DB))
    as (st' & h' & Hrun & Hok' & Hd' & Hb' & Hhead' & Hcells);
    [done | done | | done | lia |].
  { intros r i Hr Hi. unfold wf_cell. destruct Hok as (-> & _). simpl.
    destruct Hok0 as (_ & Hlen & _).
    apply load_replicate. nia. }
  exists st'. split_and!; [done | done |].
  intros d i Hdr Hi.
  assert (0 < depth st') by (destruct Hok' as (_ & _ & ? & _); done).
  case_decide as Hdn.
  - rewrite wf_row_at_age_recent by lia.
    rewrite Hcells by lia. rewrite decide_True by lia. by rewrite Hhead'.
  - rewrite wf_row_at_age_old by lia.
    rewrite Hcells by lia. by rewrite decide_False by lia.
Qed.

(** The scenario of the design document is an instance. *)
Lemma ring_buffer_push_age_witness :
  ∃ st',
    wf_push_rows [scenario_rx R0; scenario_rx R1; scenario_rx R2]
      (set_head 0 (set_history (Some (replicate 16 FLOOR_DB)) scenario_state))
    = Some st'
    ∧ head st' = 3
    ∧ ∀ d i, 0 ≤ d < 4 → 0 ≤ i < 4 →
        wf_cell st' (wf_row_at_age st' d) i =
          if decide (d < 3)
          then rx ← [scenario_rx R0; scenario_rx R1; scenario_rx R2]
                       !! Z.to_nat (3 - 1 - d);
               wf_source_sample rx i
          else Some FLOOR_DB.
Proof.
  apply (ring_buffer_push_age scenario_state _ (replicate 16 F32.zero)
           [scenario_rx R0; scenario_rx R1; scenario_rx R2]).
  - unfold wf_allocated. simpl. split_and!; [reflexivity | lia..].
  - reflexivity.
  - repeat constructor; unfold rx_samples_ok; simpl; lia.
  - simpl. lia.
Defined.

(** The same scenario, evaluated: after the three pushes [head = 3], the
    ages 0, 1, 2 are [R2], [R1], [R0] and the age 3 is a floor-filled row. *)
Example scenario_depth4_bins4 :
  ∃ st',
    (wf_reset_history scenario_state
       ≫= wf_push_rows [scenario_rx R0; scenario_rx R1; scenario_rx R2])
    = Some st'
    ∧ head st' = 3
    ∧ (λ d, (λ i, wf_cell st' (wf_row_at_age st' d) i) <$> [0; 1; 2; 3])
        <$> [0; 1; 2; 3]
      = [ Some ∘ F32.of_Z <$> R2; Some ∘ F32.of_Z <$> R1;
          Some ∘ F32.of_Z <$> R0; replicate 4 (Some FLOOR_DB) ].
Proof. eexists. split_and!; vm_compute; reflexivity. Qed.

Lemma wrap32_small z : INT_MIN ≤ z ≤ INT_MAX → wrap32 z = z.
Proof.
  unfold INT_MIN, INT_MAX, wrap32. intros.
  rewrite Z.mod_small; lia.
Qed.

(** An accepted tick is a push. *)
Lemma wf_store_row_accepted rx st :
  4 ≤ update_count st < INT_MAX →
  wf_store_row rx st
  = st' ← wf_push_row rx (set_update_count (update_count st + 1) st);
    Some (st', waterfall rx).
Proof.
  intros Hc. unfold wf_store_row.
  rewrite wrap32_small by (unfold INT_MIN, INT_MAX in *; lia).
  simpl. by rewrite decide_False by lia.
Qed.

(** C9.  On an accepted tick no read leaves the source array: bin [i] of
    the new row receives the floor value when [i + pan] is negative or not
    below the pixel count, and the source sample at [i + pan] otherwise. *)
Theorem pan_offset_floor_substitution rx st h :
  wf_allocated st h → 0 ≤ head st < depth st → rx_samples_ok rx →
  4 ≤ update_count st < INT_MAX →
  ∃ st',
    wf_store_row rx st = Some (st', waterfall rx)
    ∧ ∀ i, 0 ≤ i < bins st →
        (i + pan rx < 0 ∨ pixels rx ≤ i + pan rx →
           wf_cell st' (head st) i = Some FLOOR_DB)
        ∧ (0 ≤ i + pan rx < pixels rx →
           ∃ v, pixel_samples rx !! Z.to_nat (i + pan rx) = Some v
                ∧ wf_cell st' (head st) i = Some v).
Proof.
  intros Hok Hhead Hrx Hc. rewrite wf_store_row_accepted by done.
  destruct (wf_push_row_spec rx (set_update_count (update_count st + 1) st) h)
    as (st' & h' & Hrun & _ & _ & _ & _ & Hcells); [done..|].
  simpl in Hcells. exists st'. rewrite Hrun. split; [done|].
  intros i Hi. rewrite Hcells by lia. rewrite decide_True by done.
  unfold wf_source_sample. split.
  - intros Hout.
    destruct (_ || _) eqn:Hc'; [done|].
    apply orb_false_iff in Hc' as [?%Z.ltb_ge ?%Z.leb_gt]. lia.
  - intros Hin.
    destruct (_ || _) eqn:Hc'.
    { apply orb_true_iff in Hc' as [?%Z.ltb_lt | ?%Z.leb_le]; lia. }
    rewrite load_lookup by lia.
    destruct (lookup_lt_is_Some_2 (pixel_samples rx) (Z.to_nat (i + pan rx)))
      as [v Hv]; [unfold rx_samples_ok in Hrx; lia|].
    exists v. by rewrite Hv.
Qed.

Lemma pan_offset_floor_substitution_witness :
  ∃ st',
    wf_store_row (mkRx 1 (-1) 3 48000 0 0 (-100) (-50) false 0
                    (F32.of_Z <$> [1; 2; 3]) true)
      (set_update_count 4 scenario_state)
    = Some (st', true)
    ∧ ∀ i, 0 ≤ i < 4 →
        (i + -1 < 0 ∨ 3 ≤ i + -1 → wf_cell st' 0 i = Some FLOOR_DB)
        ∧ (0 ≤ i + -1 < 3 →
           ∃ v, (F32.of_Z <$> [1; 2; 3]) !! Z.to_nat (i + -1) = Some v
                ∧ wf_cell st' 0 i = Some v).
Proof.
  refine (pan_offset_floor_substitution
            (mkRx 1 (-1) 3 48000 0 0 (-100) (-50) false 0
               (F32.of_Z <$> [1; 2; 3]) true)
            (set_update_count 4 scenario_state) (replicate 16 F32.zero)
            _ _ _ _).
  - unfold wf_allocated. simpl. split_and!; [reflexivity | lia..].
  - simpl. lia.
  - unfold rx_samples_ok. simpl. lia.
  - unfold INT_MAX. simpl. lia.
Defined.

(** ** Rotation *)

Lemma load_memmove {A : Type} (a a' : list A) dst src n j :
  memmove a dst src n = Some a' →
  length a' = length a
  ∧ load a' j = if decide (dst ≤ j < dst + n) then load a (j - dst + src)
                else load a j.
Proof.
  unfold memmove. case_decide as Hb; [|done]. intros [= <-].
  destruct Hb as (Hn & Hs & Hsn & Hd & Hdn).
  split.
  - rewrite !length_app, !length_take, !length_drop. lia.
  - unfold load. destruct (decide (dst ≤ j < dst + n)) as [Hj|Hj].
    + rewrite !decide_True by lia.
      rewrite lookup_app_r by (rewrite length_take; lia).
      rewrite length_take, lookup_app_l
        by (rewrite length_take, length_drop; lia).
      rewrite lookup_take_lt by lia. rewrite lookup_drop. f_equal. lia.
    + case_decide as Hj0; [|done].
      destruct (decide (j < dst)).
      * rewrite lookup_app_l by (rewrite length_take; lia).
        by rewrite lookup_take_lt by lia.
      * rewrite lookup_app_r by (rewrite length_take; lia).
        rewrite length_take.
        rewrite lookup_app_r by (rewrite length_take, length_drop; lia).
        rewrite length_take, length_drop, lookup_drop. f_equal. lia.
Qed.

Lemma memmove_is_Some {A : Type} (a : list A) dst src n :
  0 ≤ n → 0 ≤ src → src + n ≤ Z.of_nat (length a) →
  0 ≤ dst → dst + n ≤ Z.of_nat (length a) →
  is_Some (memmove a dst src n).
Proof. intros. unfold memmove. rewrite decide_True by done. by eexists. Qed.

(** A loop with an invariant. *)
Lemma for_loop_inv {St : Type} (P : Z → St → Prop) body n lo (s : St) :
  P lo s →
  (∀ i s, lo ≤ i < lo + Z.of_nat n → P i s →
          ∃ s', body i s = Some s' ∧ P (i + 1) s') →
  ∃ s', for_loop n lo body s = Some s' ∧ P (lo + Z.of_nat n) s'.
Proof.
  revert lo s. induction n as [|n IH]; intros lo s Hs Hstep.
  - exists s. split; [done|]. by replace (lo + Z.of_nat 0) with lo by lia.
  - destruct (Hstep lo s) as (s1 & Hbody & Hs1); [lia | done |].
    destruct (IH (lo + 1) s1) as (s' & Hrun & Hs'); [done | |].
    { intros i s2 Hi. apply Hstep. lia. }
    exists s'. simpl. rewrite Hbody. simpl. split; [done|].
    by replace (lo + Z.of_nat (S n)) with (lo + 1 + Z.of_nat n) by lia.
Qed.

Lemma for_range_fill {A : Type} (v : A) base lo hi (a : list A) :
  lo ≤ hi → 0 ≤ base + lo → base + hi ≤ Z.of_nat (length a) →
  ∃ a', for_range lo hi (λ i a, store a (base + i) v) a = Some a'
        ∧ length a' = length a
        ∧ ∀ j, load a' j = if decide (base + lo ≤ j < base + hi) then Some v
                           else load a j.
Proof.
  intros Hle Hlo Hhi.
  destruct (for_range_store (λ _, Some v) (λ _, v) base lo hi a)
    as (a' & Hrun & Hlen & Hcells); [done..|].
  exists a'. split_and!; [|done..].
  unfold for_range in *. erewrite for_loop_ext; [exact Hrun | done].
Qed.

(** The rotation of one row: the cells vacated at the left (for a positive
    shift) or at the right (for a negative one) hold the floor value, every
    other cell of the row holds what was [rotate_bins] cells before it; the
    other rows are left alone. *)
Lemma wf_rotate_row_spec k B r (a : list float32) :
  0 < B → 0 ≤ r → (r + 1) * B ≤ Z.of_nat (length a) →
  ∃ a', wf_rotate_row k B r a = Some a'
        ∧ length a' = length a
        ∧ ∀ j, load a' j =
               if decide (r * B ≤ j < (r + 1) * B) then
                 if decide (0 < k ∧ j - r * B < k ∨ k < 0 ∧ B + k ≤ j - r * B)
                 then Some FLOOR_DB else load a (j - k)
               else load a j.
Proof.
  intros HB Hr Hlen. unfold wf_rotate_row.
  destruct (decide (k < 0)) as [Hk|Hk].
  - destruct (decide (B + k < 0)) as [Hm|Hm].
    + (* the shift exceeds the row: nothing moves *)
      rewrite (decide_False (P := 0 > B)) by lia.
      rewrite (decide_False (P := 0 > 0)) by lia. simpl.
      rewrite (decide_True (P := - k > B)) by lia.
      rewrite (decide_True (P := B > 0)) by lia.
      destruct (for_range_fill FLOOR_DB (r * B) (B - B) B a)
        as (a' & Hrun & Hl & Hc); [lia | lia | lia |].
      exists a'. split_and!; [done..|].
      intros j. rewrite Hc. repeat case_decide; try lia; done.
    + rewrite (decide_False (P := B + k > B)) by lia.
      destruct (decide (B + k > 0)) as [Hpos|Hpos].
      * destruct (memmove_is_Some a (r * B) (r * B - k) (B + k))
          as [a1 Hmv]; [lia..|].
        rewrite Hmv. simpl.
        rewrite (decide_False (P := - k > B)) by lia.
        rewrite (decide_True (P := - k > 0)) by lia.
        pose proof (λ j, proj2 (load_memmove _ _ _ _ _ j Hmv)) as Hc1.
        pose proof (proj1 (load_memmove _ _ _ _ _ 0 Hmv)) as Hl1.
        destruct (for_range_fill FLOOR_DB (r * B) (B - - k) B a1)
          as (a' & Hrun & Hl & Hc); [lia | lia | lia |].
        exists a'. split_and!; [done | congruence |].
        intros j. rewrite Hc, Hc1.
        repeat case_decide; try lia; try done. f_equal. lia.
      * simpl.
        assert (k = - B) as -> by lia.
        rewrite (decide_False (P := - - B > B)) by lia.
        rewrite (decide_True (P := - - B > 0)) by lia.
        destruct (for_range_fill FLOOR_DB (r * B) (B - - - B) B a)
          as (a' & Hrun & Hl & Hc); [lia | lia | lia |].
        exists a'. split_and!; [done..|].
        intros j. rewrite Hc. repeat case_decide; try lia; done.
  - destruct (decide (B - k < 0)) as [Hm|Hm].
    + rewrite (decide_False (P := 0 > B)) by lia.
      rewrite (decide_False (P := 0 > 0)) by lia. simpl.
      rewrite (decide_True (P := k > B)) by lia.
      rewrite (decide_True (P := B > 0)) by lia.
      destruct (for_range_fill FLOOR_DB (r * B) 0 B a)
        as (a' & Hrun & Hl & Hc); [lia | lia | lia |].
      exists a'. split_and!; [done..|].
      intros j. rewrite Hc. repeat case_decide; try lia; done.
    + destruct (decide (B - k > B)) as [Hbig|Hbig]; [lia|].
      destruct (decide (B - k > 0)) as [Hpos|Hpos].
      * destruct (memmove_is_Some a (r * B + k) (r * B) (B - k))
          as [a1 Hmv]; [lia..|].
        rewrite Hmv. simpl.
        rewrite (decide_False (P := k > B)) by lia.
        pose proof (λ j, proj2 (load_memmove _ _ _ _ _ j Hmv)) as Hc1.
        pose proof (proj1 (load_memmove _ _ _ _ _ 0 Hmv)) as Hl1.
        destruct (decide (k > 0)) as [Hk0|Hk0].
        -- destruct (for_range_fill FLOOR_DB (r * B) 0 k a1)
             as (a' & Hrun & Hl & Hc); [lia | lia | lia |].
           exists a'. split_and!; [done | congruence |].
           intros j. rewrite Hc, Hc1.
           repeat case_decide; try lia; try done. f_equal. lia.
        -- exists a1. split_and!; [done | done |].
           intros j. rewrite Hc1. assert (k = 0) as -> by lia.
           repeat case_decide; try lia; try done. f_equal. lia.
      * simpl. assert (k = B) as -> by lia.
        rewrite (decide_False (P := B > B)) by lia.
        rewrite (decide_True (P := B > 0)) by lia.
        destruct (for_range_fill FLOOR_DB (r * B) 0 B a)
          as (a' & Hrun & Hl & Hc); [lia | lia | lia |].
        exists a'. split_and!; [done..|].
        intros j. rewrite Hc. repeat case_decide; try lia; done.
Qed.

(** The rotation loop shifts every row of the buffer. *)
Lemma wf_rotate_history_spec k st h :
  wf_allocated st h →
  ∃ h', wf_rotate_history k st = Some (set_history (Some h') st)
        ∧ length h' = length h
        ∧ ∀ r i, 0 ≤ r < depth st → 0 ≤ i < bins st →
            load h' (r * bins st + i) =
              if decide (0 < k ∧ i < k ∨ k < 0 ∧ bins st + k ≤ i)
              then Some FLOOR_DB else load h (r * bins st + i - k).
Proof.
  intros (Hh & Hlen & Hd & Hb). unfold wf_rotate_history. rewrite Hh.
  set (B := bins st) in *.
  pose (P := λ (r : Z) (a : list float32),
    length a = length h
    ∧ ∀ r' i, 0 ≤ r' < depth st → 0 ≤ i < B →
        load a (r' * B + i) =
          if decide (r' < r) then
            if decide (0 < k ∧ i < k ∨ k < 0 ∧ B + k ≤ i)
            then Some FLOOR_DB else load h (r' * B + i - k)
          else load h (r' * B + i)).
  destruct (for_loop_inv P (wf_rotate_row k B) (Z.to_nat (depth st - 0)) 0 h)
    as (h' & Hrun & Hlen' & Hcells).
  - split; [done|]. intros r' i Hr' Hi. by rewrite decide_False by lia.
  - intros r a Hr (Hla & Ha).
    destruct (wf_rotate_row_spec k B r a) as (a' & Hrow & Hla' & Ha');
      [lia | lia | nia |].
    exists a'. split; [done|]. split; [congruence|].
    intros r' i Hr' Hi. rewrite Ha'.
    destruct (decide (r' = r)) as [->|Hne].
    + rewrite (decide_True (P := r * B ≤ r * B + i < (r + 1) * B)) by nia.
      rewrite (decide_True (P := r < r + 1)) by lia.
      replace (r * B + i - r * B) with i by lia.
      destruct (decide (0 < k ∧ i < k ∨ k < 0 ∧ B + k ≤ i)) as [Hv|Hv];
        [done|].
      (* the source cell lies in the same row, which is still untouched *)
      replace (r * B + i - k) with (r * B + (i - k)) by lia.
      rewrite Ha by lia. by rewrite decide_False by lia.
    + rewrite (decide_False (P := r * B ≤ r' * B + i < (r + 1) * B)) by nia.
      rewrite Ha by lia.
      destruct (decide (r' < r)).
      * by rewrite (decide_True (P := r' < r + 1)) by lia.
      * by rewrite (decide_False (P := r' < r + 1)) by lia.
  - exists h'. unfold for_range. rewrite Hrun. simpl.
    split_and!; [done | done |].
    intros r i Hr Hi. rewrite Hcells by lia.
    by rewrite decide_True by lia.
Qed.

(** ** The tracker keeps the buffer allocated *)

Lemma wf_sync_view_allocated nbins rx st h :
  wf_allocated st h → 0 < nbins →
  ∃ st' h',
    wf_sync_view nbins rx st = Some st' ∧ wf_allocated st' h'
    ∧ bins st' = nbins ∧ depth st' = depth st
    ∧ update_count st' = update_count st.
Proof.
  intros Hok Hn. unfold wf_sync_view.
  assert (∃ st1 h1,
    (if decide (waterfall_zoom st ≠ zoom rx)
     then wf_reset_history (set_waterfall_zoom (zoom rx) st) else Some st)
    = Some st1 ∧ wf_allocated st1 h1 ∧ depth st1 = depth st
    ∧ update_count st1 = update_count st) as (st1 & h1 & -> & Hok1 & Hd1 & Hc1).
  { case_decide.
    - rewrite (wf_reset_history_spec _ h) by done.
      eexists _, _. split; [done|]. destruct Hok as (Hh & Hl & Hd & Hb).
      split_and!; try done. unfold wf_allocated; simpl.
      by rewrite length_replicate.
    - by exists st, h. }
  simpl.
  set (st2 := if decide (waterfall_pan st1 ≠ pan rx)
              then set_waterfall_pan (pan rx) st1 else st1).
  assert (wf_allocated st2 h1 ∧ depth st2 = depth st
          ∧ update_count st2 = update_count st) as (Hok2 & Hd2 & Hc2).
  { unfold st2. by case_decide. }
  clearbody st2.
  assert (∃ st' h', wf_resize nbins st2 = Some st' ∧ wf_allocated st' h'
          ∧ bins st' = nbins ∧ depth st' = depth st
          ∧ update_count st' = update_count st) as Hresize.
  { unfold wf_resize, g_malloc0. simpl.
    destruct Hok2 as (Hh & Hl & Hd & Hb).
    rewrite decide_False by (apply Z.neq_mul_0; lia).
    rewrite (wf_reset_history_spec _
               (replicate (Z.to_nat (depth st2 * nbins)) F32.zero)).
    - eexists _, _. split; [done|]. split_and!; try done.
      unfold wf_allocated; simpl. rewrite !length_replicate.
      split_and!; try done. nia.
    - unfold wf_allocated; simpl. rewrite length_replicate.
      split_and!; try done. nia. }
  case_decide; [done|].
  destruct Hok2 as (Hh & Hl & Hd & Hb). rewrite Hh.
  exists st2, h1. by split_and!.
Qed.


Lemma waterfall3dss_update_unfold host rx st h :
  history st = Some h → 2 < wf_screen_width host →
  waterfall3dss_update host rx st
  = st1 ← wf_sync_view (wf_screen_width host) rx st;
    '(rx', st2) ← wf_handle_frequency host rx st1;
    '(st3, redraw) ← wf_store_row rx st2;
    Some (rx', st3, redraw).
Proof.
  intros Hh Hw. unfold waterfall3dss_update. rewrite Hh.
  by rewrite decide_False by lia.
Qed.

Lemma half_sample_rate sr :
  0 ≤ sr → 2 * (sr `quot` 2) ≤ sr < 2 * (sr `quot` 2) + 2.
Proof.
  intros. rewrite Z.quot_div_nonneg by lia.
  pose proof (Z.div_mod sr 2). pose proof (Z.mod_pos_bound sr 2). lia.
Qed.

(** ** The frequency tracker *)

(** C2.  When the frequency has changed by at most half the sample rate,
    the tracker shifts every row by [rotate_bins] cells: for a shift [k]
    with [|k| < bins], the [|k|] cells vacated at the left edge ([k > 0])
    or at the right edge ([k < 0]) of each row hold the floor value and
    every other cell holds the value that was [k] cells before it. *)
Theorem rotation_shifts_rows host rx st h :
  wf_allocated st h →
  waterfall_frequency rx ≠ 0 →
  sample_rate rx = waterfall_sample_rate rx →
  waterfall_frequency rx ≠ vfo_frequency host →
  2 * Z.abs (vfo_frequency host - waterfall_frequency rx) ≤ sample_rate rx →
  Z.abs (wf_rotate_bins rx st (vfo_frequency host)) < bins st →
  ∃ st',
    wf_handle_frequency host rx st
    = Some (set_waterfall_tracking (vfo_frequency host) (sample_rate rx) rx, st')
    ∧ head st' = head st ∧ bins st' = bins st ∧ depth st' = depth st
    ∧ ∀ r i, 0 ≤ r < depth st → 0 ≤ i < bins st →
        let k := wf_rotate_bins rx st (vfo_frequency host) in
        wf_cell st' r i =
          if decide (0 < k ∧ i < k ∨ k < 0 ∧ bins st + k ≤ i)
          then Some FLOOR_DB else wf_cell st r (i - k).
Proof.
  intros Hok Hinit Hsr Hchg Hhalf Hk.
  pose proof Hok as (Hh & Hl & Hd & Hb).
  unfold wf_handle_frequency.
  rewrite decide_True by lia. rewrite decide_True by done.
  rewrite decide_True by done.
  pose proof (half_sample_rate (sample_rate rx)).
  rewrite decide_False by lia.
  set (k := wf_rotate_bins rx st (vfo_frequency host)) in *.
  destruct (decide (k ≠ 0)) as [Hk0|Hk0].
  - destruct (wf_rotate_history_spec k st h Hok) as (h' & -> & Hl' & Hc).
    simpl. eexists. split; [done|]. split_and!; try done.
    intros r i Hr Hi. cbv zeta. fold k.
    unfold wf_cell; simpl. rewrite Hh; simpl.
    rewrite Hc by done.
    destruct (decide (0 < k ∧ i < k ∨ k < 0 ∧ bins st + k ≤ i)); [done|].
    f_equal. lia.
  - simpl. exists st. split; [done|]. split_and!; try done.
    intros r i Hr Hi. cbv zeta. fold k. assert (k = 0) as -> by lia.
    rewrite decide_False by lia. by replace (i - 0) with i by lia.
Qed.

(** C4.  When the tracker is initialised, the sample rate is unchanged and
    the frequency has moved by more than half the sample rate, the tracker
    resets the buffer: every cell holds the floor value and [head] is
    zero; no row is rotated.  The tick continues with the counter and the
    copy of the new row on the reset buffer. *)
Theorem large_jump_resets host rx st h :
  wf_allocated st h →
  2 < wf_screen_width host →
  waterfall_frequency rx ≠ 0 →
  sample_rate rx = waterfall_sample_rate rx →
  0 < sample_rate rx →
  sample_rate rx < 2 * Z.abs (vfo_frequency host - waterfall_frequency rx) →
  ∃ st1,
    wf_sync_view (wf_screen_width host) rx st ≫= wf_handle_frequency host rx
    = Some (set_waterfall_tracking (vfo_frequency host) (sample_rate rx) rx, st1)
    ∧ head st1 = 0
    ∧ bins st1 = wf_screen_width host ∧ depth st1 = depth st
    ∧ history st1
      = Some (replicate (Z.to_nat (depth st * wf_screen_width host)) FLOOR_DB)
    ∧ (∀ r i, 0 ≤ r < depth st1 → 0 ≤ i < bins st1 →
         wf_cell st1 r i = Some FLOOR_DB)
    ∧ waterfall3dss_update host rx st
      = '(st2, redraw) ← wf_store_row rx st1;
        Some (set_waterfall_tracking (vfo_frequency host) (sample_rate rx) rx,
              st2, redraw).
Proof.
  intros Hok Hw Hinit Hsr Hpos Hjump.
  destruct (wf_sync_view_allocated (wf_screen_width host) rx st h)
    as (st0 & h0 & Hsync & Hok0 & Hb0 & Hd0 & Hc0); [done | lia |].
  pose proof Hok0 as (Hh0 & Hl0 & Hdp & Hbp).
  assert (wf_handle_frequency host rx st0
          = Some (set_waterfall_tracking (vfo_frequency host) (sample_rate rx) rx,
                  set_head 0
                    (set_history (Some (replicate (length h0) FLOOR_DB)) st0)))
    as Hfreq.
  { unfold wf_handle_frequency.
    rewrite decide_True by lia. rewrite decide_True by done.
    rewrite decide_True by lia.
    pose proof (half_sample_rate (sample_rate rx)).
    rewrite decide_True by lia.
    by rewrite (wf_reset_history_spec st0 h0 Hok0). }
  eexists. rewrite Hsync. simpl. split; [exact Hfreq|].
  assert (length h0 = Z.to_nat (depth st * wf_screen_width host)) as Hlen
    by (rewrite <- Hd0, <- Hb0; lia).
  simpl. split_and!; try done.
  - by rewrite Hlen.
  - intros r i Hr Hi. unfold wf_cell; simpl.
    apply load_replicate. nia.
  - destruct Hok as (Hh & _).
    rewrite (waterfall3dss_update_unfold host rx st h) by done.
    rewrite Hsync. simpl. rewrite Hfreq. done.
Qed.


Lemma rotation_shifts_rows_witness :
  ∃ st',
    wf_handle_frequency demo_host_retuned demo_rx demo_state
    = Some (set_waterfall_tracking 7090400 48000 demo_rx, st')
    ∧ head st' = 0 ∧ bins st' = 10 ∧ depth st' = 2
    ∧ ∀ r i, 0 ≤ r < 2 → 0 ≤ i < 10 →
        let k := wf_rotate_bins demo_rx demo_state 7090400 in
        wf_cell st' r i =
          if decide (0 < k ∧ i < k ∨ k < 0 ∧ 10 + k ≤ i)
          then Some FLOOR_DB else wf_cell demo_state r (i - k).
Proof.
  refine (rotation_shifts_rows demo_host_retuned demo_rx demo_state
            (F32.of_Z <$> seqZ 1 20) _ _ _ _ _ _).
  - unfold wf_allocated. simpl. split_and!; [reflexivity | lia..].
  - simpl. lia.
  - reflexivity.
  - simpl. lia.
  - simpl. lia.
  - vm_compute. reflexivity.
Defined.

(** The retuning by two bins, evaluated: both rows move two cells to the
    right, the two cells at the left edge hold the floor value, and [head]
    stays. *)
Example rotation_by_two_bins :
  wf_rotate_bins demo_rx demo_state 7090400 = 2
  ∧ ('(_, st') ← wf_handle_frequency demo_host_retuned demo_rx demo_state;
     Some (head st', history st'))
    = Some (0, Some ([FLOOR_DB; FLOOR_DB] ++ (F32.of_Z <$> seqZ 1 8)
                     ++ [FLOOR_DB; FLOOR_DB] ++ (F32.of_Z <$> seqZ 11 8))).
Proof. split; vm_compute; reflexivity. Qed.

Lemma large_jump_resets_witness :
  ∃ st1,
    wf_sync_view 10 demo_rx demo_state
      ≫= wf_handle_frequency demo_host_jumped demo_rx
    = Some (set_waterfall_tracking 7200000 48000 demo_rx, st1)
    ∧ head st1 = 0
    ∧ bins st1 = 10 ∧ depth st1 = 2
    ∧ history st1 = Some (replicate (Z.to_nat (2 * 10)) FLOOR_DB)
    ∧ (∀ r i, 0 ≤ r < depth st1 → 0 ≤ i < bins st1 →
         wf_cell st1 r i = Some FLOOR_DB)
    ∧ waterfall3dss_update demo_host_jumped demo_rx demo_state
      = '(st2, redraw) ← wf_store_row demo_rx st1;
        Some (set_waterfall_tracking 7200000 48000 demo_rx, st2, redraw).
Proof.
  refine (large_jump_resets demo_host_jumped demo_rx demo_state
            (F32.of_Z <$> seqZ 1 20) _ _ _ _ _ _).
  - unfold wf_allocated. simpl. split_and!; [reflexivity | lia..].
  - vm_compute. reflexivity.
  - simpl. lia.
  - reflexivity.
  - simpl. lia.
  - simpl. lia.
Defined.



(** A reset does not restart the counter: with the counter at 7, a tick
    that resets the buffer (the zoom has changed) stores its row at once
    and queues a redraw. *)
Example reset_keeps_update_count :
  ('(_, st', redraw) ←
     waterfall3dss_update demo_host_steady
       (mkRx 2 0 10 48000 7100000 48000 (-100) (-50) false 0
          (F32.of_Z <$> seqZ 101 10) true)
       (set_update_count 7 demo_state);
   Some (head st', update_count st', history st', redraw))
  = Some (1, 8, Some ((F32.of_Z <$> seqZ 101 10) ++ replicate 10 FLOOR_DB),
          true).
Proof. vm_compute. reflexivity. Qed.

(** A retuning by 40 Hz with bins of 48 Hz: the quotient 0.83 is truncated
    to 0 by the source and rounded to 1 by the design document. *)
Lemma rotate_bins_counterexample :
  wf_rotate_bins
    (mkRx 1 0 1000 48000 7100040 48000 (-100) (-50) false 0 [] true)
    (set_bins 1000 demo_state) 7100000 = 0
  ∧ spec_rotate_bins
      (mkRx 1 0 1000 48000 7100040 48000 (-100) (-50) false 0 [] true)
      (set_bins 1000 demo_state) 7100000 = 1.
Proof. split; vm_compute; reflexivity. Qed.

(** ** Floats: comparison and absence of NaN *)

Lemma SFcompare_antisym x y :
  SFcompare y x = CompOpp <$> SFcompare x y.
Proof.
  destruct x as [sx|sx| |sx mx ex], y as [sy|sy| |sy my ey]; simpl;
    try done; try (by destruct sx); try (by destruct sy);
    try (by destruct sx, sy).
  pose proof (Pos.compare_cont_antisym mx my Eq) as Hm. simpl in Hm.
  rewrite <- Hm, (Z.compare_antisym ex ey).
  destruct sx, sy; simpl; try done;
    destruct (ex ?= ey); simpl; try done;
    by destruct (Pos.compare_cont Eq mx my).
Qed.

Lemma SFcompare_None x y :
  SFcompare x y = None → is_nan x = true ∨ is_nan y = true.
Proof.
  destruct x as [sx|sx| |sx mx ex], y as [sy|sy| |sy my ey]; simpl;
    intros; try done; auto.
Qed.

Lemma SFltb_false_leb x y :
  is_nan x = false → is_nan y = false →
  SFltb x y = false → SFleb y x = true.
Proof.
  unfold SFltb, SFleb. rewrite (SFcompare_antisym x y).
  intros Hx Hy. destruct (SFcompare x y) as [[]|] eqn:Hc; simpl; try done.
  apply SFcompare_None in Hc as [?|?]; congruence.
Qed.

Lemma SFleb_not_nan x y : SFleb x y = true → is_nan x = false ∧ is_nan y = false.
Proof.
  unfold SFleb. by destruct x as [sx|sx| |sx mx ex], y as [sy|sy| |sy my ey].
Qed.

(** A float between two finite floats is finite. *)
Lemma in_range_finite lo hi x :
  is_finite lo = true → is_finite hi = true → in_range lo hi x →
  is_finite x = true.
Proof.
  unfold in_range, F32.leb, SFleb. intros Hlo Hhi [H1 H2].
  destruct x as [sx|sx| |sx mx ex]; try done.
  destruct lo as [s|s| |s m e], hi as [s'|s'| |s' m' e']; try done;
    simpl in *; by destruct sx.
Qed.

(** [clampf] returns a value of the range unless its argument is NaN. *)
Lemma clampf_in_range x a b :
  is_nan x = false → in_range a b a → in_range a b b →
  in_range a b (clampf x a b).
Proof.
  intros Hx Ha Hb. unfold clampf, F32.ltb.
  destruct (SFltb x a) eqn:Hxa; [done|].
  destruct (SFltb b x) eqn:Hbx; [done|].
  destruct Ha as [_ [Hna Hnb]%SFleb_not_nan].
  split; by apply SFltb_false_leb.
Qed.

Section NoNaN.
Variables prec emax : Z.

Lemma shr_1_nonneg mrs : 0 ≤ shr_m mrs → 0 ≤ shr_m (shr_1 mrs).
Proof.
  destruct mrs as [[|p|p] r s]; simpl; try done; destruct p; simpl; lia.
Qed.

Lemma iter_pos_shr_1_nonneg p mrs :
  0 ≤ shr_m mrs → 0 ≤ shr_m (SpecFloat.iter_pos shr_1 p mrs).
Proof.
  revert mrs. induction p as [p IH|p IH|]; intros mrs Hm; simpl.
  - apply IH, IH. by apply shr_1_nonneg.
  - by apply IH, IH.
  - by apply shr_1_nonneg.
Qed.

Lemma shr_fexp_nonneg m e l :
  0 ≤ m → 0 ≤ shr_m (fst (shr_fexp prec emax m e l)).
Proof.
  intros Hm. unfold shr_fexp, shr.
  assert (0 ≤ shr_m (shr_record_of_loc m l)) by (by destruct l as [|[]]).
  destruct (_ - e); simpl; try done. by apply iter_pos_shr_1_nonneg.
Qed.

Lemma round_nearest_even_nonneg m l : 0 ≤ m → 0 ≤ round_nearest_even m l.
Proof.
  intros. destruct l as [|[]]; simpl; try lia. destruct (Z.even m); lia.
Qed.

Lemma binary_round_aux_not_nan sx mx ex lx :
  0 ≤ mx → is_nan (binary_round_aux prec emax sx mx ex lx) = false.
Proof.
  intros Hm. unfold binary_round_aux.
  pose proof (shr_fexp_nonneg mx ex lx Hm) as H1.
  destruct (shr_fexp prec emax mx ex lx) as [mrs' e']. simpl in H1.
  pose proof (shr_fexp_nonneg _ e' loc_Exact
                (round_nearest_even_nonneg _ (loc_of_shr_record mrs') H1)) as H2.
  destruct (shr_fexp prec emax _ e' loc_Exact) as [mrs'' e'']. simpl in H2.
  destruct (shr_m mrs''); try done.
  by destruct (e'' <=? emax - prec).
Qed.

Lemma binary_round_not_nan sx mx ex :
  is_nan (binary_round prec emax sx mx ex) = false.
Proof.
  unfold binary_round. destruct (shl_align _ _ _) as [mz ez].
  by apply binary_round_aux_not_nan.
Qed.

Lemma binary_normalize_not_nan m e s :
  is_nan (binary_normalize prec emax m e s) = false.
Proof. destruct m; simpl; try done; apply binary_round_not_nan. Qed.

(** The product with a finite non-zero float is no NaN. *)
Lemma SFmul_not_nan x sy my ey :
  is_nan x = false →
  is_nan (SFmul prec emax x (S754_finite sy my ey)) = false.
Proof.
  destruct x; simpl; try done. intros _. by apply binary_round_aux_not_nan.
Qed.

(** The sum and the difference of a finite float and any float but NaN. *)
Lemma SFadd_not_nan x y :
  is_finite x = true → is_nan y = false → is_nan (SFadd prec emax x y) = false.
Proof.
  destruct x as [sx|sx| |sx mx ex], y as [sy|sy| |sy my ey]; simpl;
    try done; intros _ _.
  - by destruct sx, sy.
  - apply binary_normalize_not_nan.
Qed.

Lemma SFsub_not_nan x y :
  is_finite x = true → is_nan y = false → is_nan (SFsub prec emax x y) = false.
Proof.
  destruct x as [sx|sx| |sx mx ex], y as [sy|sy| |sy my ey]; simpl;
    try done; intros _ _.
  - by destruct sx, sy.
  - apply binary_normalize_not_nan.
Qed.
End NoNaN.

Lemma f32_of_f64_not_nan x : is_nan x = false → is_nan (f32_of_f64 x) = false.
Proof. destruct x; simpl; try done. intros _. apply binary_round_not_nan. Qed.

Lemma is_finite_not_nan x : is_finite x = true → is_nan x = false.
Proof. by destruct x. Qed.

(** ** Camera controls *)

Lemma tilt_bounds :
  in_range F32.zero (F32.of_Z 5) F32.zero
  ∧ in_range F32.zero (F32.of_Z 5) (F32.of_Z 5).
Proof. by vm_compute. Qed.

Lemma zoom_bounds :
  in_range F32.one (F32.of_Z 4) F32.one
  ∧ in_range F32.one (F32.of_Z 4) (F32.of_Z 4).
Proof. by vm_compute. Qed.

Lemma in_range_tilt_finite x :
  in_range F32.zero (F32.of_Z 5) x → is_finite x = true.
Proof. by apply in_range_finite. Qed.

Lemma in_range_zoom_finite x :
  in_range F32.one (F32.of_Z 4) x → is_finite x = true.
Proof. by apply in_range_finite. Qed.

Lemma F32_mul_lit_not_nan x n d sy my ey :
  F32.lit n d = S754_finite sy my ey →
  is_nan x = false → is_nan (F32.mul x (F32.lit n d)) = false.
Proof. intros ->. apply SFmul_not_nan. Qed.

Lemma SFsub_not_nan_finite_r prec emax x y :
  is_nan x = false → is_finite y = true →
  is_nan (SFsub prec emax x y) = false.
Proof.
  destruct x as [sx|sx| |sx mx ex], y as [sy|sy| |sy my ey]; simpl;
    try done; intros _ _.
  - by destruct sx, sy.
  - apply binary_normalize_not_nan.
Qed.

Lemma SFadd_nan_r prec emax x : SFadd prec emax x S754_nan = S754_nan.
Proof. by destruct x. Qed.

Lemma is_nan_true x : is_nan x = true → x = S754_nan.
Proof. by destruct x. Qed.

Lemma in_range_not_nan lo hi x : in_range lo hi x → is_nan x = false.
Proof.
  intros [H _]. unfold F32.leb in H. by apply SFleb_not_nan in H as [_ H].
Qed.

Lemma waterfall3dss_motion_ok y st :
  camera_ok st → event_defined (MotionNotify y) st →
  camera_ok (fst (waterfall3dss_motion y st)).
Proof.
  intros (Ht & Hz & Hd) Hdef. simpl in Hdef. unfold waterfall3dss_motion.
  destruct (dragging st); [|done]. simpl.
  split_and!; try done. simpl.
  apply clampf_in_range; [|apply tilt_bounds..].
  apply SFadd_not_nan; [by apply in_range_tilt_finite|].
  eapply F32_mul_lit_not_nan; [by vm_compute|].
  apply f32_of_f64_not_nan. by apply Hdef.
Qed.

Lemma waterfall3dss_scroll_ok direction delta_y st :
  camera_ok st → event_defined (Scroll direction delta_y) st →
  camera_ok (fst (waterfall3dss_scroll direction delta_y st)).
Proof.
  intros (Ht & Hz & Hd) Hdef. unfold waterfall3dss_scroll. simpl.
  split_and!; try done.
  apply clampf_in_range; [|apply zoom_bounds..].
  pose proof (in_range_zoom_finite _ Hz) as Hzf.
  destruct direction.
  - by apply SFsub_not_nan.
  - by apply SFadd_not_nan.
  - by apply is_finite_not_nan.
  - by apply is_finite_not_nan.
  - apply SFadd_not_nan; [done|].
    eapply F32_mul_lit_not_nan; [by vm_compute|].
    eapply F32_mul_lit_not_nan; [by vm_compute|].
    by apply f32_of_f64_not_nan.
Qed.

Lemma wf_handle_event_ok ev st :
  camera_ok st → event_defined ev st → camera_ok (wf_handle_event ev st).
Proof.
  intros Hok Hev. destruct ev as [button y|y|button|direction delta_y]; simpl.
  - unfold waterfall3dss_button_press. case_decide; [|done].
    destruct Hok as (Ht & Hz & Hd). by split_and!.
  - by apply waterfall3dss_motion_ok.
  - unfold waterfall3dss_button_release. by case_decide.
  - by apply waterfall3dss_scroll_ok.
Qed.

Lemma wf_handle_events_ok evs st :
  camera_ok st → events_defined evs st → camera_ok (wf_handle_events evs st).
Proof.
  revert st. induction evs as [|ev evs IH]; intros st Hok Hevs; [done|].
  destruct Hevs as [Hev Hevs]. simpl. apply IH; [|done].
  by apply wf_handle_event_ok.
Qed.

(** Events that are numbers, after a press at a finite coordinate, are
    defined whatever the state of the controls is. *)
Lemma events_not_nan_defined evs st :
  is_finite (drag_start_y st) = true →
  Forall event_not_nan evs → events_defined evs st.
Proof.
  intros Hy Hevs. revert st Hy.
  induction Hevs as [|ev evs Hev _ IH]; intros st Hy; [done|].
  split.
  - destruct ev as [button y|y|button|direction delta_y]; simpl in *;
      [done | | done |].
    + intros _. by apply SFsub_not_nan_finite_r.
    + by destruct direction.
  - apply IH.
    destruct ev as [button y|y|button|direction delta_y]; simpl.
    + unfold waterfall3dss_button_press. case_decide; [|done].
      simpl. by apply Hev.
    + unfold waterfall3dss_motion. by destruct (dragging st).
    + unfold waterfall3dss_button_release. by case_decide.
    + done.
Qed.

(** An event that is not defined leaves NaN in the control it sets. *)
Lemma wf_handle_event_nan ev st :
  ¬ event_defined ev st →
  is_nan (tilt_angle (wf_handle_event ev st)) = true
  ∨ is_nan (zoom_level (wf_handle_event ev st)) = true.
Proof.
  intros Hev. destruct ev as [button y|y|button|direction delta_y];
    simpl in Hev; [done | | done |].
  - left. simpl. unfold waterfall3dss_motion.
    destruct (dragging st); [|by destruct Hev].
    destruct (is_nan (F64.sub y (drag_start_y st))) eqn:Hnan;
      [|by destruct Hev].
    apply is_nan_true in Hnan. rewrite Hnan. simpl.
    change (F32.mul S754_nan (F32.lit 2 1000)) with S754_nan.
    unfold F32.add. by rewrite SFadd_nan_r.
  - right. destruct direction; try done.
    destruct (is_nan delta_y) eqn:Hnan; [|done].
    apply is_nan_true in Hnan. subst delta_y. simpl.
    change (F32.mul (F32.mul (f32_of_f64 S754_nan) (F32.lit 15 100))
              (F32.lit 5 10)) with S754_nan.
    unfold F32.add. by rewrite SFadd_nan_r.
Qed.

(** The controls as [waterfall3dss_init] and a [waterfall3dss_gl_realize]
    that reaches them leave them: tilt 2.8, zoom 2.0, no drag. *)
Lemma camera_ok_initial rx st0 :
  waterfall3dss_init rx = Some st0 →
  camera_ok (waterfall3dss_gl_realize true st0)
  ∧ drag_start_y (waterfall3dss_gl_realize true st0) = F64.zero.
Proof.
  unfold waterfall3dss_init, wf_reset_history. simpl.
  intros Hinit.
  assert (drag_start_tilt st0 = F32.zero ∧ drag_start_y st0 = F64.zero)
    as [Hd Hy].
  { destruct (g_malloc0 _ _); simpl in Hinit.
    - destruct (for_range _ _ _ _); simpl in Hinit; [|done].
      by injection Hinit as <-.
    - by injection Hinit as <-. }
  split; [|done]. unfold camera_ok. simpl. rewrite Hd. by vm_compute.
Qed.

(** C8, as the source has it.  After the initialisation and a realize that
    reaches the controls, the tilt stays within [0, 5] and the zoom within
    [1, 4] for every sequence of pointer and scroll events, of any size and
    infinite ones included, in which no handler computes a NaN: no smooth
    scroll has NaN as delta, and no motion during a drag has a coordinate
    whose difference to the coordinate of the press is NaN.  This holds in
    particular when the presses have finite coordinates and neither a
    motion coordinate nor a smooth-scroll delta is NaN.  The clamp lets NaN
    through: after any sequence, an event that is not defined leaves NaN in
    the tilt or in the zoom, outside its range. *)
Theorem camera_state_clamped rx st0 (evs : list PointerEvent) :
  waterfall3dss_init rx = Some st0 →
  let st1 := waterfall3dss_gl_realize true st0 in
  let st := wf_handle_events evs st1 in
  (events_defined evs st1 →
   in_range F32.zero (F32.of_Z 5) (tilt_angle st)
   ∧ in_range F32.one (F32.of_Z 4) (zoom_level st))
  ∧ (Forall event_not_nan evs → events_defined evs st1)
  ∧ (∀ ev, ¬ event_defined ev st →
       let st' := wf_handle_event ev st in
       (is_nan (tilt_angle st') = true ∨ is_nan (zoom_level st') = true)
       ∧ ¬ (in_range F32.zero (F32.of_Z 5) (tilt_angle st')
            ∧ in_range F32.one (F32.of_Z 4) (zoom_level st'))).
Proof.
  intros Hinit st1 st.
  destruct (camera_ok_initial rx st0 Hinit) as [Hok Hy].
  split_and!.
  - intros Hdef.
    destruct (wf_handle_events_ok evs st1 Hok Hdef) as (Ht & Hz & _). done.
  - apply events_not_nan_defined. fold st1 in Hy. by rewrite Hy.
  - intros ev Hev st'. pose proof (wf_handle_event_nan ev st Hev) as Hnan.
    split; [done|]. intros [Ht Hz].
    apply in_range_not_nan in Ht. apply in_range_not_nan in Hz.
    fold st' in Hnan. destruct Hnan as [H|H]; congruence.
Qed.

Lemma camera_state_clamped_witness :
  let st := wf_handle_events infinite_events
              (waterfall3dss_gl_realize true fresh_state) in
  events_defined infinite_events (waterfall3dss_gl_realize true fresh_state)
  ∧ in_range F32.zero (F32.of_Z 5) (tilt_angle st)
  ∧ in_range F32.one (F32.of_Z 4) (zoom_level st).
Proof.
  destruct (camera_state_clamped fresh_rx fresh_state infinite_events)
    as (Hrange & Hdef & _).
  - vm_compute. reflexivity.
  - assert (events_defined infinite_events
              (waterfall3dss_gl_realize true fresh_state)) as H.
    { apply Hdef. repeat constructor; simpl; done. }
    split; [exact H | exact (Hrange H)].
Defined.

(** The original statement fails for events that carry NaN, and for a drag
    along an infinite coordinate: after the initialisation and the realize,
    a motion to NaN during a drag, and a motion at the infinite coordinate
    of its press, leave the tilt NaN, and a smooth scroll by NaN leaves the
    zoom NaN; none of the three is within its range. *)
Lemma camera_nan_counterexample :
  waterfall3dss_init fresh_rx = Some fresh_state
  ∧ tilt_angle (wf_handle_events nan_drag
                  (waterfall3dss_gl_realize true fresh_state)) = S754_nan
  ∧ tilt_angle (wf_handle_events infinite_drag
                  (waterfall3dss_gl_realize true fresh_state)) = S754_nan
  ∧ zoom_level (wf_handle_events nan_scroll
                  (waterfall3dss_gl_realize true fresh_state)) = S754_nan
  ∧ ¬ in_range F32.zero (F32.of_Z 5) S754_nan
  ∧ ¬ in_range F32.one (F32.of_Z 4) S754_nan.
Proof.
  split_and!; [by vm_compute.. | |]; intros [H _]; by vm_compute in H.
Qed.

(** The extreme events, evaluated: the drag stops at the upper bound of the
    tilt, the scrolls at the lower bound of the zoom. *)
Example extreme_events_clamped :
  let st := wf_handle_events extreme_events
              (waterfall3dss_gl_realize true fresh_state) in
  tilt_angle st = F32.of_Z 5 ∧ zoom_level st = F32.one.
Proof. split; vm_compute; reflexivity. Qed.

(** The infinite events, evaluated: the drag stops at the upper bound of
    the tilt, and the scrolls leave the zoom at 1.15. *)
Example infinite_events_clamped :
  let st := wf_handle_events infinite_events
              (waterfall3dss_gl_realize true fresh_state) in
  tilt_angle st = F32.of_Z 5
  ∧ zoom_level st = F32.add F32.one (F32.lit 15 100).
Proof. split; vm_compute; reflexivity. Qed.

(** A realize that fails leaves the controls zeroed: the zoom is 0, below
    its range, until the first scroll event clamps it. *)
Example failed_realize_leaves_zoom_zero :
  zoom_level (waterfall3dss_gl_realize false fresh_state) = F32.zero
  ∧ ¬ in_range F32.one (F32.of_Z 4) F32.zero
  ∧ zoom_level (wf_handle_events [Scroll GDK_SCROLL_UP F64.zero]
                  (waterfall3dss_gl_realize false fresh_state)) = F32.one.
Proof.
  split_and!; [by vm_compute | | by vm_compute].
  intros [H _]. by vm_compute in H.
Qed.

(** ** Colour and height *)






(** ** Thresholds *)

(** The averaging loop of the 2D path adds up the first [n] samples from
    the left. *)
Lemma for_loop_sum (a : list float32) n lo acc :
  0 ≤ lo → lo + Z.of_nat n ≤ Z.of_nat (length a) →
  for_loop n lo (λ i average, s ← load a i; Some (F32.add average s)) acc
  = Some (foldl F32.add acc (take n (drop (Z.to_nat lo) a))).
Proof.
  revert lo acc. induction n as [|n IH]; intros lo acc Hlo Hhi; [done|].
  simpl. rewrite load_lookup by lia.
  destruct (lookup_lt_is_Some_2 a (Z.to_nat lo)) as [v Hv]; [lia|].
  rewrite Hv. simpl. rewrite IH by lia.
  rewrite (drop_S a v (Z.to_nat lo)) by done. simpl.
  by replace (S (Z.to_nat lo)) with (Z.to_nat (lo + 1)) by lia.
Qed.




(** ** Real-number semantics of the float operations *)

(** *** Powers of two *)

Section Bpow.
Local Open Scope R_scope.

Lemma Rabs_le_inv x y : Rabs x <= y → - y <= x <= y.
Proof. unfold Rabs. destruct (Rcase_abs x); lra. Qed.

Lemma bpow_pos e : 0 < bpow e.
Proof. apply powerRZ_lt. lra. Qed.

Lemma bpow_add a b : bpow (a + b) = bpow a * bpow b.
Proof. apply powerRZ_add. lra. Qed.

Lemma bpow_0 : bpow 0 = 1.
Proof. reflexivity. Qed.

Lemma bpow_1 : bpow 1 = 2.
Proof. unfold bpow. simpl. lra. Qed.

Lemma bpow_succ e : bpow (e + 1) = 2 * bpow e.
Proof. rewrite bpow_add, bpow_1. lra. Qed.

Lemma bpow_pred e : bpow (e - 1) = bpow e / 2.
Proof.
  replace e with (e - 1 + 1)%Z at 2 by lia. rewrite bpow_succ. lra.
Qed.

Lemma bpow_nat (n : nat) : bpow (Z.of_nat n) = 2 ^ n.
Proof.
  induction n as [|n IH]; [done|].
  replace (Z.of_nat (S n)) with (Z.of_nat n + 1)%Z by lia.
  rewrite bpow_succ, IH. simpl. lra.
Qed.

Lemma bpow_IZR n : (0 ≤ n)%Z → bpow n = IZR (2 ^ n).
Proof.
  intros Hn. rewrite <- (Z2Nat.id n) by done.
  rewrite bpow_nat, pow_IZR. done.
Qed.

Lemma bpow_le a b : (a ≤ b)%Z → bpow a <= bpow b.
Proof.
  intros Hab. replace b with (a + Z.of_nat (Z.to_nat (b - a)))%Z by lia.
  rewrite bpow_add, bpow_nat.
  pose proof (bpow_pos a).
  pose proof (pow_R1_Rle 2 (Z.to_nat (b - a))). nra.
Qed.

Lemma bpow_lt a b : (a < b)%Z → bpow a < bpow b.
Proof.
  intros Hab. pose proof (bpow_le (a + 1) b ltac:(lia)) as H.
  rewrite bpow_succ in H. pose proof (bpow_pos a). lra.
Qed.

Lemma bpow_lt_inv a b : bpow a < bpow b → (a < b)%Z.
Proof.
  intros H. destruct (Z.lt_ge_cases a b) as [|Hge]; [done|].
  apply bpow_le in Hge. lra.
Qed.

Lemma bpow_le_inv a b : bpow a <= bpow b → (a ≤ b)%Z.
Proof.
  intros H. destruct (Z.le_gt_cases a b) as [|Hgt]; [done|].
  apply bpow_lt in Hgt. lra.
Qed.
End Bpow.

(** Digits *)
Lemma digits2_pos_bounds p :
  2 ^ (Z.pos (digits2_pos p) - 1) ≤ Z.pos p < 2 ^ Z.pos (digits2_pos p).
Proof.
  induction p as [p IH|p IH|]; simpl digits2_pos.
  - rewrite Pos2Z.inj_succ.
    replace (Z.succ (Z.pos (digits2_pos p)) - 1)
      with (Z.succ (Z.pos (digits2_pos p) - 1)) by lia.
    rewrite !Z.pow_succ_r by lia. lia.
  - rewrite Pos2Z.inj_succ.
    replace (Z.succ (Z.pos (digits2_pos p)) - 1)
      with (Z.succ (Z.pos (digits2_pos p) - 1)) by lia.
    rewrite !Z.pow_succ_r by lia. lia.
  - simpl. lia.
Qed.

Lemma Zdigits2_bounds m :
  0 < m → 2 ^ (Zdigits2 m - 1) ≤ m < 2 ^ Zdigits2 m.
Proof. destruct m; try lia. intros _. apply digits2_pos_bounds. Qed.

Lemma Zdigits2_pos m : 0 < m → 0 < Zdigits2 m.
Proof. destruct m; simpl; lia. Qed.

Lemma Zdigits2_unique m d :
  0 < d → 2 ^ (d - 1) ≤ m < 2 ^ d → Zdigits2 m = d.
Proof.
  intros Hd Hm.
  assert (0 < m) by (pose proof (Z.pow_pos_nonneg 2 (d - 1)); lia).
  pose proof (Zdigits2_bounds m ltac:(done)) as Hb.
  pose proof (Zdigits2_pos m ltac:(done)).
  destruct (Z.lt_trichotomy (Zdigits2 m) d) as [Hlt|[->|Hgt]]; [|done|].
  - assert (2 ^ Zdigits2 m ≤ 2 ^ (d - 1)) by (apply Z.pow_le_mono_r; lia).
    lia.
  - assert (2 ^ d ≤ 2 ^ (Zdigits2 m - 1)) by (apply Z.pow_le_mono_r; lia).
    lia.
Qed.

Section Real.
Local Open Scope R_scope.

Lemma F2R_bounds m e :
  (0 < m)%Z →
  bpow (Zdigits2 m - 1 + e) <= F2R m e
  ∧ F2R (m + 1) e <= bpow (Zdigits2 m + e).
Proof.
  intros Hm. unfold F2R. rewrite !bpow_add.
  pose proof (Zdigits2_bounds m Hm) as [H1 H2].
  pose proof (Zdigits2_pos m Hm).
  rewrite (bpow_IZR (Zdigits2 m - 1)), (bpow_IZR (Zdigits2 m)) by lia.
  apply IZR_le in H1. assert (m + 1 ≤ 2 ^ Zdigits2 m)%Z as H3 by lia.
  apply IZR_le in H3. pose proof (bpow_pos e).
  split; apply Rmult_le_compat_r; lra.
Qed.

(** One step of the right shift keeps the position of [r]. *)
Lemma shr_1_inbetween mrs e r :
  (0 ≤ shr_m mrs)%Z →
  inbetween (shr_m mrs) e (loc_of_shr_record mrs) r →
  inbetween (shr_m (shr_1 mrs)) (e + 1) (loc_of_shr_record (shr_1 mrs)) r.
Proof.
  destruct mrs as [m rb sb]. simpl shr_m. intros Hm.
  pose proof (bpow_pos e) as Hb.
  unfold inbetween, F2R. rewrite bpow_succ.
  destruct m as [|[p|p|]|p]; try lia; simpl shr_1; simpl shr_m;
    try rewrite (Pos2Z.inj_xO p); try rewrite (Pos2Z.inj_xI p);
    rewrite ?plus_IZR, ?mult_IZR;
    destruct rb, sb; simpl; intros H; try lra; try nra.
Qed.
End Real.

Section Rounding.
Local Open Scope R_scope.

Lemma loc_of_shr_record_of_loc m l :
  loc_of_shr_record (shr_record_of_loc m l) = l
  ∧ shr_m (shr_record_of_loc m l) = m.
Proof. by destruct l as [|[]]. Qed.

Lemma iter_shr_1_inbetween p mrs e r :
  (0 ≤ shr_m mrs)%Z →
  inbetween (shr_m mrs) e (loc_of_shr_record mrs) r →
  (0 ≤ shr_m (SpecFloat.iter_pos shr_1 p mrs))%Z
  ∧ inbetween (shr_m (SpecFloat.iter_pos shr_1 p mrs)) (e + Z.pos p)
      (loc_of_shr_record (SpecFloat.iter_pos shr_1 p mrs)) r.
Proof.
  revert mrs e. induction p as [p IH|p IH|]; intros mrs e Hm Hin; simpl.
  - pose proof (shr_1_nonneg mrs Hm) as H0.
    pose proof (shr_1_inbetween mrs e r Hm Hin) as H1.
    destruct (IH _ _ H0 H1) as [H2 H3].
    destruct (IH _ _ H2 H3) as [H4 H5].
    split; [done|].
    by replace (e + Z.pos p~1)%Z with (e + 1 + Z.pos p + Z.pos p)%Z by lia.
  - destruct (IH _ _ Hm Hin) as [H2 H3].
    destruct (IH _ _ H2 H3) as [H4 H5].
    split; [done|].
    by replace (e + Z.pos p~0)%Z with (e + Z.pos p + Z.pos p)%Z by lia.
  - split; [by apply shr_1_nonneg | by apply shr_1_inbetween].
Qed.

Lemma shr_inbetween mrs e n r :
  (0 ≤ shr_m mrs)%Z →
  inbetween (shr_m mrs) e (loc_of_shr_record mrs) r →
  (0 ≤ shr_m (fst (shr mrs e n)))%Z
  ∧ snd (shr mrs e n) = (e + Z.max n 0)%Z
  ∧ inbetween (shr_m (fst (shr mrs e n))) (snd (shr mrs e n))
      (loc_of_shr_record (fst (shr mrs e n))) r.
Proof.
  intros Hm Hin. unfold shr. destruct n as [|p|p]; simpl.
  - split_and!; [done | lia | done].
  - destruct (iter_shr_1_inbetween p mrs e r Hm Hin). by split_and!.
  - split_and!; [done | lia | done].
Qed.

Lemma IZR_half_lt a k : IZR a < IZR k + / 2 → (a ≤ k)%Z.
Proof.
  intros H. assert (IZR a < IZR (k + 1)) as H1 by (rewrite plus_IZR; lra).
  apply lt_IZR in H1. lia.
Qed.

Lemma IZR_half_gt a k : IZR k + / 2 < IZR a → (k < a)%Z.
Proof. intros H. apply lt_IZR. lra. Qed.

Lemma IZR_half_ne a k : IZR a ≠ IZR k + / 2.
Proof.
  intros H.
  assert (IZR a < IZR (k + 1)) as H0%lt_IZR by (rewrite plus_IZR; lra).
  assert (IZR k < IZR a) as H1%lt_IZR by lra. lia.
Qed.

Lemma round_nearest_even_spec m e l r :
  inbetween m e l r →
  (m ≤ round_nearest_even m l ≤ m + 1)%Z
  ∧ rounds_at e r (round_nearest_even m l).
Proof.
  pose proof (bpow_pos e) as Hb.
  unfold rounds_at, inbetween, F2R.
  destruct l as [|[]]; simpl round_nearest_even.
  - intros ->. split; [lia|]. split.
    + replace (IZR m * bpow e - IZR m * bpow e) with 0 by lra.
      rewrite Rabs_R0. lra.
    + intros k Hk. apply Rmult_eq_reg_r in Hk; [|lra].
      by apply IZR_half_ne in Hk.
  - intros [[H1 H2] ->].
    assert ((m ≤ (if Z.even m then m else m + 1) ≤ m + 1)%Z)
      by (destruct (Z.even m); lia).
    split; [done|]. split.
    + rewrite plus_IZR in H2.
      destruct (Z.even m); rewrite ?plus_IZR;
        [rewrite Rabs_left1 | rewrite Rabs_pos_eq]; lra.
    + intros k _. destruct (Z.even m) eqn:He; [done|].
      rewrite Z.add_1_r, Z.even_succ, <- Z.negb_even, He. done.
  - intros [[H1 H2] H3]. split; [lia|]. split.
    + rewrite Rabs_left1; lra.
    + intros k Hk. subst r. rewrite plus_IZR in H2.
      apply Rmult_lt_reg_r in H1; [|done].
      apply Rmult_lt_reg_r in H3; [|done].
      apply IZR_half_lt in H1. assert (IZR k < IZR m) as H4%lt_IZR by lra.
      lia.
  - intros [[H1 H2] H3]. split; [lia|]. split.
    + rewrite plus_IZR in *. rewrite Rabs_pos_eq; lra.
    + intros k Hk. subst r. rewrite plus_IZR in H2.
      apply Rmult_lt_reg_r in H2; [|done].
      apply Rmult_lt_reg_r in H3; [|done].
      assert (IZR m < IZR k) as H4%lt_IZR by lra.
      assert (IZR k < IZR (m + 1)) as H5%lt_IZR by (rewrite plus_IZR; lra).
      lia.
Qed.
End Rounding.

Section BinaryRoundAux.
Variables prec emax : Z.
Hypothesis Hprec : 0 < prec.
Local Open Scope R_scope.

Lemma fexp_normal mag :
  (3 - emax - prec ≤ mag - prec)%Z → fexp prec emax mag = (mag - prec)%Z.
Proof. unfold fexp, emin. lia. Qed.

Lemma shr_fexp_spec m e l r :
  (0 ≤ m)%Z → inbetween m e l r →
  ∃ mrs',
    shr_fexp prec emax m e l
    = (mrs', (e + Z.max (fexp prec emax (Zdigits2 m + e) - e) 0)%Z)
    ∧ (0 ≤ shr_m mrs')%Z
    ∧ inbetween (shr_m mrs')
        (e + Z.max (fexp prec emax (Zdigits2 m + e) - e) 0)
        (loc_of_shr_record mrs') r.
Proof.
  intros Hm Hin. unfold shr_fexp.
  destruct (loc_of_shr_record_of_loc m l) as [Hl Hs].
  destruct (shr_inbetween (shr_record_of_loc m l) e
              (fexp prec emax (Zdigits2 m + e) - e) r) as (H1 & H2 & H3).
  - by rewrite Hs.
  - by rewrite Hs, Hl.
  - destruct (shr _ e _) as [mrs' e']. simpl in *. subst e'.
    by exists mrs'.
Qed.

(** A value on the grid of the exponent is its own rounding. *)
Lemma rounds_at_on_grid E r n k :
  rounds_at E r n → r = IZR k * bpow E → n = k.
Proof.
  intros [Hn _] ->. pose proof (bpow_pos E) as Hb.
  apply Rabs_le_inv in Hn.
  assert (IZR n < IZR (k + 1)) as H1%lt_IZR by (rewrite plus_IZR; nra).
  assert (IZR (k - 1) < IZR n) as H2%lt_IZR by (rewrite minus_IZR; nra).
  lia.
Qed.

Lemma inbetween_on_grid m e l r k :
  inbetween m e l r → r = IZR k * bpow e → m = k ∧ l = loc_Exact.
Proof.
  pose proof (bpow_pos e) as Hb. unfold inbetween, F2R.
  destruct l as [|c].
  - intros -> Hk. apply Rmult_eq_reg_r in Hk; [|lra].
    by apply eq_IZR in Hk.
  - intros [[H1 H2] _] ->.
    apply Rmult_lt_reg_r in H1; [|done]. apply Rmult_lt_reg_r in H2; [|done].
    apply lt_IZR in H1, H2. lia.
Qed.

Lemma inbetween_bounds m e l r :
  inbetween m e l r → F2R m e <= r < F2R (m + 1) e.
Proof.
  pose proof (bpow_pos e) as Hb. unfold inbetween, F2R.
  rewrite plus_IZR. destruct l as [|c].
  - intros ->. lra.
  - intros [[H1 H2] _]. lra.
Qed.

Lemma binary_round_aux_spec m e l r :
  (0 < m)%Z → inbetween m e l r →
  let mag := (Zdigits2 m + e)%Z in
  (3 - emax - prec ≤ mag - prec)%Z → (e ≤ mag - prec)%Z → (mag < emax)%Z →
  ∃ n m' e',
    rounds_at (mag - prec) r n
    ∧ bpow (mag - 1) <= r < bpow mag
    ∧ binary_round_aux prec emax false m e l = S754_finite false m' e'
    ∧ F2R (Z.pos m') e' = IZR n * bpow (mag - prec)
    ∧ Zdigits2 (Z.pos m') = prec
    ∧ ((mag - prec)%Z ≤ e' ≤ mag - prec + 1)%Z.
Proof.
  intros Hm Hin mag Hmin He Hmax.
  set (E := (mag - prec)%Z).
  (* the range of [r] *)
  assert (bpow (mag - 1) <= r < bpow mag) as Hr.
  { pose proof (inbetween_bounds m e l r Hin).
    pose proof (F2R_bounds m e Hm) as [H1 H2].
    replace (Zdigits2 m - 1 + e)%Z with (mag - 1)%Z in H1 by (unfold mag; lia).
    fold mag in H2. lra. }
  (* the first shift *)
  destruct (shr_fexp_spec m e l r ltac:(lia) Hin) as (mrs' & Hs1 & Hm0 & Hin0).
  fold mag in Hs1, Hin0. rewrite (fexp_normal mag Hmin) in Hs1, Hin0.
  replace (e + Z.max (mag - prec - e) 0)%Z with E in Hs1, Hin0
    by (unfold E; lia).
  set (m0 := shr_m mrs') in *.
  pose proof (bpow_pos E) as Hb.
  assert (bpow mag = IZR (2 ^ prec) * bpow E) as Hmag.
  { replace mag with (prec + E)%Z by (unfold E; lia).
    rewrite bpow_add, (bpow_IZR prec) by lia. done. }
  assert (bpow (mag - 1) = IZR (2 ^ (prec - 1)) * bpow E) as Hmag1.
  { replace (mag - 1)%Z with (prec - 1 + E)%Z by (unfold E; lia).
    rewrite bpow_add, (bpow_IZR (prec - 1)) by lia. done. }
  assert (2 ^ prec = 2 * 2 ^ (prec - 1))%Z as Hpow.
  { replace prec with (Z.succ (prec - 1)) at 1 by lia.
    rewrite Z.pow_succ_r by lia. done. }
  assert (2 ^ (prec - 1) ≤ m0 < 2 ^ prec)%Z as Hm0r.
  { pose proof (inbetween_bounds _ _ _ _ Hin0) as [H1 H2].
    unfold F2R in H1, H2. split.
    - assert (IZR (2 ^ (prec - 1)) < IZR (m0 + 1)) as H%lt_IZR by nra. lia.
    - apply lt_IZR. nra. }
  (* the rounding *)
  destruct (round_nearest_even_spec _ _ _ _ Hin0) as [Hm1 Hrnd].
  set (m1 := round_nearest_even m0 (loc_of_shr_record mrs')) in *.
  unfold binary_round_aux. rewrite Hs1. cbv beta iota. fold m0. fold m1.
  assert (0 < 2 ^ (prec - 1))%Z by (apply Z.pow_pos_nonneg; lia).
  clearbody m1.
  destruct (decide (m1 < 2 ^ prec)%Z) as [Hlt|Hge].
  - (* no carry *)
    assert (Zdigits2 m1 = prec) as Hd by (apply Zdigits2_unique; lia).
    unfold shr_fexp. rewrite Hd.
    rewrite (fexp_normal (prec + E)) by (unfold E; lia).
    replace (prec + E - prec - E)%Z with 0%Z by lia. simpl.
    destruct m1 as [|p|p]; try lia.
    rewrite (proj2 (Z.leb_le E (emax - prec))) by (unfold E; lia).
    exists (Z.pos p), p, E. split_and!; try done; first [lra | lia].
  - (* the mantissa has become [2 ^ prec] *)
    assert (m1 = 2 ^ prec)%Z as Hm1e by lia.
    assert (Zdigits2 m1 = (prec + 1)%Z) as Hd.
    { apply Zdigits2_unique; [lia|].
      replace (prec + 1 - 1)%Z with prec by lia.
      rewrite Z.pow_add_r by lia. lia. }
    unfold shr_fexp. rewrite Hd.
    rewrite (fexp_normal (prec + 1 + E)) by (unfold E; lia).
    replace (prec + 1 + E - prec - E)%Z with 1%Z by lia.
    destruct (shr_inbetween (shr_record_of_loc m1 loc_Exact) E 1
                (F2R m1 E)) as (H1 & H2 & H3); [simpl; lia | done |].
    destruct (shr (shr_record_of_loc m1 loc_Exact) E 1) as [mrs'' e''].
    simpl in H1, H2, H3. subst e''.
    change (Z.max 1 0) with 1%Z in *.
    destruct (inbetween_on_grid _ _ _ _ (2 ^ (prec - 1)) H3) as [Hm2 _].
    { unfold F2R. rewrite Hm1e, Hpow, mult_IZR, bpow_succ. lra. }
    rewrite Hm2.
    destruct (2 ^ (prec - 1))%Z as [|p|p] eqn:Hp; try lia.
    rewrite (proj2 (Z.leb_le (E + 1) (emax - prec))) by (unfold E; lia).
    exists m1, p, (E + 1)%Z. split_and!; try done; try lra; try lia.
    + unfold F2R. rewrite Hm1e, Hpow, mult_IZR, bpow_succ, <- Hp. lra.
    + apply Zdigits2_unique; lia.
Qed.
End BinaryRoundAux.

Section Monotone.
Variable prec : Z.
Hypothesis Hprec : 0 < prec.
Local Open Scope R_scope.

Lemma bpow_mag mag :
  bpow mag = IZR (2 ^ prec) * bpow (mag - prec)
  ∧ bpow (mag - 1) = IZR (2 ^ (prec - 1)) * bpow (mag - prec).
Proof.
  split.
  - replace mag with (prec + (mag - prec))%Z at 1 by lia.
    by rewrite bpow_add, (bpow_IZR prec) by lia.
  - replace (mag - 1)%Z with (prec - 1 + (mag - prec))%Z by lia.
    by rewrite bpow_add, (bpow_IZR (prec - 1)) by lia.
Qed.

(** The rounded value stays in the closed binade of the exact one. *)
Lemma rounds_at_binade r mag n :
  bpow (mag - 1) <= r < bpow mag → rounds_at (mag - prec) r n →
  (2 ^ (prec - 1) ≤ n ≤ 2 ^ prec)%Z.
Proof.
  intros [Hr1 Hr2] [Hn%Rabs_le_inv _].
  destruct (bpow_mag mag) as [H1 H2]. rewrite H1 in Hr2. rewrite H2 in Hr1.
  pose proof (bpow_pos (mag - prec)) as Hb.
  split.
  - assert (IZR (2 ^ (prec - 1) - 1) < IZR n) as H%lt_IZR
      by (rewrite minus_IZR; nra). lia.
  - assert (IZR n < IZR (2 ^ prec + 1)) as H%lt_IZR
      by (rewrite plus_IZR; nra). lia.
Qed.

Lemma rounds_at_mono r1 r2 mag1 mag2 n1 n2 :
  bpow (mag1 - 1) <= r1 < bpow mag1 →
  bpow (mag2 - 1) <= r2 < bpow mag2 →
  rounds_at (mag1 - prec) r1 n1 → rounds_at (mag2 - prec) r2 n2 →
  r1 <= r2 →
  IZR n1 * bpow (mag1 - prec) <= IZR n2 * bpow (mag2 - prec).
Proof.
  intros Hr1 Hr2 Hn1 Hn2 Hle.
  assert (mag1 ≤ mag2)%Z as Hmag.
  { assert (bpow (mag1 - 1) < bpow mag2) as H%bpow_lt_inv by lra. lia. }
  pose proof (rounds_at_binade _ _ _ Hr1 Hn1) as Hb1.
  pose proof (rounds_at_binade _ _ _ Hr2 Hn2) as Hb2.
  destruct (decide (mag1 = mag2)) as [->|Hne].
  - pose proof (bpow_pos (mag2 - prec)) as Hb.
    apply Rmult_le_compat_r; [lra|]. apply IZR_le.
    destruct (Z.le_gt_cases n1 n2) as [|Hgt]; [done|exfalso].
    destruct Hn1 as [Ha1%Rabs_le_inv He1], Hn2 as [Ha2%Rabs_le_inv He2].
    assert (IZR (n2 + 1) <= IZR n1) as Hgt' by (apply IZR_le; lia).
    rewrite plus_IZR in Hgt'.
    assert (r2 = (IZR n2 + / 2) * bpow (mag2 - prec)) as Ht2 by nra.
    assert (r1 = (IZR n2 + / 2) * bpow (mag2 - prec)) as Ht1 by nra.
    assert (IZR n1 <= IZR (n2 + 1)) as Hn%le_IZR by (rewrite plus_IZR; nra).
    assert (n1 = n2 + 1)%Z as -> by lia.
    pose proof (He1 _ Ht1) as Hev1. pose proof (He2 _ Ht2) as Hev2.
    rewrite Z.add_1_r, Z.even_succ, <- Z.negb_even, Hev2 in Hev1. done.
  - destruct (bpow_mag mag1) as [H1 _]. destruct (bpow_mag mag2) as [_ H2].
    pose proof (bpow_pos (mag1 - prec)). pose proof (bpow_pos (mag2 - prec)).
    pose proof (bpow_le mag1 (mag2 - 1) ltac:(lia)) as Hbb.
    rewrite H1, H2 in Hbb.
    destruct Hb1 as [_ Hb1%IZR_le]. destruct Hb2 as [Hb2%IZR_le _].
    nra.
Qed.
End Monotone.

(** *** The operations *)

Lemma pos_iter_xO m d : Z.pos (Pos.iter xO m d) = Z.pos m * 2 ^ Z.pos d.
Proof.
  induction d as [|d IH] using Pos.peano_ind.
  - simpl. lia.
  - rewrite Pos.iter_succ, Pos2Z.inj_xO, IH, Pos2Z.inj_succ.
    rewrite Z.pow_succ_r by lia. lia.
Qed.

Lemma Zdigits2_shift m d :
  0 < m → 0 ≤ d → Zdigits2 (m * 2 ^ d) = Zdigits2 m + d.
Proof.
  intros Hm Hd. pose proof (Zdigits2_bounds m Hm) as [H1 H2].
  pose proof (Zdigits2_pos m Hm).
  assert (0 < 2 ^ d) by (apply Z.pow_pos_nonneg; lia).
  apply Zdigits2_unique; [lia|].
  replace (Zdigits2 m + d - 1) with (Zdigits2 m - 1 + d) by lia.
  rewrite !Z.pow_add_r by lia. nia.
Qed.

Section Operations.
Variables prec emax : Z.
Hypothesis Hprec : 0 < prec.
Local Open Scope R_scope.

Lemma F2R_shift m e d :
  (0 ≤ d)%Z → F2R (m * 2 ^ d) (e - d) = F2R m e.
Proof.
  intros Hd. unfold F2R. rewrite mult_IZR, <- (bpow_IZR d) by done.
  replace e with (d + (e - d))%Z at 2 by lia. rewrite bpow_add. lra.
Qed.

Lemma binary_round_rounded m e :
  let mag := (Zdigits2 (Z.pos m) + e)%Z in
  (3 - emax - prec ≤ mag - prec)%Z → (mag < emax)%Z →
  rounded prec (F2R (Z.pos m) e) (binary_round prec emax false m e).
Proof.
  intros mag Hmin Hmax. unfold binary_round.
  change (Z.pos (digits2_pos m)) with (Zdigits2 (Z.pos m)). fold mag.
  rewrite (fexp_normal prec emax mag Hmin).
  assert (∃ mz ez, shl_align m e (mag - prec) = (mz, ez)
          ∧ F2R (Z.pos mz) ez = F2R (Z.pos m) e
          ∧ (Zdigits2 (Z.pos mz) + ez)%Z = mag
          ∧ (ez ≤ mag - prec)%Z) as (mz & ez & -> & Hv & Hd & He).
  { unfold shl_align. destruct (mag - prec - e)%Z as [|d|d] eqn:Hs.
    - exists m, e. split_and!; try done. lia.
    - exists m, e. split_and!; try done. lia.
    - exists (Pos.iter xO m d), (mag - prec)%Z.
      rewrite pos_iter_xO. split_and!; try done.
      + replace (mag - prec)%Z with (e - Z.pos d)%Z by lia.
        by apply F2R_shift.
      + rewrite Zdigits2_shift by lia. unfold mag. lia. }
  pose proof (binary_round_aux_spec prec emax Hprec (Z.pos mz) ez loc_Exact
                (F2R (Z.pos m) e)) as Hspec.
  cbv zeta in Hspec. rewrite Hd in Hspec.
  destruct Hspec as (n & m' & e' & H1 & H2 & H3 & H4 & H5 & H6);
    [lia | by simpl | done..|].
  exists m', e', n, mag. tauto.
Qed.

Lemma of_Z_rounded z :
  (0 < z)%Z → (2 ≤ emax)%Z → (Zdigits2 z < emax)%Z →
  rounded prec (IZR z) (binary_normalize prec emax z 0 false).
Proof.
  intros Hz He Hd. destruct z as [|p|p]; try lia. simpl binary_normalize.
  replace (IZR (Z.pos p)) with (F2R (Z.pos p) 0)
    by (unfold F2R; rewrite bpow_0; lra).
  apply binary_round_rounded.
  - pose proof (Zdigits2_pos (Z.pos p)). lia.
  - lia.
Qed.

(** Multiplication. *)
Lemma Zdigits2_ge m d : (0 < m)%Z → (2 ^ (d - 1) ≤ m)%Z → (d ≤ Zdigits2 m)%Z.
Proof.
  intros Hm Hd. pose proof (Zdigits2_bounds m Hm) as [_ H2].
  destruct (Z.le_gt_cases d (Zdigits2 m)) as [|Hgt]; [done|].
  pose proof (Zdigits2_pos m Hm).
  pose proof (Z.pow_le_mono_r 2 (Zdigits2 m) (d - 1) ltac:(lia) ltac:(lia)).
  lia.
Qed.

Lemma SFmul_rounded m1 e1 m2 e2 :
  Zdigits2 (Z.pos m1) = prec →
  let mag := (Zdigits2 (Z.pos (m1 * m2)) + (e1 + e2))%Z in
  (3 - emax - prec ≤ mag - prec)%Z → (mag < emax)%Z →
  rounded prec (F2R (Z.pos m1) e1 * F2R (Z.pos m2) e2)
    (SFmul prec emax (S754_finite false m1 e1) (S754_finite false m2 e2)).
Proof.
  intros Hd mag Hmin Hmax. simpl SFmul.
  assert (prec ≤ Zdigits2 (Z.pos (m1 * m2)))%Z as Hdd.
  { apply Zdigits2_ge; [lia|].
    pose proof (Zdigits2_bounds (Z.pos m1) ltac:(lia)) as [H1 _].
    rewrite Hd in H1. nia. }
  pose proof (binary_round_aux_spec prec emax Hprec (Z.pos (m1 * m2))
                (e1 + e2) loc_Exact (F2R (Z.pos m1) e1 * F2R (Z.pos m2) e2))
    as Hspec.
  cbv zeta in Hspec. fold mag in Hspec.
  destruct Hspec as (n & m' & e' & H1 & H2 & H3 & H4 & H5 & H6);
    [lia | | done | lia | done |].
  - simpl. unfold F2R. rewrite Pos2Z.inj_mul, mult_IZR, bpow_add. lra.
  - exists m', e', n, mag. tauto.
Qed.
End Operations.

Section Division.
Variables prec emax : Z.
Hypothesis Hprec : 0 < prec.
Local Open Scope R_scope.

Lemma new_location_spec m2 r q e :
  (0 < m2)%Z → (0 ≤ r < m2)%Z →
  inbetween q e (new_location m2 r) ((IZR q + IZR r / IZR m2) * bpow e).
Proof.
  intros Hm2 Hr. pose proof (bpow_pos e) as Hb.
  assert (0 < IZR m2) as Hm2' by (by apply IZR_lt).
  set (t := IZR r / IZR m2).
  assert (t * IZR m2 = IZR r) as Ht by (unfold t; field; lra).
  assert (0 <= IZR r < IZR m2) as [Hr1 Hr2]
    by (split; [apply IZR_le | apply IZR_lt]; lia).
  assert (0 <= t < 1) as Ht01 by (split; nra).
  assert (∀ c, (2 * r ?= m2)%Z = c →
          match c with
          | Lt => t < / 2 | Eq => t = / 2 | Gt => / 2 < t
          end) as Hcmp.
  { intros c Hc. destruct c.
    - apply Z.compare_eq in Hc. apply (f_equal IZR) in Hc.
      rewrite mult_IZR in Hc. nra.
    - apply Z.compare_lt_iff, IZR_lt in Hc. rewrite mult_IZR in Hc. nra.
    - apply Z.compare_gt_iff, IZR_lt in Hc. rewrite mult_IZR in Hc. nra. }
  unfold new_location, new_location_even, new_location_odd, inbetween, F2R.
  rewrite plus_IZR.
  destruct (Z.even m2) eqn:Hev; cbv beta iota;
    (destruct (Z.eqb_spec r 0) as [Hr0|Hr0];
     [subst r; assert (t = 0) as -> by nra; lra|]);
    assert (0 < IZR r) by (apply IZR_lt; lia);
    assert (0 < t) by nra;
    (split; [split; nra|]).
  - destruct (2 * r ?= m2)%Z eqn:Hc; specialize (Hcmp _ eq_refl); simpl in *;
      nra.
  - assert (2 * r ≠ m2)%Z as Hne.
    { intros <-. by rewrite Z.even_mul in Hev. }
    destruct (2 * r + 1 ?= m2)%Z eqn:Hc.
    + apply Z.compare_eq in Hc.
      assert ((2 * r ?= m2)%Z = Lt) as Hc' by (apply Z.compare_lt_iff; lia).
      specialize (Hcmp _ Hc'). simpl in *. nra.
    + pose proof (proj1 (Z.compare_lt_iff _ _) Hc).
      assert ((2 * r ?= m2)%Z = Lt) as Hc' by (apply Z.compare_lt_iff; lia).
      specialize (Hcmp _ Hc'). simpl in *. nra.
    + pose proof (proj1 (Z.compare_gt_iff _ _) Hc).
      assert ((2 * r ?= m2)%Z = Gt) as Hc' by (apply Z.compare_gt_iff; lia).
      specialize (Hcmp _ Hc'). simpl in *. nra.
Qed.

Lemma F2R_pos_bounds p e :
  bpow (Zdigits2 (Z.pos p) + e - 1) <= F2R (Z.pos p) e
  < bpow (Zdigits2 (Z.pos p) + e).
Proof.
  pose proof (F2R_bounds (Z.pos p) e ltac:(lia)) as [H1 H2].
  replace (Zdigits2 (Z.pos p) - 1 + e)%Z
    with (Zdigits2 (Z.pos p) + e - 1)%Z in H1 by lia.
  pose proof (bpow_pos e). unfold F2R in *. rewrite plus_IZR in H2.
  split; lra.
Qed.

Lemma SFdiv_rounded p1 e1 p2 e2 :
  let D := (Zdigits2 (Z.pos p1) + e1 - (Zdigits2 (Z.pos p2) + e2))%Z in
  (3 - emax - prec ≤ D - prec)%Z → (D + 1 < emax)%Z →
  rounded prec (F2R (Z.pos p1) e1 / F2R (Z.pos p2) e2)
    (SFdiv prec emax (S754_finite false p1 e1) (S754_finite false p2 e2)).
Proof.
  intros D Hmin Hmax.
  set (d1 := Zdigits2 (Z.pos p1)) in *. set (d2 := Zdigits2 (Z.pos p2)) in *.
  set (v1 := F2R (Z.pos p1) e1). set (v2 := F2R (Z.pos p2) e2).
  pose proof (F2R_pos_bounds p1 e1) as Hv1. fold d1 v1 in Hv1.
  pose proof (F2R_pos_bounds p2 e2) as Hv2. fold d2 v2 in Hv2.
  pose proof (bpow_pos (d2 + e2 - 1)) as Hb2.
  assert (0 < v2) as Hv2pos by lra.
  (* the quotient lies between two powers of two *)
  assert (bpow (D - 1) < v1 / v2 < bpow (D + 1)) as HR.
  { assert (bpow (d1 + e1 - 1) = bpow (D - 1) * bpow (d2 + e2)) as E1
      by (rewrite <- bpow_add; f_equal; unfold D; lia).
    assert (bpow (d1 + e1) = bpow (D + 1) * bpow (d2 + e2 - 1)) as E2
      by (rewrite <- bpow_add; f_equal; unfold D; lia).
    pose proof (bpow_pos (D - 1)). pose proof (bpow_pos (D + 1)).
    split.
    - apply Rmult_lt_reg_r with v2; [done|].
      replace (v1 / v2 * v2) with v1 by (field; lra). nra.
    - apply Rmult_lt_reg_r with v2; [done|].
      replace (v1 / v2 * v2) with v1 by (field; lra). nra. }
  simpl SFdiv. unfold SFdiv_core_binary. fold d1 d2.
  replace (d1 + e1 - (d2 + e2))%Z with D by (unfold D; lia).
  rewrite (fexp_normal prec emax D Hmin).
  set (e' := Z.min (D - prec) (e1 - e2)).
  set (s := (e1 - e2 - e')%Z).
  assert (0 ≤ s)%Z as Hs by (unfold s, e'; lia).
  assert (prec - d1 + d2 ≤ s)%Z as Hs' by (unfold s, e', D; lia).
  assert (match s with
          | Z.pos _ => Z.shiftl (Z.pos p1) s
          | 0%Z => Z.pos p1
          | Z.neg _ => 0%Z
          end = (Z.pos p1 * 2 ^ s)%Z) as ->.
  { destruct s as [|ps|ps] eqn:E; try lia.
    by rewrite Z.shiftl_mul_pow2 by lia. }
  set (m' := (Z.pos p1 * 2 ^ s)%Z).
  pose proof (Z_div_mod m' (Z.pos p2) ltac:(lia)) as Hdiv.
  destruct (Z.div_eucl m' (Z.pos p2)) as [q r]. destruct Hdiv as [Hqr Hr].
  (* the quotient of the mantissas is the real quotient *)
  assert (v1 / v2 = (IZR q + IZR r / IZR (Z.pos p2)) * bpow e') as Hval.
  { assert (IZR m' = IZR (Z.pos p2) * IZR q + IZR r) as Hm'
      by (rewrite Hqr, plus_IZR, mult_IZR; done).
    unfold m' in Hm'. rewrite mult_IZR, <- (bpow_IZR s) in Hm' by done.
    assert (bpow e1 = bpow s * bpow e' * bpow e2) as He1
      by (rewrite <- !bpow_add; f_equal; unfold s; lia).
    unfold v1, v2, F2R. rewrite He1.
    pose proof (bpow_pos e2). assert (0 < IZR (Z.pos p2)) by (by apply IZR_lt).
    field_simplify_eq; [|lra]. nra. }
  pose proof (new_location_spec (Z.pos p2) r q e' ltac:(lia) Hr) as Hin.
  rewrite <- Hval in Hin.
  (* the quotient of the mantissas is positive *)
  assert (0 < q)%Z as Hq.
  { pose proof (Zdigits2_bounds (Z.pos p1) ltac:(lia)) as [H1 _].
    pose proof (Zdigits2_bounds (Z.pos p2) ltac:(lia)) as [_ H2].
    fold d1 in H1. fold d2 in H2.
    pose proof (Zdigits2_pos (Z.pos p1) ltac:(lia)) as Hd1. fold d1 in Hd1.
    pose proof (Zdigits2_pos (Z.pos p2) ltac:(lia)) as Hd2. fold d2 in Hd2.
    assert (2 ^ d2 ≤ m')%Z.
    { unfold m'.
      assert (2 ^ d2 ≤ 2 ^ (d1 - 1 + s))%Z
        by (apply Z.pow_le_mono_r; lia).
      rewrite Z.pow_add_r in * by lia.
      assert (0 < 2 ^ s)%Z by (apply Z.pow_pos_nonneg; lia). nia. }
    destruct (Z.le_gt_cases q 0); [nia|lia]. }
  (* the exponent of the quotient *)
  pose proof (inbetween_bounds _ _ _ _ Hin) as [Hlo Hhi].
  pose proof (F2R_bounds q e' Hq) as [Hq1 Hq2].
  assert (D ≤ Zdigits2 q + e' ≤ D + 1)%Z as Hmag.
  { split.
    - assert (bpow (D - 1) < bpow (Zdigits2 q + e')) as H%bpow_lt_inv by lra.
      lia.
    - assert (bpow (Zdigits2 q - 1 + e') < bpow (D + 1)) as H%bpow_lt_inv
        by lra.
      lia. }
  destruct (binary_round_aux_spec prec emax Hprec q e' (new_location (Z.pos p2) r)
              (v1 / v2)) as (n & m & e & H1 & H2 & H3 & H4 & H5 & H6);
    [done | done | lia | unfold e'; lia | lia |].
  exists m, e, n, (Zdigits2 q + e')%Z. tauto.
Qed.
End Division.

Section Rounded.
Variable prec : Z.
Hypothesis Hprec : 0 < prec.
Local Open Scope R_scope.

Lemma rounded_B2R r f :
  rounded prec r f →
  ∃ n mag, bpow (mag - 1) <= r < bpow mag ∧ rounds_at (mag - prec) r n
           ∧ B2R f = IZR n * bpow (mag - prec).
Proof.
  intros (m & e & n & mag & -> & _ & Hr & Hn & Hv & _).
  exists n, mag. simpl. tauto.
Qed.

(** Rounding is monotone. *)
Lemma rounded_mono r1 r2 f1 f2 :
  rounded prec r1 f1 → rounded prec r2 f2 → r1 <= r2 → B2R f1 <= B2R f2.
Proof.
  intros (n1 & mag1 & Hr1 & Hn1 & ->)%rounded_B2R
         (n2 & mag2 & Hr2 & Hn2 & ->)%rounded_B2R Hle.
  by apply (rounds_at_mono prec Hprec r1 r2).
Qed.

(** A number with a mantissa of at most [prec] bits rounds to itself. *)
Lemma rounded_exact r f k E :
  rounded prec r f → r = IZR k * bpow E → (0 < k < 2 ^ prec)%Z → B2R f = r.
Proof.
  intros (n & mag & [Hr1 Hr2] & Hn & ->)%rounded_B2R Hr Hk.
  pose proof (bpow_pos E) as HbE.
  assert (mag - prec ≤ E)%Z as HE.
  { assert (bpow (mag - 1) < bpow (prec + E)) as H%bpow_lt_inv; [|lia].
    rewrite bpow_add, (bpow_IZR prec) by lia.
    destruct Hk as [_ Hk%IZR_lt]. nra. }
  assert (r = IZR (k * 2 ^ (E - (mag - prec))) * bpow (mag - prec)) as Hg.
  { rewrite Hr, mult_IZR, <- (bpow_IZR (E - (mag - prec))) by lia.
    rewrite Rmult_assoc, <- bpow_add. do 2 f_equal. lia. }
  by rewrite (rounds_at_on_grid _ _ _ _ Hn Hg).
Qed.

Lemma rounded_pos r f : rounded prec r f → 0 < r ∧ 0 < B2R f.
Proof.
  intros (m & e & n & mag & -> & _ & Hr & _ & _ & _).
  pose proof (bpow_pos (mag - 1)). pose proof (bpow_pos e).
  split; [lra|]. simpl. unfold F2R.
  assert (0 < IZR (Z.pos m)) by (by apply IZR_lt). nra.
Qed.

Lemma rounded_error r f mag :
  rounded prec r f → r < bpow mag → Rabs (B2R f - r) <= bpow (mag - prec) / 2.
Proof.
  intros (n & mag' & [Hr1 Hr2] & [Hn _] & ->)%rounded_B2R Hr.
  assert (mag' ≤ mag)%Z.
  { assert (bpow (mag' - 1) < bpow mag) as H%bpow_lt_inv by lra. lia. }
  pose proof (bpow_le (mag' - prec) (mag - prec) ltac:(lia)). lra.
Qed.
(** What is known of a rounded float from bounds on the exact value. *)
Lemma rounded_repr r f a b :
  rounded prec r f → bpow a <= r → r < bpow b →
  ∃ m e, f = S754_finite false m e ∧ Zdigits2 (Z.pos m) = prec
         ∧ (a + 1 - prec ≤ e ≤ b - prec + 1)%Z
         ∧ bpow a <= B2R f <= bpow b.
Proof.
  intros (m & e & n & mag & -> & Hd & [Hr1 Hr2] & Hn & Hv & He) Ha Hb.
  assert (a < mag)%Z by (apply bpow_lt_inv; lra).
  assert (mag - 1 < b)%Z by (apply bpow_lt_inv; lra).
  exists m, e. split_and!; try done; try lia.
  - simpl. rewrite Hv.
    pose proof (rounds_at_binade prec Hprec r mag n (conj Hr1 Hr2) Hn) as [Hn1 _].
    destruct (bpow_mag prec Hprec mag) as [_ H2].
    pose proof (bpow_le a (mag - 1) ltac:(lia)).
    pose proof (bpow_pos (mag - prec)). apply IZR_le in Hn1. nra.
  - simpl. rewrite Hv.
    pose proof (rounds_at_binade prec Hprec r mag n (conj Hr1 Hr2) Hn) as [_ Hn2].
    destruct (bpow_mag prec Hprec mag) as [H1 _].
    pose proof (bpow_le mag b ltac:(lia)).
    pose proof (bpow_pos (mag - prec)). apply IZR_le in Hn2. nra.
Qed.
End Rounded.

(** *** The integer part *)

Lemma float_trunc_floor m e :
  (IZR (float_trunc (S754_finite false m e)) <= B2R (S754_finite false m e)
   < IZR (float_trunc (S754_finite false m e)) + 1)%R.
Proof.
  simpl. unfold F2R. destruct (Z.leb_spec 0 e) as [He|He].
  - rewrite mult_IZR, <- bpow_IZR by done. lra.
  - pose proof (bpow_pos e) as Hb.
    assert (0 < 2 ^ (- e)) as Hp by (apply Z.pow_pos_nonneg; lia).
    pose proof (Z_div_mod_eq_full (Z.pos m) (2 ^ (- e))) as Hdm.
    pose proof (Z.mod_pos_bound (Z.pos m) (2 ^ (- e)) Hp) as Hmod.
    assert (IZR (2 ^ (- e)) * bpow e = 1)%R as Hinv.
    { rewrite <- bpow_IZR, <- bpow_add by lia.
      replace (- e + e) with 0 by lia. apply bpow_0. }
    set (q := Z.pos m / 2 ^ (- e)) in *.
    set (t := Z.pos m mod 2 ^ (- e)) in *.
    rewrite Hdm, plus_IZR, mult_IZR.
    assert (0 <= IZR t < IZR (2 ^ (- e)))%R as [Ht1 Ht2]
      by (split; [apply IZR_le | apply IZR_lt]; lia).
    assert ((IZR (2 ^ (- e)) * IZR q + IZR t) * bpow e
            = IZR q + IZR t * bpow e)%R as ->.
    { transitivity (IZR q * (IZR (2 ^ (- e)) * bpow e) + IZR t * bpow e)%R;
        [ring | rewrite Hinv; ring]. }
    assert (0 <= IZR t * bpow e < 1)%R by (split; nra).
    lra.
Qed.

Lemma float_trunc_mono m1 e1 m2 e2 :
  (B2R (S754_finite false m1 e1) <= B2R (S754_finite false m2 e2))%R →
  float_trunc (S754_finite false m1 e1) ≤ float_trunc (S754_finite false m2 e2).
Proof.
  intros H. pose proof (float_trunc_floor m1 e1).
  pose proof (float_trunc_floor m2 e2).
  assert (IZR (float_trunc (S754_finite false m1 e1))
          < IZR (float_trunc (S754_finite false m2 e2) + 1))%R as Hlt%lt_IZR
    by (rewrite plus_IZR; lra).
  lia.
Qed.

Lemma prec24_pos : 0 < 24.
Proof. done. Qed.

Lemma Zdigits2_le z k : 0 < z < 2 ^ k → 0 ≤ k → Zdigits2 z ≤ k.
Proof.
  intros Hz Hk. pose proof (Zdigits2_bounds z ltac:(lia)) as [H1 _].
  pose proof (Zdigits2_pos z ltac:(lia)).
  destruct (Z.le_gt_cases (Zdigits2 z) k) as [|Hgt]; [done|].
  pose proof (Z.pow_le_mono_r 2 k (Zdigits2 z - 1) ltac:(lia) ltac:(lia)).
  lia.
Qed.

Lemma Zdigits2_mul m1 m2 :
  0 < m1 → 0 < m2 →
  Zdigits2 m1 + Zdigits2 m2 - 1 ≤ Zdigits2 (m1 * m2) ≤ Zdigits2 m1 + Zdigits2 m2.
Proof.
  intros H1 H2.
  pose proof (Zdigits2_bounds m1 H1) as [L1 U1].
  pose proof (Zdigits2_bounds m2 H2) as [L2 U2].
  pose proof (Zdigits2_pos m1 H1). pose proof (Zdigits2_pos m2 H2).
  assert (0 < 2 ^ (Zdigits2 m1 - 1)) by (apply Z.pow_pos_nonneg; lia).
  assert (0 < 2 ^ (Zdigits2 m2 - 1)) by (apply Z.pow_pos_nonneg; lia).
  split.
  - apply Zdigits2_ge; [nia|].
    replace (Zdigits2 m1 + Zdigits2 m2 - 1 - 1)
      with ((Zdigits2 m1 - 1) + (Zdigits2 m2 - 1)) by lia.
    rewrite Z.pow_add_r by lia. nia.
  - apply Zdigits2_le; [|lia]. rewrite Z.pow_add_r by lia. nia.
Qed.

Section Binary32.
Local Open Scope R_scope.


Lemma IZR_bounds z k :
  (1 ≤ z < 2 ^ k)%Z → (0 ≤ k)%Z → bpow 0 <= IZR z ∧ IZR z < bpow k.
Proof.
  intros [H1 H2] Hk. rewrite bpow_0, (bpow_IZR k) by done.
  split; [apply IZR_le | apply IZR_lt]; lia.
Qed.

Lemma F32_of_Z_rounded z :
  (1 ≤ z < 2 ^ 31)%Z → rounded 24 (IZR z) (F32.of_Z z).
Proof.
  intros Hz. unfold F32.of_Z, F32.prec, F32.emax.
  apply of_Z_rounded; [done | lia | done |].
  pose proof (Zdigits2_le z 31 ltac:(lia) ltac:(lia)). lia.
Qed.

(** The quotient and the product of the resampler are roundings of the
    exact quotient and product. *)
Lemma wf_resample_float_rounded W B x :
  (1 ≤ x < 2 ^ 31)%Z → (1 ≤ W - 1 < 2 ^ 31)%Z → (1 ≤ B - 1 < 2 ^ 31)%Z →
  let X := F32.of_Z x in
  let Wm := F32.of_Z (W - 1) in
  let Bm := F32.of_Z (B - 1) in
  rounded 24 (B2R X / B2R Wm) (F32.div X Wm)
  ∧ rounded 24 (B2R (F32.div X Wm) * B2R Bm) (wf_resample_float W B x).
Proof.
  intros Hx HW HB X Wm Bm.
  pose proof (F32_of_Z_rounded x Hx) as HX. fold X in HX.
  pose proof (F32_of_Z_rounded (W - 1) HW) as HWm. fold Wm in HWm.
  pose proof (F32_of_Z_rounded (B - 1) HB) as HBm. fold Bm in HBm.
  destruct (IZR_bounds x 31 Hx ltac:(lia)) as [Hx1 Hx2].
  destruct (IZR_bounds (W - 1) 31 HW ltac:(lia)) as [HW1 HW2].
  destruct (IZR_bounds (B - 1) 31 HB ltac:(lia)) as [HB1 HB2].
  destruct (rounded_repr 24 prec24_pos _ _ 0 31 HX Hx1 Hx2)
    as (mx & ex & EX & Hdx & Hex & Hvx).
  destruct (rounded_repr 24 prec24_pos _ _ 0 31 HWm HW1 HW2)
    as (mw & ew & EW & Hdw & Hew & Hvw).
  destruct (rounded_repr 24 prec24_pos _ _ 0 31 HBm HB1 HB2)
    as (mb & eb & EB & Hdb & Heb & Hvb).
  unfold wf_resample_float. fold X Wm Bm.
  rewrite EX, EW, EB in *. rewrite bpow_0 in *.
  assert (rounded 24 (B2R (S754_finite false mx ex)
                      / B2R (S754_finite false mw ew))
            (F32.div (S754_finite false mx ex) (S754_finite false mw ew)))
    as Hq.
  { apply (SFdiv_rounded 24 128 prec24_pos); rewrite Hdx, Hdw; lia. }
  split; [done|].
  (* bounds of the quotient *)
  set (vx := B2R (S754_finite false mx ex)) in *.
  set (vw := B2R (S754_finite false mw ew)) in *.
  assert (bpow (-31) <= vx / vw ∧ vx / vw < bpow 32) as [Hq1 Hq2].
  { assert (bpow 32 = 2 * bpow 31) as -> by (rewrite <- bpow_succ; done).
    assert (bpow (-31) * bpow 31 = 1) as Hinv
      by (rewrite <- bpow_add; done).
    pose proof (bpow_pos 31). pose proof (bpow_pos (-31)).
    split.
    - apply Rmult_le_reg_r with vw; [lra|].
      replace (vx / vw * vw) with vx by (field; lra). nra.
    - apply Rmult_lt_reg_r with vw; [lra|].
      replace (vx / vw * vw) with vx by (field; lra). nra. }
  destruct (rounded_repr 24 prec24_pos _ _ (-31) 32 Hq Hq1 Hq2)
    as (mq & eq & EQ & Hdq & Heq & Hvq).
  rewrite EQ.
  pose proof (Zdigits2_mul (Z.pos mq) (Z.pos mb) ltac:(lia) ltac:(lia)) as Hdm.
  rewrite Hdq, Hdb in Hdm. change (Z.pos mq * Z.pos mb)%Z
    with (Z.pos (mq * mb)) in Hdm.
  apply (SFmul_rounded 24 128 prec24_pos); [done | lia | lia].
Qed.
End Binary32.

Section Resampler.
Local Open Scope R_scope.

Lemma wf_resample_float_mono W B x1 x2 :
  (1 ≤ x1 ≤ x2)%Z → (x2 < 2 ^ 31)%Z →
  (1 ≤ W - 1 < 2 ^ 31)%Z → (1 ≤ B - 1 < 2 ^ 31)%Z →
  B2R (wf_resample_float W B x1) <= B2R (wf_resample_float W B x2).
Proof.
  intros Hx12 Hx2 HW HB.
  destruct (wf_resample_float_rounded W B x1 ltac:(lia) HW HB) as [Hq1 Hf1].
  destruct (wf_resample_float_rounded W B x2 ltac:(lia) HW HB) as [Hq2 Hf2].
  pose proof (F32_of_Z_rounded x1 ltac:(lia)) as HX1.
  pose proof (F32_of_Z_rounded x2 ltac:(lia)) as HX2.
  pose proof (F32_of_Z_rounded (W - 1) HW) as [_ HWpos]%rounded_pos.
  pose proof (F32_of_Z_rounded (B - 1) HB) as [_ HBpos]%rounded_pos.
  assert (B2R (F32.of_Z x1) <= B2R (F32.of_Z x2)) as HX
    by (apply (rounded_mono 24 prec24_pos _ _ _ _ HX1 HX2), IZR_le; lia).
  assert (B2R (F32.div (F32.of_Z x1) (F32.of_Z (W - 1)))
          <= B2R (F32.div (F32.of_Z x2) (F32.of_Z (W - 1)))) as Hq.
  { apply (rounded_mono 24 prec24_pos _ _ _ _ Hq1 Hq2).
    apply Rmult_le_compat_r; [|done].
    apply Rlt_le, Rinv_0_lt_compat. done. }
  apply (rounded_mono 24 prec24_pos _ _ _ _ Hf1 Hf2).
  apply Rmult_le_compat_r; [lra | done].
Qed.

(** At the last column the quotient is one and the product is
    [(float)(B - 1)]. *)
Lemma wf_resample_float_last W B :
  (1 ≤ W - 1 < 2 ^ 31)%Z → (1 ≤ B - 1 < 2 ^ 31)%Z →
  B2R (wf_resample_float W B (W - 1)) = B2R (F32.of_Z (B - 1)).
Proof.
  intros HW HB.
  destruct (wf_resample_float_rounded W B (W - 1) HW HW HB) as [Hq Hf].
  pose proof (F32_of_Z_rounded (W - 1) HW) as [_ HWpos]%rounded_pos.
  pose proof (F32_of_Z_rounded (B - 1) HB) as HBm.
  assert (B2R (F32.div (F32.of_Z (W - 1)) (F32.of_Z (W - 1))) = 1) as Hone.
  { rewrite (rounded_exact 24 prec24_pos _ _ 1 0 Hq); [field; lra | | done].
    rewrite bpow_0. field. lra. }
  rewrite Hone, Rmult_1_l in Hf.
  destruct HBm as (m & e & n & mag & E & Hd & _).
  rewrite E in *.
  apply (rounded_exact 24 prec24_pos _ _ (Z.pos m) e Hf); [done|].
  pose proof (Zdigits2_bounds (Z.pos m) ltac:(lia)) as [_ H].
  rewrite Hd in H. lia.
Qed.

Lemma float_trunc_nonneg m e : 0 ≤ float_trunc (S754_finite false m e).
Proof.
  pose proof (float_trunc_floor m e) as [_ H].
  assert (0 < B2R (S754_finite false m e)).
  { simpl. unfold F2R. pose proof (bpow_pos e).
    assert (0 < IZR (Z.pos m)) by (by apply IZR_lt). nra. }
  assert (IZR (-1) < IZR (float_trunc (S754_finite false m e))) as Hlt%lt_IZR
    by lra.
  lia.
Qed.

Lemma wf_resample_float_shape W B x :
  (1 ≤ x < 2 ^ 31)%Z → (1 ≤ W - 1 < 2 ^ 31)%Z → (1 ≤ B - 1 < 2 ^ 31)%Z →
  ∃ m e, wf_resample_float W B x = S754_finite false m e.
Proof.
  intros Hx HW HB.
  destruct (wf_resample_float_rounded W B x Hx HW HB)
    as [_ (m & e & _ & _ & -> & _)].
  by exists m, e.
Qed.

(** [(float)(B - 1)] is within one of [B - 1] for a buffer that can be
    allocated. *)
Lemma F32_of_Z_near b :
  (1 ≤ b < 2 ^ 25)%Z → IZR b - 1 <= B2R (F32.of_Z b) <= IZR b + 1.
Proof.
  intros Hb. pose proof (F32_of_Z_rounded b ltac:(lia)) as H.
  destruct (IZR_bounds b 25 Hb ltac:(lia)) as [_ Hb2].
  pose proof (rounded_error 24 _ _ 25 H Hb2) as He%Rabs_le_inv.
  change (bpow (25 - 24)) with (bpow 1) in He. rewrite bpow_1 in He. lra.
Qed.

Lemma wf_resample_bin_spec W B x :
  (2 ≤ W ≤ 2 ^ 31)%Z → (2 ≤ B ≤ 2 ^ 25)%Z → (1 ≤ x < W)%Z →
  ∃ m e,
    wf_resample_float W B x = S754_finite false m e
    ∧ wf_resample_bin W B x
      = Z.min (float_trunc (S754_finite false m e)) (B - 2)
    ∧ (B2R (S754_finite false m e) <= IZR B).
Proof.
  intros HW HB Hx.
  destruct (wf_resample_float_shape W B x) as (m & e & E); [lia..|].
  exists m, e. split; [done|].
  assert (B2R (S754_finite false m e) <= IZR B) as Hle.
  { rewrite <- E.
    pose proof (wf_resample_float_mono W B x (W - 1)
                  ltac:(lia) ltac:(lia) ltac:(lia) ltac:(lia)) as Hm.
    rewrite wf_resample_float_last in Hm by lia.
    pose proof (F32_of_Z_near (B - 1) ltac:(lia)) as [_ Hn].
    rewrite minus_IZR in Hn. lra. }
  split; [|done].
  unfold wf_resample_bin. rewrite E.
  pose proof (float_trunc_nonneg m e) as H0.
  pose proof (float_trunc_floor m e) as [Hfl _].
  assert (float_trunc (S754_finite false m e) ≤ B)%Z as HtB
    by (apply le_IZR; lra).
  unfold float_to_int.
  replace ((INT_MIN <=? float_trunc (S754_finite false m e))
           && (float_trunc (S754_finite false m e) <=? INT_MAX)) with true.
  - cbv zeta. case_decide; lia.
  - symmetry. apply andb_true_iff. unfold INT_MIN, INT_MAX.
    split; apply Z.leb_le; lia.
Qed.
End Resampler.

(** The resampler: range, monotonicity and end points. *)
Lemma wf_resample_bin_monotone W B :
  2 ≤ W ≤ 2 ^ 31 → 2 ≤ B ≤ 2 ^ 25 →
  (∀ x, 0 ≤ x < W → 0 ≤ wf_resample_bin W B x ≤ B - 2)
  ∧ (∀ x1 x2, 0 ≤ x1 < x2 → x2 < W →
       wf_resample_bin W B x1 ≤ wf_resample_bin W B x2)
  ∧ wf_resample_bin W B 0 = 0
  ∧ wf_resample_bin W B (W - 1) = B - 2.
Proof.
  intros HW HB.
  assert (wf_resample_bin W B 0 = 0) as H0.
  { unfold wf_resample_bin, wf_resample_float.
    destruct (F32_of_Z_rounded (W - 1) ltac:(lia))
      as (mw & ew & _ & _ & -> & _).
    destruct (F32_of_Z_rounded (B - 1) ltac:(lia))
      as (mb & eb & _ & _ & -> & _).
    simpl. case_decide; lia. }
  assert (∀ x, 0 ≤ x < W → 0 ≤ wf_resample_bin W B x ≤ B - 2) as Hrange.
  { intros x Hx. destruct (decide (x = 0)) as [->|Hne]; [lia|].
    destruct (wf_resample_bin_spec W B x) as (m & e & _ & -> & _);
      [lia..|].
    pose proof (float_trunc_nonneg m e). lia. }
  split_and!; [done | | done |].
  - intros x1 x2 Hx1 Hx2.
    destruct (decide (x1 = 0)) as [->|Hne].
    { rewrite H0. apply Hrange. lia. }
    destruct (wf_resample_bin_spec W B x1) as (m1 & e1 & E1 & -> & _);
      [lia..|].
    destruct (wf_resample_bin_spec W B x2) as (m2 & e2 & E2 & -> & _);
      [lia..|].
    pose proof (wf_resample_float_mono W B x1 x2
                  ltac:(lia) ltac:(lia) ltac:(lia) ltac:(lia)) as Hm.
    rewrite E1, E2 in Hm. apply float_trunc_mono in Hm. lia.
  - destruct (wf_resample_bin_spec W B (W - 1)) as (m & e & E & -> & _);
      [lia..|].
    pose proof (float_trunc_floor m e) as [_ Hfl].
    rewrite <- E in Hfl at 1.
    rewrite wf_resample_float_last in Hfl by lia.
    pose proof (F32_of_Z_near (B - 1) ltac:(lia)) as [Hn _].
    rewrite minus_IZR in Hn.
    assert (IZR (B - 3) < IZR (float_trunc (S754_finite false m e)))%R
      as Hlt%lt_IZR by (rewrite minus_IZR; lra).
    lia.
Qed.




Lemma wf_resample_pair_same_bin st W d x :
  depth st ≠ 0 →
  wf_resample_pair st W d x
  = (v0 ← wf_cell st (wf_row_at_age st d) (wf_resample_bin W (bins st) x);
     v1 ← wf_cell st (wf_row_at_age st (d + 1))
            (wf_resample_bin W (bins st) x);
     Some (v0, v1)).
Proof.
  intros HD. unfold wf_resample_pair, wf_row_at_age.
  rewrite decide_False by done. cbv zeta.
  by replace (head st - (d + 1) - 1 + depth st)
    with (head st - d - 2 + depth st) by lia.
Qed.



(** The single-precision quotient matters: for 23 pixels over 23 bins the
    exact product at pixel 13 is 13, while [13 / 22] rounds down and the
    product stays below 13; pixels 12 and 13 read the same bin. *)
Example resample_single_precision :
  wf_resample_bin 23 23 13 = 12 ∧ wf_resample_bin 23 23 12 = 12
  ∧ wf_resample_bin 23 23 14 = 14.
Proof. split_and!; vm_compute; reflexivity. Qed.

(** ** The rotation amount *)

(** *** Signs *)

Lemma binary_round_aux_opp prec emax s m e l :
  binary_round_aux prec emax (negb s) m e l
  = SFopp (binary_round_aux prec emax s m e l).
Proof.
  unfold binary_round_aux.
  destruct (shr_fexp prec emax m e l) as [mrs' e'].
  destruct (shr_fexp prec emax _ e' loc_Exact) as [mrs'' e''].
  destruct (shr_m mrs''); [done | | done].
  by destruct (e'' <=? emax - prec).
Qed.

Lemma binary_normalize_opp prec emax z :
  z ≠ 0 →
  binary_normalize prec emax (- z) 0 false
  = SFopp (binary_normalize prec emax z 0 false).
Proof.
  intros Hz. destruct z as [|p|p]; [done | |]; simpl; unfold binary_round;
    destruct (shl_align _ _ _) as [mz ez].
  - apply (binary_round_aux_opp prec emax false).
  - apply (binary_round_aux_opp prec emax true).
Qed.

Lemma SFdiv_opp_l prec emax x m e :
  SFdiv prec emax (SFopp x) (S754_finite false m e)
  = SFopp (SFdiv prec emax x (S754_finite false m e)).
Proof.
  destruct x as [s| s | |s mx ex]; simpl; try done.
  - by destruct s.
  - by destruct s.
  - destruct (SFdiv_core_binary _ _ _ _ _ _) as [[mz ez] lz].
    destruct s; simpl.
    + apply (binary_round_aux_opp prec emax true).
    + apply (binary_round_aux_opp prec emax false).
Qed.

Lemma float_trunc_opp x : float_trunc (SFopp x) = - float_trunc x.
Proof. destruct x as [| | |[] m e]; simpl; lia. Qed.

Section RelativeError.
Variable prec : Z.
Hypothesis Hprec : 0 < prec.
Local Open Scope R_scope.

(** The relative error of a rounding. *)
Lemma rounded_rel_error r f :
  rounded prec r f → Rabs (B2R f - r) <= r * bpow (- prec).
Proof.
  intros (n & mag & [Hr1 Hr2] & [Hn _] & ->)%rounded_B2R.
  replace (bpow (mag - prec) / 2) with (bpow (mag - 1) * bpow (- prec)) in Hn.
  - pose proof (bpow_pos (- prec)). nra.
  - rewrite <- bpow_add.
    replace (mag - 1 + - prec)%Z with (mag - prec - 1)%Z by lia.
    apply bpow_pred.
Qed.
End RelativeError.

(** *** Double precision *)

Lemma prec53_pos : 0 < 53.
Proof. done. Qed.

Section Binary64.
Local Open Scope R_scope.

Lemma F64_of_Z_rounded z :
  (1 ≤ z < 2 ^ 53)%Z →
  rounded 53 (IZR z) (F64.of_Z z) ∧ B2R (F64.of_Z z) = IZR z.
Proof.
  intros Hz.
  assert (rounded 53 (IZR z) (F64.of_Z z)) as H.
  { unfold F64.of_Z, F64.prec, F64.emax.
    apply of_Z_rounded; [done | lia | done |].
    pose proof (Zdigits2_le z 53 ltac:(lia) ltac:(lia)). lia. }
  split; [done|].
  apply (rounded_exact 53 prec53_pos _ _ z 0 H); [|lia].
  rewrite bpow_0. lra.
Qed.

(** A dyadic number with a short numerator is a double. *)
Lemma F64_dyadic m e :
  (1 ≤ Z.pos m < 2 ^ 53)%Z → (- 64 ≤ e ≤ 64)%Z →
  ∃ f, rounded 53 (F2R (Z.pos m) e) f ∧ B2R f = F2R (Z.pos m) e.
Proof.
  intros Hm He. exists (binary_round 53 1024 false m e).
  assert (rounded 53 (F2R (Z.pos m) e) (binary_round 53 1024 false m e)) as H.
  { pose proof (Zdigits2_le (Z.pos m) 53 ltac:(lia) ltac:(lia)).
    pose proof (Zdigits2_pos (Z.pos m) ltac:(lia)).
    apply binary_round_rounded; [done | lia | lia]. }
  split; [done|].
  apply (rounded_exact 53 prec53_pos _ _ (Z.pos m) e H); [done | lia].
Qed.
End Binary64.

Section Rotation.
Local Open Scope R_scope.

Lemma F64_div_rounded r1 r2 f1 f2 a b :
  rounded 53 r1 f1 → rounded 53 r2 f2 →
  bpow a <= r1 < bpow b → bpow a <= r2 < bpow b → (- 400 ≤ a)%Z → (b ≤ 400)%Z →
  rounded 53 (B2R f1 / B2R f2) (F64.div f1 f2).
Proof.
  intros H1 H2 [L1 U1] [L2 U2] Ha Hb.
  destruct (rounded_repr 53 prec53_pos _ _ _ _ H1 L1 U1)
    as (m1 & e1 & -> & Hd1 & He1 & _).
  destruct (rounded_repr 53 prec53_pos _ _ _ _ H2 L2 U2)
    as (m2 & e2 & -> & Hd2 & He2 & _).
  apply (SFdiv_rounded 53 1024 prec53_pos); rewrite Hd1, Hd2; lia.
Qed.

(** The quotient of the tracker for a positive difference [d] of at most
    half the sample rate: both divisions are roundings of the exact
    quotients, and the result is at most three quarters of the bin count. *)
Lemma rotate_quotient_pos sr nb d :
  (1 ≤ sr < 2 ^ 31)%Z → (1 ≤ nb < 2 ^ 31)%Z → (1 ≤ d)%Z → (2 * d ≤ sr)%Z →
  let hz := F64.div (F64.of_Z sr) (F64.of_Z nb) in
  let q := F64.div (F64.of_Z d) hz in
  rounded 53 (IZR sr / IZR nb) hz
  ∧ rounded 53 (IZR d / B2R hz) q
  ∧ 4 * B2R q <= 3 * IZR nb
  ∧ ((d * nb < sr)%Z → B2R q < 1).
Proof.
  intros Hsr Hnb Hd Hhalf hz q.
  destruct (F64_of_Z_rounded sr ltac:(lia)) as [Rsr Vsr].
  destruct (F64_of_Z_rounded nb ltac:(lia)) as [Rnb Vnb].
  destruct (F64_of_Z_rounded d ltac:(lia)) as [Rd Vd].
  destruct (IZR_bounds sr 31 ltac:(lia) ltac:(lia)) as [Ls Us].
  destruct (IZR_bounds nb 31 ltac:(lia) ltac:(lia)) as [Ln Un].
  destruct (IZR_bounds d 31 ltac:(lia) ltac:(lia)) as [Ld Ud].
  pose proof (bpow_le (-31) 0 ltac:(lia)) as H31.
  assert (bpow (-31) * bpow 31 = 1) as Hinv by (rewrite <- bpow_add; done).
  pose proof (bpow_pos 31) as Hp31. pose proof (bpow_pos (-31)) as Hm31.
  rewrite bpow_0 in *.
  assert (rounded 53 (IZR sr / IZR nb) hz) as Rhz.
  { rewrite <- Vsr, <- Vnb.
    apply (F64_div_rounded (IZR sr) (IZR nb) _ _ (-31) 31);
      [done | done | split; lra | split; lra | lia | lia]. }
  split; [done|].
  assert (bpow (-31) <= IZR sr / IZR nb ∧ IZR sr / IZR nb < bpow 32)
    as [Lh Uh].
  { assert (bpow 32 = 2 * bpow 31) as -> by (rewrite <- bpow_succ; done).
    split.
    - apply Rmult_le_reg_r with (IZR nb); [lra|].
      replace (IZR sr / IZR nb * IZR nb) with (IZR sr) by (field; lra). nra.
    - apply Rmult_lt_reg_r with (IZR nb); [lra|].
      replace (IZR sr / IZR nb * IZR nb) with (IZR sr) by (field; lra). nra. }
  assert (rounded 53 (IZR d / B2R hz) q) as Rq.
  { rewrite <- Vd.
    apply (F64_div_rounded (IZR d) (IZR sr / IZR nb) _ _ (-32) 32);
      [done | done | split | split | lia | lia].
    - pose proof (bpow_le (-32) (-31) ltac:(lia)).
      lra.
    - pose proof (bpow_lt 31 32 ltac:(lia)). lra.
    - pose proof (bpow_le (-32) (-31) ltac:(lia)). lra.
    - lra. }
  split; [done|].
  (* the bound *)
  pose proof (rounded_rel_error 53 _ _ Rhz) as He%Rabs_le_inv.
  change (- (53))%Z with (-53)%Z in He.
  assert (bpow (- 53) <= / 4) as Heps.
  { pose proof (bpow_le (-53) (-2) ltac:(lia)) as H.
    assert (bpow (-2) * bpow 2 = 1) as H2 by (rewrite <- bpow_add; done).
    assert (bpow 2 = 4) as H4 by (rewrite (bpow_IZR 2) by lia; done).
    rewrite H4 in H2. lra. }
  destruct (rounded_pos 53 _ _ Rhz) as [Hrpos Hhzpos].
  assert (IZR d / B2R hz <= 3 / 4 * IZR nb) as Hr.
  { apply Rmult_le_reg_r with (B2R hz); [done|].
    replace (IZR d / B2R hz * B2R hz) with (IZR d) by (field; lra).
    assert (IZR sr = IZR sr / IZR nb * IZR nb) as Hs by (field; lra).
    assert (2 * IZR d <= IZR sr) as Hh.
    { rewrite <- mult_IZR. apply IZR_le. lia. }
    set (rh := IZR sr / IZR nb) in *. clearbody rh.
    assert (3 / 4 * rh <= B2R hz) as H34 by nra.
    assert (IZR nb * (3 / 4 * rh) <= IZR nb * B2R hz)
      by (apply Rmult_le_compat_l; lra).
    nra. }
  (* three quarters of the bin count is a double *)
  assert (∃ p, Z.pos p = (3 * nb)%Z) as [p Hp]
    by (exists (Z.to_pos (3 * nb)); lia).
  destruct (F64_dyadic p (-2)) as (f & Rf & Vf); [lia | lia |].
  assert (F2R (Z.pos p) (-2) = 3 / 4 * IZR nb) as Hv.
  { unfold F2R. rewrite Hp, mult_IZR.
    assert (bpow (-2) * bpow 2 = 1) as H2 by (rewrite <- bpow_add; done).
    assert (bpow 2 = 4) as H4 by (rewrite (bpow_IZR 2) by lia; done).
    rewrite H4 in H2. assert (bpow (-2) = / 4) as -> by lra. lra. }
  rewrite Hv in *.
  pose proof (rounded_mono 53 prec53_pos _ _ _ _ Rq Rf Hr).
  split; [lra|].
  (* less than one bin *)
  intros Hsub.
  assert (bpow (-32) * bpow 32 = 1) as H32 by (rewrite <- bpow_add; done).
  assert (bpow 32 = 2 * bpow 31) as H32' by (rewrite <- bpow_succ; done).
  assert (bpow (-31) = 2 * bpow (-32)) as Ha by (rewrite <- bpow_succ; done).
  pose proof (bpow_le (-53) (-32) ltac:(lia)) as Hle.
  pose proof (bpow_pos (-32)) as Hb.
  assert (bpow (-32) < 1) as Hb1 by nra.
  assert (IZR d / B2R hz <= 1 - bpow (-32)) as Hr1.
  { apply Rmult_le_reg_r with (B2R hz); [done|].
    replace (IZR d / B2R hz * B2R hz) with (IZR d) by (field; lra).
    assert (IZR sr = IZR sr / IZR nb * IZR nb) as Hs by (field; lra).
    assert (IZR d * IZR nb <= IZR sr - 1) as Hh.
    { rewrite <- mult_IZR, <- minus_IZR. apply IZR_le. lia. }
    set (rh := IZR sr / IZR nb) in *. clearbody rh.
    assert (IZR sr * bpow (-31) <= 1) as Hsa by nra.
    assert (IZR d * IZR nb <= rh * (1 - bpow (-31)) * IZR nb) as Hd' by nra.
    assert (IZR d <= rh * (1 - bpow (-31))) as Hd''.
    { apply Rmult_le_reg_r with (IZR nb); [lra | done]. }
    assert ((1 - bpow (-53)) * rh <= B2R hz) as Hhz by lra.
    assert ((1 - bpow (-32)) * ((1 - bpow (-53)) * rh)
            <= (1 - bpow (-32)) * B2R hz)
      by (apply Rmult_le_compat_l; lra).
    nra. }
  assert (∃ p, Z.pos p = (2 ^ 32 - 1)%Z) as [p1 Hp1]
    by (exists (Z.to_pos (2 ^ 32 - 1)); lia).
  destruct (F64_dyadic p1 (-32)) as (f1 & Rf1 & Vf1); [lia | lia |].
  assert (F2R (Z.pos p1) (-32) = 1 - bpow (-32)) as Hv1.
  { unfold F2R. rewrite Hp1, minus_IZR, <- (bpow_IZR 32) by lia. lra. }
  rewrite Hv1 in *.
  pose proof (rounded_mono 53 prec53_pos _ _ _ _ Rq Rf1 Hr1). lra.
Qed.
End Rotation.

Lemma float_to_int_trunc s m e :
  INT_MIN ≤ float_trunc (S754_finite s m e) ≤ INT_MAX →
  float_to_int (S754_finite s m e) = float_trunc (S754_finite s m e).
Proof.
  intros [H1 H2]. unfold float_to_int.
  by rewrite (proj2 (Z.leb_le _ _) H1), (proj2 (Z.leb_le _ _) H2).
Qed.

(** The rotation amount: the double quotient with its fraction dropped. *)
Lemma wf_rotate_bins_spec rx st cur :
  0 < bins st ≤ INT_MAX → 0 < sample_rate rx ≤ INT_MAX →
  waterfall_frequency rx ≠ cur →
  2 * Z.abs (cur - waterfall_frequency rx) ≤ sample_rate rx →
  let delta := waterfall_frequency rx - cur in
  let hz := wf_hz_per_bin rx st in
  let q := wf_rotate_quotient rx st cur in
  let k := wf_rotate_bins rx st cur in
  rounded 53 (IZR (sample_rate rx) / IZR (bins st)) hz
  ∧ rounded 53 (IZR (Z.abs delta) / B2R hz) (SFabs q)
  ∧ k = Z.sgn delta * float_trunc (SFabs q)
  ∧ (IZR (Z.abs k) <= B2R (SFabs q) < IZR (Z.abs k) + 1)%R
  ∧ Z.abs k < bins st
  ∧ (Z.abs delta * bins st < sample_rate rx → k = 0).
Proof.
  intros Hb Hsr Hne Hhalf delta hz q k. unfold INT_MAX in Hb, Hsr.
  destruct (rotate_quotient_pos (sample_rate rx) (bins st) (Z.abs delta))
    as (Rhz & Rq & Hq & Hsub); [lia..|].
  fold (wf_hz_per_bin rx st) in Rhz, Rq, Hq, Hsub.
  fold hz in Rhz, Rq, Hq, Hsub.
  set (qa := F64.div (F64.of_Z (Z.abs delta)) hz) in *.
  pose proof Rhz as (mh & eh & _ & _ & Eh & _).
  pose proof Rq as (m & e & _ & _ & Eq & _).
  pose proof (float_trunc_floor m e) as Hfl. rewrite <- Eq in Hfl.
  pose proof (float_trunc_nonneg m e) as H0. rewrite <- Eq in H0.
  assert (float_trunc qa < bins st) as Hlt.
  { apply lt_IZR.
    assert (0 < IZR (bins st))%R by (apply IZR_lt; lia). lra. }
  assert (q = if decide (delta < 0) then SFopp qa else qa) as Hqs.
  { subst q qa. unfold wf_rotate_quotient. fold hz. fold delta.
    destruct (decide (delta < 0)) as [Hneg|Hpos].
    - replace delta with (- Z.abs delta) at 1 by lia.
      unfold F64.of_Z. rewrite binary_normalize_opp by lia.
      rewrite Eh. apply SFdiv_opp_l.
    - by replace (Z.abs delta) with delta by lia. }
  assert (SFabs q = qa) as Ha.
  { rewrite Hqs, Eq. by destruct (decide (delta < 0)). }
  assert (k = Z.sgn delta * float_trunc qa) as Hk.
  { subst k. unfold wf_rotate_bins. fold q. rewrite Hqs.
    destruct (decide (delta < 0)) as [Hneg|Hpos].
    - pose proof (float_trunc_opp qa) as Ho. rewrite Eq in *. simpl SFopp in *.
      rewrite float_to_int_trunc; unfold INT_MIN, INT_MAX; lia.
    - rewrite Eq in *.
      rewrite float_to_int_trunc; unfold INT_MIN, INT_MAX; lia. }
  rewrite Ha. split_and!; [done | done | done | | | |].
  - rewrite Hk. replace (Z.abs (Z.sgn delta * float_trunc qa))
      with (float_trunc qa) by lia. apply Hfl.
  - rewrite Hk. replace (Z.abs (Z.sgn delta * float_trunc qa))
      with (float_trunc qa) by lia. apply Hfl.
  - lia.
  - intros Hlt1. specialize (Hsub Hlt1).
    assert (float_trunc qa < 1) by (apply lt_IZR; lra).
    assert (float_trunc qa = 0) as H00 by lia. rewrite Hk, H00. lia.
Qed.

(** C3, as the source computes it.  On a frequency change of at most half
    the sample rate, the tracker initialised and the sample rate unchanged,
    the rows are shifted by [rotate_bins], and [rotate_bins] is the quotient
    [(old_frequency - new_frequency) / hz_per_bin] with its fraction
    dropped, not the nearest integer: [hz_per_bin] is the double nearest to
    [sample_rate / bins], the quotient is the double nearest to the
    difference over [hz_per_bin], and [rotate_bins] has the sign of the
    difference and the integer part of the magnitude of the quotient.  Its
    magnitude is below [bins], and a change of less than one bin shifts
    nothing while the tracked frequency follows.  [bins] and [sample_rate]
    are positive [int]s. *)
Theorem rotate_bins_truncates host rx st :
  0 < bins st ≤ INT_MAX → 0 < sample_rate rx ≤ INT_MAX →
  waterfall_frequency rx ≠ 0 →
  sample_rate rx = waterfall_sample_rate rx →
  waterfall_frequency rx ≠ vfo_frequency host →
  2 * Z.abs (vfo_frequency host - waterfall_frequency rx) ≤ sample_rate rx →
  let delta := waterfall_frequency rx - vfo_frequency host in
  let hz := wf_hz_per_bin rx st in
  let q := wf_rotate_quotient rx st (vfo_frequency host) in
  let k := wf_rotate_bins rx st (vfo_frequency host) in
  wf_handle_frequency host rx st
  = (st' ← (if decide (k ≠ 0) then wf_rotate_history k st else Some st);
     Some (set_waterfall_tracking (vfo_frequency host) (sample_rate rx) rx,
           st'))
  ∧ rounded 53 (IZR (sample_rate rx) / IZR (bins st)) hz
  ∧ rounded 53 (IZR (Z.abs delta) / B2R hz) (SFabs q)
  ∧ k = Z.sgn delta * float_trunc (SFabs q)
  ∧ (IZR (Z.abs k) <= B2R (SFabs q) < IZR (Z.abs k) + 1)%R
  ∧ Z.abs k < bins st
  ∧ (Z.abs delta * bins st < sample_rate rx → k = 0).
Proof.
  intros Hb Hsr Hinit Hsame Hchg Hhalf delta hz q k.
  split; [|by apply wf_rotate_bins_spec].
  unfold wf_handle_frequency.
  rewrite decide_True by lia. rewrite decide_True by done.
  rewrite decide_True by done.
  pose proof (half_sample_rate (sample_rate rx)).
  rewrite decide_False by lia. done.
Qed.

Lemma rotate_bins_truncates_witness :
  wf_rotate_bins
    (mkRx 1 0 1000 48000 7100040 48000 (-100) (-50) false 0 [] true)
    (set_bins 1000 demo_state) 7100000 = 0.
Proof.
  refine (proj2 (proj2 (proj2 (proj2 (proj2 (proj2
    (rotate_bins_truncates demo_host_steady
       (mkRx 1 0 1000 48000 7100040 48000 (-100) (-50) false 0 [] true)
       (set_bins 1000 demo_state) _ _ _ _ _ _)))))) _).
  - vm_compute. split; [reflexivity | discriminate].
  - vm_compute. split; [reflexivity | discriminate].
  - simpl. lia.
  - reflexivity.
  - simpl. lia.
  - simpl. lia.
  - simpl. lia.
Defined.

(** ** The whole tick *)

Lemma wf_reset_history_ok st :
  wf_state_ok st →
  ∃ st', wf_reset_history st = Some st' ∧ wf_state_ok st' ∧ wf_all_floor st'
         ∧ head st' = 0 ∧ bins st' = bins st ∧ depth st' = depth st
         ∧ update_count st' = update_count st
         ∧ waterfall_zoom st' = waterfall_zoom st
         ∧ waterfall_pan st' = waterfall_pan st.
Proof.
  intros (h & Hok & Hhead). pose proof Hok as (Hh & Hl & Hd & Hb).
  rewrite (wf_reset_history_spec st h Hok). eexists. split; [done|].
  split_and!; try done.
  - exists (replicate (length h) FLOOR_DB). split; [|simpl; lia].
    unfold wf_allocated; simpl. by rewrite length_replicate.
  - intros r i Hr Hi. unfold wf_cell; simpl in *.
    apply load_replicate. nia.
Qed.

Lemma wf_all_floor_rotate k st st' :
  wf_state_ok st → wf_all_floor st → wf_rotate_history k st = Some st' →
  wf_all_floor st'.
Proof.
  intros (h & Hok & _) Hfl.
  destruct (wf_rotate_history_spec k st h Hok) as (h' & -> & Hl' & Hc).
  intros [= <-] r i Hr Hi. simpl in *.
  destruct Hok as (Hh & Hl & Hd & Hb).
  unfold wf_cell; simpl. rewrite Hc by done.
  destruct (decide _) as [Hv|Hv]; [done|].
  specialize (Hfl r (i - k) Hr ltac:(lia)). unfold wf_cell in Hfl.
  rewrite Hh in Hfl. simpl in Hfl. rewrite <- Hfl. f_equal. lia.
Qed.

Lemma wf_sync_view_ok nbins rx st :
  wf_state_ok st → 0 < nbins →
  ∃ st',
    wf_sync_view nbins rx st = Some st' ∧ wf_state_ok st'
    ∧ bins st' = nbins ∧ depth st' = depth st
    ∧ update_count st' = update_count st
    ∧ waterfall_zoom st' = zoom rx ∧ waterfall_pan st' = pan rx
    ∧ if decide (waterfall_zoom st = zoom rx ∧ bins st = nbins)
      then history st' = history st ∧ head st' = head st
      else wf_all_floor st' ∧ head st' = 0.
Proof.
  intros Hok Hn. unfold wf_sync_view.
  assert (∃ st1,
    (if decide (waterfall_zoom st ≠ zoom rx)
     then wf_reset_history (set_waterfall_zoom (zoom rx) st) else Some st)
    = Some st1 ∧ wf_state_ok st1 ∧ depth st1 = depth st
    ∧ bins st1 = bins st
    ∧ update_count st1 = update_count st ∧ waterfall_zoom st1 = zoom rx
    ∧ if decide (waterfall_zoom st = zoom rx)
      then st1 = st else wf_all_floor st1 ∧ head st1 = 0)
    as (st1 & -> & Hok1 & Hd1 & Hb1 & Hc1 & Hz1 & Hcase1).
  { destruct (decide (waterfall_zoom st ≠ zoom rx)) as [Hz|Hz].
    - destruct (wf_reset_history_ok (set_waterfall_zoom (zoom rx) st))
        as (st1 & -> & Hok1 & Hfl & Hh0 & Hb & Hd & Hc & Hzz & Hp).
      { destruct Hok as (h & Hok & Hhead). by exists h. }
      exists st1. rewrite decide_False by done. by split_and!.
    - exists st. rewrite decide_True by (destruct (decide (waterfall_zoom st = zoom rx)); [done|done]).
      split_and!; try done.
      by destruct (decide (waterfall_zoom st = zoom rx)). }
  simpl.
  set (st2 := if decide (waterfall_pan st1 ≠ pan rx)
              then set_waterfall_pan (pan rx) st1 else st1).
  assert (wf_state_ok st2 ∧ depth st2 = depth st ∧ bins st2 = bins st
          ∧ update_count st2 = update_count st
          ∧ waterfall_zoom st2 = zoom rx ∧ waterfall_pan st2 = pan rx
          ∧ history st2 = history st1 ∧ head st2 = head st1)
    as (Hok2 & Hd2 & Hb2 & Hc2 & Hz2 & Hp2 & Hh2 & Hhd2).
  { unfold st2. destruct Hok1 as (h1 & Hok1 & Hhead1).
    destruct (decide (waterfall_pan st1 ≠ pan rx)) as [Hp|Hp].
    - split_and!; try done. by exists h1.
    - split_and!; try done; [by exists h1|].
      by destruct (decide (waterfall_pan st1 = pan rx)). }
  clearbody st2.
  assert (∃ st', wf_resize nbins st2 = Some st' ∧ wf_state_ok st'
          ∧ bins st' = nbins ∧ depth st' = depth st
          ∧ update_count st' = update_count st
          ∧ waterfall_zoom st' = zoom rx ∧ waterfall_pan st' = pan rx
          ∧ wf_all_floor st' ∧ head st' = 0) as Hresize.
  { unfold wf_resize, g_malloc0. simpl.
    destruct Hok2 as (h2 & (Hh & Hl & Hd & Hb) & Hhead2).
    rewrite decide_False by (apply Z.neq_mul_0; lia).
    destruct (wf_reset_history_ok
                (set_history (Some (replicate (Z.to_nat (depth st2 * nbins))
                                      F32.zero)) (set_bins nbins st2)))
      as (st' & -> & Hok' & Hfl & Hh0 & Hb' & Hd' & Hc' & Hzz & Hpp).
    { eexists. split; [|simpl; lia]. unfold wf_allocated; simpl.
      rewrite length_replicate. split_and!; try done. nia. }
    exists st'. simpl in *. split_and!; try done; congruence. }
  destruct (decide (bins st2 ≠ nbins)) as [Hbn|Hbn].
  - destruct Hresize as (st' & -> & ? & ? & ? & ? & ? & ? & ? & ?).
    exists st'. rewrite decide_False by lia. by split_and!.
  - destruct Hok2 as (h2 & Hok2 & Hhead2).
    pose proof Hok2 as (Hh & Hl & Hd & Hb). rewrite Hh.
    exists st2. split_and!; try done; try lia.
    + by exists h2.
    + destruct (decide (waterfall_zoom st = zoom rx)) as [Hz|Hz].
      * subst st1. rewrite decide_True by lia. done.
      * rewrite decide_False by tauto. destruct Hcase1 as [Hfl H0].
        split; [|congruence].
        intros r i Hr Hi. unfold wf_cell. rewrite Hh2, Hb2, <- Hb1.
        apply (Hfl r i); lia.
Qed.

Lemma wf_handle_frequency_ok host rx st :
  wf_state_ok st →
  ∃ st',
    wf_handle_frequency host rx st
    = Some (set_waterfall_tracking (vfo_frequency host) (sample_rate rx) rx, st')
    ∧ wf_state_ok st'
    ∧ bins st' = bins st ∧ depth st' = depth st
    ∧ update_count st' = update_count st
    ∧ waterfall_zoom st' = waterfall_zoom st
    ∧ waterfall_pan st' = waterfall_pan st
    ∧ (wf_all_floor st → head st = 0 → wf_all_floor st' ∧ head st' = 0)
    ∧ (waterfall_frequency rx = 0
       ∨ sample_rate rx ≠ waterfall_sample_rate rx →
       wf_all_floor st' ∧ head st' = 0)
    ∧ (waterfall_frequency rx ≠ 0 →
       sample_rate rx = waterfall_sample_rate rx →
       waterfall_frequency rx = vfo_frequency host → st' = st).
Proof.
  intros Hok.
  destruct (wf_reset_history_ok st Hok)
    as (st0 & Hreset & Hok0 & Hfl0 & Hh0 & Hb0 & Hd0 & Hc0 & Hz0 & Hp0).
  pose proof Hok as (h & Hal & Hhead).
  pose proof Hal as (Hh & Hl & Hd & Hb).
  assert (∀ k, ∃ st', wf_rotate_history k st = Some st' ∧ wf_state_ok st'
          ∧ bins st' = bins st ∧ depth st' = depth st
          ∧ update_count st' = update_count st
          ∧ waterfall_zoom st' = waterfall_zoom st
          ∧ waterfall_pan st' = waterfall_pan st
          ∧ head st' = head st
          ∧ (wf_all_floor st → wf_all_floor st')) as Hrot.
  { intros k. destruct (wf_rotate_history_spec k st h Hal)
      as (h' & Hrun & Hl' & _).
    eexists. split; [exact Hrun|]. split_and!; try done.
    - exists h'. split; [|done]. unfold wf_allocated; simpl.
      split_and!; try done. congruence.
    - intros Hfl. exact (wf_all_floor_rotate k st _ Hok Hfl Hrun). }
  unfold wf_handle_frequency. rewrite decide_True by lia.
  destruct (decide (waterfall_frequency rx ≠ 0
                    ∧ sample_rate rx = waterfall_sample_rate rx))
    as [[Hinit Hsr]|Hno].
  - destruct (decide (waterfall_frequency rx ≠ vfo_frequency host))
      as [Hchg|Hsame].
    + destruct (decide (_ ∨ _)) as [Hjump|Hnear].
      * rewrite Hreset. exists st0. simpl.
        split_and!; try done; try tauto; try congruence.
      * destruct (decide (wf_rotate_bins rx st (vfo_frequency host) ≠ 0)).
        -- destruct (Hrot (wf_rotate_bins rx st (vfo_frequency host)))
             as (st' & -> & ? & ? & ? & ? & ? & ? & Hhd & Hflr).
           exists st'. simpl. split_and!; try done; try tauto.
           intros Hfl Hz0'. split; [by apply Hflr | congruence].
        -- exists st. simpl. split_and!; try done; tauto.
    + exists st. simpl. split_and!; try done; tauto.
  - rewrite Hreset. exists st0. simpl.
    split_and!; try done. tauto.
Qed.

(** The row that [wf_push_row] leaves, explicitly. *)
Lemma wf_push_row_result rx st h :
  wf_allocated st h → 0 ≤ head st < depth st → rx_samples_ok rx →
  ∃ h',
    wf_push_row rx st
    = Some (set_head ((head st + 1) `mod` depth st)
              (set_history (Some h') st))
    ∧ length h' = length h
    ∧ ∀ r i, 0 ≤ r < depth st → 0 ≤ i < bins st →
        load h' (r * bins st + i)
        = if decide (r = head st) then wf_source_sample rx i
          else load h (r * bins st + i).
Proof.
  intros (Hh & Hlen & Hd & Hb) Hhead Hrx.
  destruct (for_range_store (wf_source_sample rx)
              (λ i, default FLOOR_DB (wf_source_sample rx i))
              (head st * bins st) 0 (bins st) h)
    as (h' & Hrun & Hlen' & Hcells).
  - intros i _. by destruct (wf_source_sample_is_Some rx i Hrx) as [v ->].
  - lia.
  - nia.
  - nia.
  - unfold wf_push_row. rewrite Hh. simpl. rewrite Hrun. simpl.
    rewrite decide_False by lia. rewrite Z.rem_mod_nonneg by lia.
    exists h'. split_and!; [done | done |].
    intros r i Hr Hi. rewrite Hcells. case_decide as Hin.
    + assert (r = head st) as -> by nia.
      rewrite decide_True by done.
      destruct (wf_source_sample_is_Some rx i Hrx) as [v Hv].
      rewrite Hv. simpl. f_equal.
      replace (head st * bins st + i - head st * bins st) with i by lia.
      by rewrite Hv.
    + rewrite decide_False; [done|]. intros ->. lia.
Qed.

Lemma wf_store_row_ok rx st :
  wf_state_ok st → rx_samples_ok rx →
  INT_MIN ≤ update_count st < INT_MAX →
  ∃ st',
    wf_store_row rx st = Some (st', waterfall rx) ∧ wf_state_ok st'
    ∧ bins st' = bins st ∧ depth st' = depth st
    ∧ update_count st' = update_count st + 1
    ∧ waterfall_zoom st' = waterfall_zoom st
    ∧ waterfall_pan st' = waterfall_pan st
    ∧ if decide (update_count st < 4)
      then history st' = history st ∧ head st' = head st
      else head st' = (head st + 1) `mod` depth st
           ∧ ∀ r i, 0 ≤ r < depth st → 0 ≤ i < bins st →
               wf_cell st' r i
               = if decide (r = head st) then wf_source_sample rx i
                 else wf_cell st r i.
Proof.
  intros (h & Hal & Hhead) Hrx Hc. unfold wf_store_row.
  rewrite wrap32_small by lia. simpl.
  destruct (decide (update_count st + 1 < 5)) as [Hlt|Hge].
  - eexists. split; [done|]. rewrite decide_True by lia.
    split_and!; try done. by exists h.
  - destruct (wf_push_row_result rx
                (set_update_count (update_count st + 1) st) h)
      as (h' & -> & Hl' & Hcells); [done..|].
    simpl in *. eexists. split; [done|]. rewrite decide_False by lia.
    pose proof Hal as (Hh & Hl & Hd & Hb).
    split_and!; try done.
    + exists h'. simpl. split.
      * unfold wf_allocated; simpl. split_and!; try done. congruence.
      * apply Z.mod_pos_bound. lia.
    + intros r i Hr Hi. unfold wf_cell; simpl. rewrite Hh. simpl.
      by apply Hcells.
Qed.

(** X1.  A tick never reads or writes outside the history buffer or the
    sample array, whatever the width, zoom, pan and frequencies are, and it
    leaves a buffer of [depth * bins] cells with [head] the index of a row.
    When the width is above 2 the tick takes the width as bin count, counts
    the update, records the zoom, the pan, the frequency and the sample
    rate, and queues a redraw if the widget exists. *)
Theorem update_keeps_state_ok host rx st :
  wf_state_ok st → rx_samples_ok rx →
  INT_MIN ≤ update_count st < INT_MAX →
  ∃ rx' st' redraw,
    waterfall3dss_update host rx st = Some (rx', st', redraw)
    ∧ wf_state_ok st' ∧ depth st' = depth st
    ∧ (2 < wf_screen_width host →
       bins st' = wf_screen_width host
       ∧ update_count st' = update_count st + 1
       ∧ waterfall_zoom st' = zoom rx ∧ waterfall_pan st' = pan rx
       ∧ rx' = set_waterfall_tracking (vfo_frequency host) (sample_rate rx) rx
       ∧ redraw = waterfall rx).
Proof.
  intros Hok Hrx Hc. pose proof Hok as (h & (Hh & _) & _).
  destruct (decide (2 < wf_screen_width host)) as [Hw|Hw].
  - rewrite (waterfall3dss_update_unfold host rx st h) by done.
    destruct (wf_sync_view_ok (wf_screen_width host) rx st Hok)
      as (st1 & -> & Hok1 & Hb1 & Hd1 & Hc1 & Hz1 & Hp1 & _); [lia|].
    simpl.
    destruct (wf_handle_frequency_ok host rx st1 Hok1)
      as (st2 & -> & Hok2 & Hb2 & Hd2 & Hc2 & Hz2 & Hp2 & _).
    simpl.
    destruct (wf_store_row_ok rx st2 Hok2 Hrx)
      as (st3 & -> & Hok3 & Hb3 & Hd3 & Hc3 & Hz3 & Hp3 & _); [lia|].
    simpl. eexists _, _, _. split; [done|].
    split_and!; [done | congruence |]. intros _.
    split_and!; try done; congruence.
  - unfold waterfall3dss_update. rewrite Hh.
    rewrite decide_True by lia.
    eexists _, _, _. split; [done|]. split_and!; try done.
Qed.

Lemma update_keeps_state_ok_witness :
  ∃ rx' st' redraw,
    waterfall3dss_update demo_host_retuned demo_rx demo_state
    = Some (rx', st', redraw)
    ∧ wf_state_ok st' ∧ depth st' = 2
    ∧ (2 < wf_screen_width demo_host_retuned →
       bins st' = 10 ∧ update_count st' = 0 + 1
       ∧ waterfall_zoom st' = 1 ∧ waterfall_pan st' = 0
       ∧ rx' = set_waterfall_tracking 7090400 48000 demo_rx
       ∧ redraw = true).
Proof.
  refine (update_keeps_state_ok demo_host_retuned demo_rx demo_state _ _ _).
  - exists (F32.of_Z <$> seqZ 1 20). split; [|simpl; lia].
    unfold wf_allocated. simpl. split_and!; [reflexivity | lia..].
  - unfold rx_samples_ok. simpl. lia.
  - unfold INT_MIN, INT_MAX. simpl. lia.
Defined.

(** X2.  An accepted tick without a change of width, zoom, frequency or
    sample rate overwrites the row at [head] with the samples of the tick,
    floor values where [i + pan] is no index of the sample array, keeps
    every other row as it was, and advances [head] by one modulo the depth.
    A changed pan is recorded and moves no stored row. *)
Theorem steady_tick_pushes_row host rx st h :
  wf_allocated st h → 0 ≤ head st < depth st → rx_samples_ok rx →
  2 < wf_screen_width host → bins st = wf_screen_width host →
  waterfall_zoom st = zoom rx →
  waterfall_frequency rx ≠ 0 →
  sample_rate rx = waterfall_sample_rate rx →
  waterfall_frequency rx = vfo_frequency host →
  4 ≤ update_count st < INT_MAX →
  ∃ st',
    waterfall3dss_update host rx st
    = Some (set_waterfall_tracking (vfo_frequency host) (sample_rate rx) rx,
            st', waterfall rx)
    ∧ head st' = (head st + 1) `mod` depth st
    ∧ bins st' = bins st ∧ depth st' = depth st
    ∧ waterfall_pan st' = pan rx
    ∧ ∀ r i, 0 ≤ r < depth st → 0 ≤ i < bins st →
        wf_cell st' r i
        = if decide (r = head st) then wf_source_sample rx i
          else wf_cell st r i.
Proof.
  intros Hal Hhead Hrx Hw Hb Hz Hinit Hsr Hf Hc.
  assert (wf_state_ok st) as Hok by (by exists h).
  pose proof Hal as (Hh & _).
  rewrite (waterfall3dss_update_unfold host rx st h) by done.
  destruct (wf_sync_view_ok (wf_screen_width host) rx st Hok)
    as (st1 & -> & Hok1 & Hb1 & Hd1 & Hc1 & Hz1 & Hp1 & Hcase); [lia|].
  rewrite decide_True in Hcase by done. destruct Hcase as [Hh1 Hhd1].
  simpl.
  destruct (wf_handle_frequency_ok host rx st1 Hok1)
    as (st2 & -> & Hok2 & Hb2 & Hd2 & Hc2 & Hz2 & Hp2 & _ & _ & Hsame).
  specialize (Hsame Hinit Hsr Hf). subst st2. simpl.
  destruct (wf_store_row_ok rx st1 Hok1 Hrx)
    as (st3 & -> & Hok3 & Hb3 & Hd3 & Hc3 & Hz3 & Hp3 & Hcase3);
    [unfold INT_MIN, INT_MAX in *; lia|].
  rewrite decide_False in Hcase3 by lia. destruct Hcase3 as [Hhd3 Hcells].
  simpl. exists st3. split; [done|].
  split_and!; try congruence.
  intros r i Hr Hi. rewrite Hcells by lia. rewrite Hhd1.
  unfold wf_cell. by rewrite Hh1, Hb1, <- Hb.
Qed.

Lemma steady_tick_pushes_row_witness :
  ∃ st',
    waterfall3dss_update demo_host_steady demo_rx
      (set_update_count 7 demo_state)
    = Some (set_waterfall_tracking 7100000 48000 demo_rx, st', true)
    ∧ head st' = (0 + 1) `mod` 2
    ∧ bins st' = 10 ∧ depth st' = 2
    ∧ waterfall_pan st' = 0
    ∧ ∀ r i, 0 ≤ r < 2 → 0 ≤ i < 10 →
        wf_cell st' r i
        = if decide (r = 0) then wf_source_sample demo_rx i
          else wf_cell (set_update_count 7 demo_state) r i.
Proof.
  refine (steady_tick_pushes_row demo_host_steady demo_rx
            (set_update_count 7 demo_state) (F32.of_Z <$> seqZ 1 20)
            _ _ _ _ _ _ _ _ _ _).
  - unfold wf_allocated. simpl. split_and!; [reflexivity | lia..].
  - simpl. lia.
  - unfold rx_samples_ok. simpl. lia.
  - vm_compute. reflexivity.
  - reflexivity.
  - reflexivity.
  - simpl. lia.
  - reflexivity.
  - reflexivity.
  - unfold INT_MAX. simpl. lia.
Defined.

(** X3.  A tick on which the zoom or the width has changed, the sample rate
    has changed or the tracker is not initialised starts from an empty
    history: when the tick is accepted, row 0 holds its samples, every
    other cell holds the floor value and [head] is 1 (modulo the depth). *)
Theorem view_change_restarts_history host rx st :
  wf_state_ok st → rx_samples_ok rx → 2 < wf_screen_width host →
  4 ≤ update_count st < INT_MAX →
  waterfall_zoom st ≠ zoom rx ∨ bins st ≠ wf_screen_width host
  ∨ waterfall_frequency rx = 0
  ∨ sample_rate rx ≠ waterfall_sample_rate rx →
  ∃ st',
    waterfall3dss_update host rx st
    = Some (set_waterfall_tracking (vfo_frequency host) (sample_rate rx) rx,
            st', waterfall rx)
    ∧ bins st' = wf_screen_width host ∧ depth st' = depth st
    ∧ head st' = 1 `mod` depth st
    ∧ ∀ r i, 0 ≤ r < depth st → 0 ≤ i < wf_screen_width host →
        wf_cell st' r i
        = if decide (r = 0) then wf_source_sample rx i else Some FLOOR_DB.
Proof.
  intros Hok Hrx Hw Hc Hcause. pose proof Hok as (h & (Hh & _) & _).
  rewrite (waterfall3dss_update_unfold host rx st h) by done.
  destruct (wf_sync_view_ok (wf_screen_width host) rx st Hok)
    as (st1 & -> & Hok1 & Hb1 & Hd1 & Hc1 & Hz1 & Hp1 & Hcase); [lia|].
  simpl.
  destruct (wf_handle_frequency_ok host rx st1 Hok1)
    as (st2 & -> & Hok2 & Hb2 & Hd2 & Hc2 & Hz2 & Hp2 & Hkeep & Hreset & _).
  simpl.
  assert (wf_all_floor st2 ∧ head st2 = 0) as [Hfl Hh0].
  { destruct (decide (waterfall_zoom st = zoom rx
                      ∧ bins st = wf_screen_width host)) as [[? ?]|Hn].
    - apply Hreset. tauto.
    - destruct Hcase as [? ?]. by apply Hkeep. }
  destruct (wf_store_row_ok rx st2 Hok2 Hrx)
    as (st3 & -> & Hok3 & Hb3 & Hd3 & Hc3 & Hz3 & Hp3 & Hcase3);
    [unfold INT_MIN, INT_MAX in *; lia|].
  rewrite decide_False in Hcase3 by lia. destruct Hcase3 as [Hhd3 Hcells].
  simpl. exists st3. split; [done|].
  split_and!; [congruence | congruence | |].
  - rewrite Hhd3, Hh0. f_equal. congruence.
  - intros r i Hr Hi. rewrite Hcells by lia. rewrite Hh0.
    destruct (decide (r = 0)); [done|]. apply Hfl; lia.
Qed.

Lemma view_change_restarts_history_witness :
  ∃ st',
    waterfall3dss_update demo_host_steady
      (mkRx 2 0 10 48000 7100000 48000 (-100) (-50) false 0
         (F32.of_Z <$> seqZ 101 10) true)
      (set_update_count 7 demo_state)
    = Some (set_waterfall_tracking 7100000 48000
              (mkRx 2 0 10 48000 7100000 48000 (-100) (-50) false 0
                 (F32.of_Z <$> seqZ 101 10) true), st', true)
    ∧ bins st' = wf_screen_width demo_host_steady ∧ depth st' = 2
    ∧ head st' = 1 `mod` 2
    ∧ ∀ r i, 0 ≤ r < 2 → 0 ≤ i < wf_screen_width demo_host_steady →
        wf_cell st' r i
        = if decide (r = 0)
          then wf_source_sample
                 (mkRx 2 0 10 48000 7100000 48000 (-100) (-50) false 0
                    (F32.of_Z <$> seqZ 101 10) true) i
          else Some FLOOR_DB.
Proof.
  refine (view_change_restarts_history demo_host_steady
            (mkRx 2 0 10 48000 7100000 48000 (-100) (-50) false 0
               (F32.of_Z <$> seqZ 101 10) true)
            (set_update_count 7 demo_state) _ _ _ _ _).
  - exists (F32.of_Z <$> seqZ 1 20). split; [|simpl; lia].
    unfold wf_allocated. simpl. split_and!; [reflexivity | lia..].
  - unfold rx_samples_ok. simpl. lia.
  - vm_compute. reflexivity.
  - unfold INT_MAX. simpl. lia.
  - left. simpl. lia.
Defined.

(** ** The tracker over several ticks *)

Lemma wf_handle_frequency_sub_bin host rx st h :
  wf_allocated st h → 2 ≤ bins st ≤ INT_MAX → 0 < sample_rate rx ≤ INT_MAX →
  waterfall_frequency rx ≠ 0 → sample_rate rx = waterfall_sample_rate rx →
  Z.abs (waterfall_frequency rx - vfo_frequency host) * bins st
    < sample_rate rx →
  wf_handle_frequency host rx st
  = Some (set_waterfall_tracking (vfo_frequency host) (sample_rate rx) rx, st).
Proof.
  intros Hal Hb Hsr Hinit Hsame Hsub.
  unfold wf_handle_frequency. rewrite decide_True by lia.
  rewrite decide_True by done.
  destruct (decide (waterfall_frequency rx ≠ vfo_frequency host))
    as [Hchg|Hno]; [|done].
  pose proof (half_sample_rate (sample_rate rx) ltac:(lia)).
  assert (2 * Z.abs (vfo_frequency host - waterfall_frequency rx)
          ≤ sample_rate rx) as Hhalf by nia.
  rewrite decide_False by lia.
  destruct (wf_rotate_bins_spec rx st (vfo_frequency host))
    as (_ & _ & _ & _ & _ & Hzero); [lia | lia | done | done |].
  cbv zeta in Hzero. rewrite Hzero by done.
  by rewrite decide_False by lia.
Qed.

(** X4.  Retunes of less than one bin each never shift the history,
    however far they add up: the tracker drops the fraction of a bin at
    every tick, since it records the new frequency whether it has shifted
    or not. *)
Theorem slow_drift_never_shifts hosts rx st h :
  wf_allocated st h → 2 ≤ bins st ≤ INT_MAX → 0 < sample_rate rx ≤ INT_MAX →
  waterfall_frequency rx ≠ 0 → sample_rate rx = waterfall_sample_rate rx →
  wf_slow_drift (bins st) (sample_rate rx) (waterfall_frequency rx)
    (vfo_frequency <$> hosts) →
  ∃ rx',
    wf_track hosts rx st = Some (rx', st)
    ∧ waterfall_frequency rx'
      = default (waterfall_frequency rx) (last (vfo_frequency <$> hosts))
    ∧ sample_rate rx' = sample_rate rx
    ∧ waterfall_sample_rate rx' = sample_rate rx.
Proof.
  intros Hal Hb. revert rx.
  induction hosts as [|host hosts IH]; intros rx Hsr Hinit Hsame Hdrift.
  - exists rx. by split_and!.
  - destruct Hdrift as (Hf & Hstep & Hrest). simpl.
    rewrite (wf_handle_frequency_sub_bin host rx st h) by done. simpl.
    destruct (IH (set_waterfall_tracking (vfo_frequency host)
                    (sample_rate rx) rx))
      as (rx' & -> & Hlast & Hsr' & Hwsr'); [done..|].
    exists rx'. split_and!; [done | | done | done].
    rewrite Hlast. simpl. rewrite last_cons.
    change (list_fmap Host Z vfo_frequency hosts)
      with (vfo_frequency <$> hosts).
    by destruct (last (vfo_frequency <$> hosts)).
Qed.

(** Three retunes of 40 Hz with bins of 48 Hz: the frequency has moved by
    two and a half bins and no row has moved. *)
Lemma slow_drift_never_shifts_witness :
  ∃ rx',
    wf_track [mkHost 1000 7100040; mkHost 1000 7100080; mkHost 1000 7100120]
      (mkRx 1 0 1000 48000 7100000 48000 (-100) (-50) false 0 [] true)
      (mkState 1000 2 0 (Some (replicate 2000 FLOOR_DB)) F32.zero F32.zero
         false F64.zero F32.zero 1 0 0 0)
    = Some (rx', mkState 1000 2 0 (Some (replicate 2000 FLOOR_DB)) F32.zero
                   F32.zero false F64.zero F32.zero 1 0 0 0)
    ∧ waterfall_frequency rx' = 7100120
    ∧ sample_rate rx' = 48000
    ∧ waterfall_sample_rate rx' = 48000.
Proof.
  refine (slow_drift_never_shifts
            [mkHost 1000 7100040; mkHost 1000 7100080; mkHost 1000 7100120]
            (mkRx 1 0 1000 48000 7100000 48000 (-100) (-50) false 0 [] true)
            (mkState 1000 2 0 (Some (replicate 2000 FLOOR_DB)) F32.zero
               F32.zero false F64.zero F32.zero 1 0 0 0)
            (replicate 2000 FLOOR_DB) _ _ _ _ _ _).
  - unfold wf_allocated. simpl. split_and!; [reflexivity | lia..].
  - unfold INT_MAX. simpl. lia.
  - unfold INT_MAX. simpl. lia.
  - simpl. lia.
  - reflexivity.
  - simpl. lia.
Defined.

(** X5.  The tracker takes a recorded frequency of 0 for "not yet
    initialised".  While the VFO frequency is 0 it therefore stays
    uninitialised, and every tick resets the history. *)
Theorem zero_frequency_resets_every_tick host hosts rx st :
  wf_state_ok st →
  Forall (λ host, vfo_frequency host = 0) (host :: hosts) →
  waterfall_frequency rx = 0 →
  ∃ rx' st',
    wf_track (host :: hosts) rx st = Some (rx', st')
    ∧ waterfall_frequency rx' = 0
    ∧ wf_all_floor st' ∧ head st' = 0
    ∧ bins st' = bins st ∧ depth st' = depth st.
Proof.
  intros Hok Hall. revert host rx st Hok Hall.
  induction hosts as [|host2 hosts IH]; intros host rx st Hok Hall Hz.
  - apply Forall_inv in Hall. simpl.
    destruct (wf_handle_frequency_ok host rx st Hok)
      as (st' & -> & Hok' & Hb & Hd & _ & _ & _ & _ & Hreset & _).
    simpl. destruct Hreset as [Hfl H0]; [by left|].
    eexists _, _. split; [done|]. by split_and!.
  - pose proof (Forall_inv Hall) as Hv.
    apply Forall_inv_tail in Hall.
    destruct (wf_handle_frequency_ok host rx st Hok)
      as (st1 & Hrun & Hok1 & Hb & Hd & _).
    destruct (IH host2
                (set_waterfall_tracking (vfo_frequency host) (sample_rate rx)
                   rx) st1 Hok1 Hall)
      as (rx' & st' & Hrun' & ? & ? & ? & ? & ?); [by simpl|].
    exists rx', st'. split; [|split_and!; try done; congruence].
    change (wf_track (host :: host2 :: hosts) rx st)
      with ('(rx', st') ← wf_handle_frequency host rx st;
            wf_track (host2 :: hosts) rx' st').
    by rewrite Hrun.
Qed.

Lemma zero_frequency_resets_every_tick_witness :
  ∃ rx' st',
    wf_track [mkHost 10 0; mkHost 10 0] fresh_rx demo_state = Some (rx', st')
    ∧ waterfall_frequency rx' = 0
    ∧ wf_all_floor st' ∧ head st' = 0
    ∧ bins st' = 10 ∧ depth st' = 2.
Proof.
  refine (zero_frequency_resets_every_tick (mkHost 10 0) [mkHost 10 0]
            fresh_rx demo_state _ _ _).
  - exists (F32.of_Z <$> seqZ 1 20). split; [|simpl; lia].
    unfold wf_allocated. simpl. split_and!; [reflexivity | lia..].
  - repeat constructor.
  - reflexivity.
Defined.

(** ** Rotations compose *)

(** Two buffers of [D * B] cells with the same cells are the same. *)
Lemma history_ext (a b : list float32) D B :
  0 < B → Z.of_nat (length a) = D * B → length b = length a →
  (∀ r i, 0 ≤ r < D → 0 ≤ i < B → load a (r * B + i) = load b (r * B + i)) →
  a = b.
Proof.
  intros HB Ha Hb Hc. apply load_ext. intros j.
  destruct (decide (0 ≤ j < D * B)) as [Hj|Hj].
  - pose proof (Z.div_mod j B ltac:(lia)) as Hdm.
    pose proof (Z.mod_pos_bound j B HB) as Hm.
    replace j with (j `div` B * B + j `mod` B) by lia.
    apply Hc; [|done].
    split; [apply Z.div_pos; lia | apply Z.div_lt_upper_bound; lia].
  - destruct (decide (j < 0)).
    + by rewrite !load_neg.
    + rewrite !load_ge; [done | lia | lia].
Qed.

(** X6.  Two shifts in the same direction are one shift by the sum: the
    cells vacated by the first stay at the floor value and move on with the
    second. *)
Theorem rotations_add k1 k2 st h :
  wf_allocated st h →
  0 ≤ k1 ∧ 0 ≤ k2 ∨ k1 ≤ 0 ∧ k2 ≤ 0 →
  wf_rotate_history k1 st ≫= wf_rotate_history k2
  = wf_rotate_history (k1 + k2) st.
Proof.
  intros Hal Hsign. pose proof Hal as (Hh & Hl & Hd & Hb).
  destruct (wf_rotate_history_spec k1 st h Hal) as (h1 & -> & Hl1 & Hc1).
  simpl.
  destruct (wf_rotate_history_spec k2 (set_history (Some h1) st) h1)
    as (h2 & -> & Hl2 & Hc2).
  { unfold wf_allocated; simpl. split_and!; try done. congruence. }
  destruct (wf_rotate_history_spec (k1 + k2) st h Hal)
    as (h3 & -> & Hl3 & Hc3).
  simpl in *. unfold set_history; simpl.
  assert (h2 = h3) as ->; [|done].
  apply (history_ext h2 h3 (depth st) (bins st)); [done | lia | congruence |].
  intros r i Hr Hi. rewrite Hc2, Hc3 by done.
  destruct (decide (0 < k2 ∧ i < k2 ∨ k2 < 0 ∧ bins st + k2 ≤ i)) as [H2|H2].
  - by rewrite decide_True by lia.
  - replace (r * bins st + i - k2) with (r * bins st + (i - k2)) by lia.
    rewrite Hc1 by lia.
    destruct (decide (0 < k1 ∧ i - k2 < k1 ∨ k1 < 0 ∧ bins st + k1 ≤ i - k2))
      as [H1|H1].
    + by rewrite decide_True by lia.
    + rewrite decide_False by lia. f_equal. lia.
Qed.

Lemma rotations_add_witness :
  wf_rotate_history 2 demo_state ≫= wf_rotate_history 3
  = wf_rotate_history (2 + 3) demo_state.
Proof.
  refine (rotations_add 2 3 demo_state (F32.of_Z <$> seqZ 1 20) _ _).
  - unfold wf_allocated. simpl. split_and!; [reflexivity | lia..].
  - left. lia.
Defined.

(** X7.  A shift is not undone by the opposite shift: the cells that left
    the row are lost.  After a shift by [k] and one by [- k] the [|k|] cells
    at the edge toward which the first shift went hold the floor value and
    the others hold what they held before; for [|k| >= bins] nothing is
    left. *)
Theorem rotation_back_loses_edge k st h :
  wf_allocated st h →
  ∃ st',
    wf_rotate_history k st ≫= wf_rotate_history (- k) = Some st'
    ∧ head st' = head st ∧ bins st' = bins st ∧ depth st' = depth st
    ∧ ∀ r i, 0 ≤ r < depth st → 0 ≤ i < bins st →
        wf_cell st' r i
        = if decide (0 < k ∧ bins st - k ≤ i ∨ k < 0 ∧ i < - k)
          then Some FLOOR_DB else wf_cell st r i.
Proof.
  intros Hal. pose proof Hal as (Hh & Hl & Hd & Hb).
  destruct (wf_rotate_history_spec k st h Hal) as (h1 & -> & Hl1 & Hc1).
  simpl.
  destruct (wf_rotate_history_spec (- k) (set_history (Some h1) st) h1)
    as (h2 & -> & Hl2 & Hc2).
  { unfold wf_allocated; simpl. split_and!; try done. congruence. }
  simpl in *. eexists. split; [done|]. split_and!; try done.
  intros r i Hr Hi. unfold wf_cell; simpl. rewrite Hh; simpl.
  rewrite Hc2 by done.
  destruct (decide (0 < k ∧ bins st - k ≤ i ∨ k < 0 ∧ i < - k)) as [Hv|Hv].
  - by rewrite decide_True by lia.
  - rewrite decide_False by lia.
    replace (r * bins st + i - - k) with (r * bins st + (i + k)) by lia.
    rewrite Hc1 by lia. rewrite decide_False by lia. f_equal. lia.
Qed.

Lemma rotation_back_loses_edge_witness :
  ∃ st',
    wf_rotate_history 2 demo_state ≫= wf_rotate_history (- 2) = Some st'
    ∧ head st' = 0 ∧ bins st' = 10 ∧ depth st' = 2
    ∧ ∀ r i, 0 ≤ r < 2 → 0 ≤ i < 10 →
        wf_cell st' r i
        = if decide (0 < 2 ∧ 10 - 2 ≤ i ∨ 2 < 0 ∧ i < - 2)
          then Some FLOOR_DB else wf_cell demo_state r i.
Proof.
  refine (rotation_back_loses_edge 2 demo_state (F32.of_Z <$> seqZ 1 20) _).
  unfold wf_allocated. simpl. split_and!; [reflexivity | lia..].
Defined.

(** ** The mapper on any sample *)

Lemma binary_round_opp prec emax s m e :
  binary_round prec emax (negb s) m e = SFopp (binary_round prec emax s m e).
Proof.
  unfold binary_round. destruct (shl_align _ _ _) as [mz ez].
  apply binary_round_aux_opp.
Qed.

Lemma shl_align_fst m e e' :
  e' ≤ e → Z.pos (fst (shl_align m e e')) = Z.pos m * 2 ^ (e - e').
Proof.
  intros He. unfold shl_align.
  destruct (e' - e) as [|d|d] eqn:Hd; simpl; try lia.
  - replace (e - e') with 0 by lia. lia.
  - rewrite pos_iter_xO. f_equal. f_equal. lia.
Qed.

Lemma B2R_opp x : B2R (SFopp x) = (- B2R x)%R.
Proof.
  destruct x as [| | |[] m e]; simpl; unfold F2R; try lra.
  - rewrite opp_IZR. simpl. lra.
  - rewrite opp_IZR. simpl. lra.
Qed.

Section Subtraction.
Variables prec emax : Z.
Hypothesis Hprec : 0 < prec.
Local Open Scope R_scope.

(** The difference of two finite floats of different value, when it is in
    the normal range, is finite and not zero. *)
Lemma SFsub_finite sx mx ex sy my ey a b :
  let x := S754_finite sx mx ex in
  let y := S754_finite sy my ey in
  bpow a <= Rabs (B2R x - B2R y) < bpow b →
  (3 - emax ≤ a + 1)%Z → (b < emax)%Z →
  ∃ s m e, SFsub prec emax x y = S754_finite s m e.
Proof.
  intros x y [Hlo Hhi] Ha Hb. simpl SFsub.
  set (ez := Z.min ex ey).
  set (X := Z.pos (fst (shl_align mx ex ez))).
  set (Y := Z.pos (fst (shl_align my ey ez))).
  assert (F2R X ez = F2R (Z.pos mx) ex) as HX.
  { unfold X. rewrite shl_align_fst by lia.
    replace ez with (ex - (ex - ez))%Z at 2 by lia.
    apply F2R_shift. lia. }
  assert (F2R Y ez = F2R (Z.pos my) ey) as HY.
  { unfold Y. rewrite shl_align_fst by lia.
    replace ez with (ey - (ey - ez))%Z at 2 by lia.
    apply F2R_shift. lia. }
  set (d := (cond_Zopp sx X - cond_Zopp sy Y)%Z).
  assert (F2R d ez = B2R x - B2R y) as Hd.
  { unfold d, x, y. simpl B2R. unfold F2R in *. rewrite minus_IZR.
    destruct sx, sy; simpl cond_Zopp; rewrite ?opp_IZR; lra. }
  pose proof (bpow_pos a) as Hpa. pose proof (bpow_pos ez) as Hpe.
  assert (d ≠ 0%Z) as Hd0.
  { intros E. rewrite E in Hd. unfold F2R in Hd.
    rewrite Rmult_0_l in Hd. rewrite <- Hd, Rabs_R0 in Hlo. lra. }
  assert (∀ p, Z.pos p = Z.abs d →
               ∃ m e, binary_round prec emax false p ez
                      = S754_finite false m e) as Hround.
  { intros p Hp.
    assert (F2R (Z.pos p) ez = Rabs (B2R x - B2R y)) as Hv.
    { rewrite <- Hd, Hp. unfold F2R. rewrite abs_IZR, Rabs_mult.
      by rewrite (Rabs_pos_eq (bpow ez)) by lra. }
    pose proof (F2R_pos_bounds p ez) as [Hb1 Hb2]. rewrite Hv in Hb1, Hb2.
    assert (a < Zdigits2 (Z.pos p) + ez)%Z by (apply bpow_lt_inv; lra).
    assert (Zdigits2 (Z.pos p) + ez - 1 < b)%Z by (apply bpow_lt_inv; lra).
    destruct (binary_round_rounded prec emax Hprec p ez)
      as (m & e & _ & _ & -> & _); [lia | lia |].
    by exists m, e. }
  destruct d as [|p|p] eqn:Ed; [done | |]; simpl binary_normalize.
  - destruct (Hround p eq_refl) as (m & e & ->). by exists false, m, e.
  - destruct (Hround p eq_refl) as (m & e & Hr).
    rewrite (binary_round_opp prec emax false), Hr. by exists true, m, e.
Qed.
End Subtraction.

Section NoNaN2.
Variables prec emax : Z.

Lemma SFsub_not_nan_r x sy my ey :
  is_nan x = false →
  is_nan (SFsub prec emax x (S754_finite sy my ey)) = false.
Proof.
  destruct x; simpl; try done. intros _. apply binary_normalize_not_nan.
Qed.

Lemma SFsub_zero_not_nan x s :
  is_nan x = false → is_nan (SFsub prec emax x (S754_zero s)) = false.
Proof. destruct x as [[]| | |]; simpl; try done; by destruct s. Qed.

(** The quotient by a finite non-zero float is no NaN. *)
Lemma SFdiv_not_nan x sy my ey :
  is_nan x = false →
  is_nan (SFdiv prec emax x (S754_finite sy my ey)) = false.
Proof.
  destruct x as [sx|sx| |sx mx ex]; simpl; try done. intros _.
  unfold SFdiv_core_binary.
  set (m' := match _ with Z.pos _ => _ | Z0 => _ | Z.neg _ => _ end).
  assert (0 ≤ m') as Hm'.
  { unfold m'. destruct (_ - _ - _); try lia.
    rewrite Z.shiftl_mul_pow2 by lia. lia. }
  pose proof (Z_div_mod m' (Z.pos my) ltac:(lia)) as Hdm.
  destruct (Z.div_eucl m' (Z.pos my)) as [q r].
  apply binary_round_aux_not_nan. nia.
Qed.

Lemma SFmul_self_not_nan x :
  is_nan x = false → is_nan (SFmul prec emax x x) = false.
Proof.
  destruct x; simpl; try done. intros _. by apply binary_round_aux_not_nan.
Qed.
End NoNaN2.

Section Binary32Values.

(** The conversion of a small integer is exact, and finite unless the
    integer is zero. *)
Lemma F32_of_Z_exact z :
  (z ≠ 0)%Z → (Z.abs z < 2 ^ 24)%Z →
  ∃ s m e, F32.of_Z z = S754_finite s m e
           ∧ B2R (S754_finite s m e) = IZR z.
Proof.
  intros Hz Hb.
  assert (∀ p, (0 < p < 2 ^ 24)%Z →
               ∃ m e, F32.of_Z p = S754_finite false m e
                      ∧ B2R (S754_finite false m e) = IZR p) as Hpos.
  { intros p Hp. pose proof (F32_of_Z_rounded p ltac:(lia)) as Hr.
    pose proof (rounded_exact 24 prec24_pos _ _ p 0 Hr) as Hv.
    rewrite bpow_0, Rmult_1_r in Hv. specialize (Hv eq_refl ltac:(lia)).
    destruct Hr as (m & e & _ & _ & E & _). rewrite E in *.
    by exists m, e. }
  destruct (Z.lt_trichotomy z 0) as [Hneg|[?|Hp]]; [|done|].
  - destruct (Hpos (- z)%Z ltac:(lia)) as (m & e & E & Hv).
    exists true, m, e.
    assert (F32.of_Z z = SFopp (F32.of_Z (- z))) as ->.
    { unfold F32.of_Z. rewrite <- binary_normalize_opp by lia.
      f_equal. lia. }
    rewrite E. simpl SFopp. split; [done|].
    pose proof (B2R_opp (S754_finite false m e)) as Ho. simpl SFopp in Ho.
    rewrite Ho, Hv, opp_IZR. lra.
  - destruct (Hpos z ltac:(lia)) as (m & e & E & Hv). by exists false, m, e.
Qed.

(** The difference of the bounds is finite and not zero. *)
Lemma bounds_difference_finite lo hi :
  lo ≠ hi → (Z.abs lo < 2 ^ 24)%Z → (Z.abs hi < 2 ^ 24)%Z →
  ∃ s m e, F32.sub (F32.of_Z hi) (F32.of_Z lo) = S754_finite s m e.
Proof.
  intros Hne Hlo Hhi.
  destruct (decide (lo = 0)) as [->|Hl0].
  { destruct (F32_of_Z_exact hi) as (s & m & e & -> & _); [done | done |].
    by exists s, m, e. }
  destruct (F32_of_Z_exact lo) as (sl & ml & el & El & Vl); [done..|].
  destruct (decide (hi = 0)) as [->|Hh0].
  { rewrite El. by exists (negb sl), ml, el. }
  destruct (F32_of_Z_exact hi) as (sh & mh & eh & Eh & Vh); [done..|].
  rewrite El, Eh.
  apply (SFsub_finite 24 128 prec24_pos sh mh eh sl ml el 0 25); [|lia|lia].
  rewrite Vl, Vh, <- minus_IZR, <- abs_IZR, bpow_0, (bpow_IZR 25) by lia.
  split; [apply IZR_le | apply IZR_lt]; lia.
Qed.
End Binary32Values.

Lemma wf_level_in_range db_min db_max sample_db s m e :
  F32.sub db_max db_min = S754_finite s m e →
  is_finite db_min = true →
  is_nan sample_db = false →
  in_range F32.zero F32.one (wf_level db_min db_max sample_db).
Proof.
  intros Hd Hmin Hs. unfold wf_level. rewrite Hd.
  apply clampf_in_range; [|by vm_compute..].
  apply SFdiv_not_nan.
  destruct db_min as [s0| | |s0 m0 e0]; try done.
  - by apply SFsub_zero_not_nan.
  - by apply SFsub_not_nan_r.
Qed.

Lemma wf_height_in_range p :
  in_range F32.zero F32.one p →
  in_range F32.zero F32.one
    (clampf (F32.mul (wf_signal p) (F32.lit 18 10)) F32.zero F32.one).
Proof.
  intros Hp. apply clampf_in_range; [|by vm_compute..].
  assert (is_finite p = true) as Hf
    by (apply (in_range_finite F32.zero F32.one p); [by vm_compute.. | done]).
  eapply F32_mul_lit_not_nan; [by vm_compute|].
  unfold wf_signal. apply SFmul_self_not_nan.
  assert (∃ s m e, F32.sub F32.one noise_threshold = S754_finite s m e)
    as (s & m & e & ->) by (by vm_compute; eexists _, _, _).
  apply SFdiv_not_nan.
  assert (∃ s m e, noise_threshold = S754_finite s m e)
    as (s' & m' & e' & ->) by (by vm_compute; eexists _, _, _).
  apply SFsub_not_nan_r. by apply is_finite_not_nan.
Qed.

(** X8.  With two different bounds of moderate size, every sample but NaN,
    the infinities included, is given a height between 0 and 1 and an
    opaque colour. *)
Theorem height_in_unit_range rx sample_db dist01 :
  waterfall_low rx ≠ waterfall_high rx →
  Z.abs (waterfall_low rx) < 2 ^ 24 → Z.abs (waterfall_high rx) < 2 ^ 24 →
  is_nan sample_db = false →
  let out := sample_to_color rx sample_db dist01 in
  in_range F32.zero F32.one (ch_h01 out) ∧ ch_a out = F32.one.
Proof.
  intros Hne Hlo Hhi Hs out.
  destruct (bounds_difference_finite _ _ Hne Hlo Hhi) as (s & m & e & Hd).
  assert (is_finite (F32.of_Z (waterfall_low rx)) = true) as Hfin.
  { destruct (decide (waterfall_low rx = 0)) as [->|H0]; [done|].
    by destruct (F32_of_Z_exact _ H0 Hlo) as (? & ? & ? & -> & _). }
  pose proof (wf_level_in_range _ _ sample_db s m e Hd Hfin Hs) as Hp.
  unfold out, sample_to_color, wf_color_height.
  destruct (F32.ltb _ noise_threshold); simpl.
  - split; [by vm_compute | done].
  - split; [by apply wf_height_in_range | done].
Qed.

Lemma height_in_unit_range_witness :
  let out := sample_to_color demo_rx (S754_infinity false) (F32.lit 1 2) in
  in_range F32.zero F32.one (ch_h01 out) ∧ ch_a out = F32.one.
Proof.
  refine (height_in_unit_range demo_rx (S754_infinity false) (F32.lit 1 2)
            _ _ _ _).
  - simpl. lia.
  - simpl. lia.
  - simpl. lia.
  - reflexivity.
Defined.

(** X9.  A NaN sample is not caught by the noise-floor test, which compares
    false: it comes out with NaN for the height and for every colour
    component, and with full opacity. *)
Theorem nan_sample_gives_nan_vertex rx dist01 :
  let out := sample_to_color rx S754_nan dist01 in
  is_nan (ch_r out) = true ∧ is_nan (ch_g out) = true
  ∧ is_nan (ch_b out) = true ∧ is_nan (ch_h01 out) = true
  ∧ ch_a out = F32.one.
Proof.
  intros out. unfold out, sample_to_color, wf_color_height, wf_level.
  assert (∀ x, F32.mul x S754_nan = S754_nan) as Hm by (by intros []).
  assert (F32.div (F32.sub S754_nan (F32.of_Z (waterfall_low rx)))
            (F32.sub (F32.of_Z (waterfall_high rx))
               (F32.of_Z (waterfall_low rx))) = S754_nan) as ->.
  { reflexivity. }
  change (clampf S754_nan F32.zero F32.one) with S754_nan.
  change (F32.ltb S754_nan noise_threshold) with false. cbv iota.
  change (wf_signal S754_nan) with S754_nan. cbv zeta. simpl.
  by rewrite !Hm.
Qed.

(** ** The mesh of the renderer *)

Lemma store_seq_spec {A : Type} (vs : list A) (a : list A) out :
  0 ≤ out → out + Z.of_nat (length vs) ≤ Z.of_nat (length a) →
  ∃ a', store_seq a out vs = Some (a', out + Z.of_nat (length vs))
        ∧ length a' = length a
        ∧ ∀ j, load a' j =
               if decide (out ≤ j < out + Z.of_nat (length vs))
               then vs !! Z.to_nat (j - out) else load a j.
Proof.
  revert a out. induction vs as [|v vs IH]; intros a out Hout Hlen.
  - exists a. simpl. split_and!; [f_equal; f_equal; lia | done |].
    intros j. by rewrite decide_False by (simpl; lia).
  - simpl in *. rewrite store_Some by lia. simpl.
    destruct (IH (<[Z.to_nat out := v]> a) (out + 1))
      as (a' & -> & Hl & Hc); [lia | rewrite length_insert; lia |].
    exists a'. split_and!.
    + do 2 f_equal. lia.
    + by rewrite Hl, length_insert.
    + intros j. rewrite Hc.
      rewrite (load_store a _ out v) by (apply store_Some; lia).
      destruct (decide (out + 1 ≤ j < out + 1 + Z.of_nat (length vs))).
      * rewrite decide_True by lia.
        replace (Z.to_nat (j - out)) with (S (Z.to_nat (j - (out + 1))))
          by lia. done.
      * destruct (decide (j = out)) as [->|].
        -- rewrite decide_True by lia. by replace (out - out) with 0 by lia.
        -- by rewrite decide_False by lia.
Qed.

(** The rows that the renderer reads are rows of the buffer. *)
Lemma wf_row_at_age_range st d :
  0 ≤ head st < depth st → 0 ≤ d < depth st →
  0 ≤ wf_row_at_age st d < depth st.
Proof.
  intros Hh Hd. unfold wf_row_at_age.
  rewrite Z.rem_mod_nonneg by lia. apply Z.mod_pos_bound. lia.
Qed.

Lemma wf_cell_is_Some st h r i :
  wf_allocated st h → 0 ≤ r < depth st → 0 ≤ i < bins st →
  is_Some (wf_cell st r i).
Proof.
  intros (Hh & Hl & Hd & Hb) Hr Hi. unfold wf_cell. rewrite Hh. simpl.
  apply load_is_Some. nia.
Qed.

(** The two samples of column [x] in the strip of age [d] are read inside
    the buffer. *)
Lemma wf_resample_pair_is_Some st W d x :
  wf_state_ok st → 2 ≤ bins st ≤ 2 ^ 25 → 2 ≤ W ≤ 2 ^ 31 →
  0 ≤ d < depth st - 1 → 0 ≤ x < W →
  ∃ s0 s1,
    wf_resample_pair st W d x = Some (s0, s1)
    ∧ wf_cell st (wf_row_at_age st d) (wf_resample_bin W (bins st) x)
      = Some s0
    ∧ wf_cell st (wf_row_at_age st (d + 1)) (wf_resample_bin W (bins st) x)
      = Some s1.
Proof.
  intros (h & Hal & Hhead) HB HW Hd Hx.
  destruct (wf_resample_bin_monotone W (bins st) HW HB) as (Hr & _).
  specialize (Hr x Hx).
  pose proof (wf_row_at_age_range st d Hhead ltac:(lia)).
  pose proof (wf_row_at_age_range st (d + 1) Hhead ltac:(lia)).
  destruct (wf_cell_is_Some st h (wf_row_at_age st d)
              (wf_resample_bin W (bins st) x) Hal) as [s0 E0]; [lia..|].
  destruct (wf_cell_is_Some st h (wf_row_at_age st (d + 1))
              (wf_resample_bin W (bins st) x) Hal) as [s1 E1]; [lia..|].
  exists s0, s1. split; [|done].
  rewrite wf_resample_pair_same_bin by lia. by rewrite E0, E1.
Qed.

Lemma wf_strip_vertex_length rx st W d x s0 s1 :
  length (wf_strip_vertex rx st W d x s0 s1) = 14%nat.
Proof. done. Qed.

Opaque wf_strip_vertex.

Lemma wf_resample_strip_spec st W d bufs :
  wf_state_ok st → 2 ≤ bins st ≤ 2 ^ 25 → 2 ≤ W ≤ 2 ^ 31 →
  0 ≤ d < depth st - 1 →
  W ≤ Z.of_nat (length (row_tmp0 bufs)) →
  W ≤ Z.of_nat (length (row_tmp1 bufs)) →
  ∃ bufs',
    wf_resample_strip st W d bufs = Some bufs'
    ∧ length (row_tmp0 bufs') = length (row_tmp0 bufs)
    ∧ length (row_tmp1 bufs') = length (row_tmp1 bufs)
    ∧ vtx bufs' = vtx bufs
    ∧ ∀ x, 0 ≤ x < W →
        load (row_tmp0 bufs') x
        = wf_cell st (wf_row_at_age st d) (wf_resample_bin W (bins st) x)
        ∧ load (row_tmp1 bufs') x
          = wf_cell st (wf_row_at_age st (d + 1))
              (wf_resample_bin W (bins st) x).
Proof.
  intros Hok HB HW Hd H0 H1. unfold wf_resample_strip, for_range.
  pose (P := λ (x : Z) (b : RenderBuffers),
    length (row_tmp0 b) = length (row_tmp0 bufs)
    ∧ length (row_tmp1 b) = length (row_tmp1 bufs)
    ∧ vtx b = vtx bufs
    ∧ ∀ x', 0 ≤ x' < x →
        load (row_tmp0 b) x'
        = wf_cell st (wf_row_at_age st d) (wf_resample_bin W (bins st) x')
        ∧ load (row_tmp1 b) x'
          = wf_cell st (wf_row_at_age st (d + 1))
              (wf_resample_bin W (bins st) x')).
  destruct (for_loop_inv P
              (λ x bufs,
                 '(v0, v1) ← wf_resample_pair st W d x;
                 t0 ← store (row_tmp0 bufs) x v0;
                 t1 ← store (row_tmp1 bufs) x v1;
                 Some (mkBuffers t0 t1 (vtx bufs)))
              (Z.to_nat (W - 0)) 0 bufs) as (b' & Hrun & HP).
  - unfold P. split_and!; try done. intros; lia.
  - intros x b Hx (Hl0 & Hl1 & Hv & Hc).
    destruct (wf_resample_pair_is_Some st W d x)
      as (s0 & s1 & -> & E0 & E1); [done | done | done | done | lia |].
    simpl. rewrite store_Some by lia. simpl.
    rewrite store_Some by lia. simpl.
    eexists. split; [done|]. unfold P; simpl.
    rewrite !length_insert. split_and!; try done.
    intros x' Hx'.
    rewrite (load_store (row_tmp0 b) (<[Z.to_nat x := s0]> (row_tmp0 b))
               x s0) by (apply store_Some; lia).
    rewrite (load_store (row_tmp1 b) (<[Z.to_nat x := s1]> (row_tmp1 b))
               x s1) by (apply store_Some; lia).
    destruct (decide (x' = x)) as [->|Hne]; [by rewrite E0, E1|].
    apply Hc. lia.
  - exists b'. split; [done|]. destruct HP as (Hl0 & Hl1 & Hv & Hc).
    split_and!; try done. intros x Hx. apply Hc. lia.
Qed.

Lemma wf_emit_strip_spec rx st W d bufs out :
  0 ≤ W → 0 ≤ out →
  out + 14 * W ≤ Z.of_nat (length (vtx bufs)) →
  (∀ x, 0 ≤ x < W → is_Some (load (row_tmp0 bufs) x)
                    ∧ is_Some (load (row_tmp1 bufs) x)) →
  ∃ v,
    wf_emit_strip rx st W d (bufs, out)
    = Some (mkBuffers (row_tmp0 bufs) (row_tmp1 bufs) v, out + 14 * W)
    ∧ length v = length (vtx bufs)
    ∧ (∀ x s0 s1 k, 0 ≤ x < W → 0 ≤ k < 14 →
         load (row_tmp0 bufs) x = Some s0 →
         load (row_tmp1 bufs) x = Some s1 →
         load v (out + 14 * x + k)
         = wf_strip_vertex rx st W d x s0 s1 !! Z.to_nat k)
    ∧ ∀ j, ¬ (out ≤ j < out + 14 * W) → load v j = load (vtx bufs) j.
Proof.
  intros HW Hout Hlen Htmp. unfold wf_emit_strip, for_range.
  pose (P := λ (x : Z) (s : RenderBuffers * Z),
    row_tmp0 s.1 = row_tmp0 bufs ∧ row_tmp1 s.1 = row_tmp1 bufs
    ∧ s.2 = out + 14 * x
    ∧ length (vtx s.1) = length (vtx bufs)
    ∧ (∀ x' s0 s1 k, 0 ≤ x' < x → 0 ≤ k < 14 →
         load (row_tmp0 bufs) x' = Some s0 →
         load (row_tmp1 bufs) x' = Some s1 →
         load (vtx s.1) (out + 14 * x' + k)
         = wf_strip_vertex rx st W d x' s0 s1 !! Z.to_nat k)
    ∧ ∀ j, ¬ (out ≤ j < out + 14 * x) → load (vtx s.1) j = load (vtx bufs) j).
  destruct (for_loop_inv P
              (λ x '(bufs, out),
                 s0 ← load (row_tmp0 bufs) x;
                 s1 ← load (row_tmp1 bufs) x;
                 '(v, out') ← store_seq (vtx bufs) out
                                (wf_strip_vertex rx st W d x s0 s1);
                 Some (mkBuffers (row_tmp0 bufs) (row_tmp1 bufs) v, out'))
              (Z.to_nat (W - 0)) 0 (bufs, out)) as ([b' o'] & Hrun & HP).
  - unfold P; simpl. split_and!; try done; [lia | intros; lia].
  - intros x [b o] Hx (Ht0 & Ht1 & Ho & Hl & Hc & Hrest). simpl in *.
    subst o. rewrite Ht0, Ht1.
    destruct (Htmp x ltac:(lia)) as [[s0 E0] [s1 E1]].
    rewrite E0, E1. simpl.
    destruct (store_seq_spec (wf_strip_vertex rx st W d x s0 s1) (vtx b)
                (out + 14 * x)) as (v & -> & Hlv & Hcv);
      [lia | rewrite wf_strip_vertex_length; lia |].
    rewrite wf_strip_vertex_length in *. simpl.
    eexists. split; [done|]. unfold P; simpl.
    split_and!; [done | done | lia | congruence | |].
    + intros x' s0' s1' k Hx' Hk E0' E1'. rewrite Hcv.
      destruct (decide (x' = x)) as [->|Hne].
      * rewrite decide_True by lia.
        assert (s0' = s0) as -> by congruence.
        assert (s1' = s1) as -> by congruence.
        f_equal. lia.
      * rewrite decide_False by lia. apply Hc; [lia | done..].
    + intros j Hj. rewrite Hcv. rewrite decide_False by lia.
      apply Hrest. lia.
  - destruct HP as (Ht0 & Ht1 & Ho & Hl & Hc & Hrest). simpl in *.
    exists (vtx b'). rewrite Hrun. split_and!.
    + destruct b'. simpl in *. subst. do 2 f_equal. lia.
    + done.
    + intros x s0 s1 k Hx Hk. apply Hc; lia.
    + intros j Hj. apply Hrest. lia.
Qed.

(** X10.  The renderer builds its mesh inside its buffers: for a state
    that passes its tests (more than 2 bins, rows and pixels) every read of
    the history and every write of the scratch rows and of the vertex array
    is in bounds.  It writes [(depth - 1) * W * 2] vertices of 7 floats: the
    fourteen floats of column [x] of the strip of age [d] are at offset
    [(d * W + x) * 14] and come from the cells of the rows of age [d] and
    [d + 1] at the bin of [x].  The last [2 * W] vertices of the array, which
    is sized and uploaded for [depth * W * 2], are not written. *)
Theorem render_mesh_layout rx st W bufs :
  wf_state_ok st → 2 < bins st ≤ 2 ^ 25 → 2 < depth st → 2 < W ≤ INT_MAX →
  W ≤ Z.of_nat (length (row_tmp0 bufs)) →
  W ≤ Z.of_nat (length (row_tmp1 bufs)) →
  depth st * W * 2 * 7 ≤ Z.of_nat (length (vtx bufs)) →
  ∃ bufs',
    wf_build_mesh rx st W bufs = Some (bufs', (depth st - 1) * W * 14)
    ∧ length (vtx bufs') = length (vtx bufs)
    ∧ (∀ d x k, 0 ≤ d < depth st - 1 → 0 ≤ x < W → 0 ≤ k < 14 →
         ∃ s0 s1,
           wf_cell st (wf_row_at_age st d) (wf_resample_bin W (bins st) x)
           = Some s0
           ∧ wf_cell st (wf_row_at_age st (d + 1))
               (wf_resample_bin W (bins st) x) = Some s1
           ∧ load (vtx bufs') ((d * W + x) * 14 + k)
             = wf_strip_vertex rx st W d x s0 s1 !! Z.to_nat k)
    ∧ ∀ j, (depth st - 1) * W * 14 ≤ j →
        load (vtx bufs') j = load (vtx bufs) j.
Proof.
  intros Hok HB HD HW H0 H1 Hv. unfold INT_MAX in HW.
  assert (2 ≤ W ≤ 2 ^ 31) as HW' by lia.
  assert (2 ≤ bins st ≤ 2 ^ 25) as HB' by lia.
  unfold wf_build_mesh, for_range.
  pose (Q := λ (d : Z) (s : RenderBuffers * Z),
    s.2 = d * W * 14
    ∧ length (row_tmp0 s.1) = length (row_tmp0 bufs)
    ∧ length (row_tmp1 s.1) = length (row_tmp1 bufs)
    ∧ length (vtx s.1) = length (vtx bufs)
    ∧ (∀ d' x k s0 s1, 0 ≤ d' < d → 0 ≤ x < W → 0 ≤ k < 14 →
         wf_cell st (wf_row_at_age st d') (wf_resample_bin W (bins st) x)
         = Some s0 →
         wf_cell st (wf_row_at_age st (d' + 1))
           (wf_resample_bin W (bins st) x) = Some s1 →
         load (vtx s.1) ((d' * W + x) * 14 + k)
         = wf_strip_vertex rx st W d' x s0 s1 !! Z.to_nat k)
    ∧ ∀ j, d * W * 14 ≤ j → load (vtx s.1) j = load (vtx bufs) j).
  destruct (for_loop_inv Q
              (λ d '(bufs, out),
                 bufs ← wf_resample_strip st W d bufs;
                 wf_emit_strip rx st W d (bufs, out))
              (Z.to_nat (depth st - 1 - 0)) 0 (bufs, 0))
    as ([b' o'] & Hrun & HQ).
  - unfold Q; simpl. split_and!; try done. intros; lia.
  - intros d [b o] Hd (Ho & Hl0 & Hl1 & Hlv & Hc & Hrest). simpl in *.
    subst o.
    destruct (wf_resample_strip_spec st W d b)
      as (b1 & -> & Hl0' & Hl1' & Hv1 & Hload); [done | done | done | lia
      | lia | lia |].
    simpl.
    destruct (wf_emit_strip_spec rx st W d b1 (d * W * 14))
      as (v & -> & Hlv' & Hcv & Hrv); [lia | nia | rewrite Hv1; nia | |].
    { intros x Hx. destruct (Hload x Hx) as [-> ->].
      destruct (wf_resample_pair_is_Some st W d x)
        as (s0 & s1 & _ & -> & ->); [done | done | done | lia | done |].
      by split. }
    eexists. split; [done|]. unfold Q; simpl.
    split_and!; [lia | congruence | congruence | congruence | |].
    + intros d' x k s0 s1 Hd' Hx Hk E0 E1.
      destruct (decide (d' = d)) as [->|Hne].
      * replace ((d * W + x) * 14 + k) with (d * W * 14 + 14 * x + k)
          by lia.
        apply Hcv; [done | done | |].
        -- by rewrite (proj1 (Hload x Hx)).
        -- by rewrite (proj2 (Hload x Hx)).
      * rewrite Hrv by nia. rewrite Hv1. apply Hc; [lia | done..].
    + intros j Hj. rewrite Hrv by nia. rewrite Hv1. apply Hrest. nia.
  - destruct HQ as (Ho & Hl0 & Hl1 & Hlv & Hc & Hrest). simpl in *.
    exists b'. rewrite Hrun. split_and!.
    + do 2 f_equal. lia.
    + done.
    + intros d x k Hd Hx Hk.
      destruct (wf_resample_pair_is_Some st W d x)
        as (s0 & s1 & _ & E0 & E1); [done | done | done | lia | done |].
      exists s0, s1. split_and!; [done | done |].
      apply Hc; [lia | done..].
    + intros j Hj. apply Hrest. lia.
Qed.

Transparent wf_strip_vertex.

Lemma render_mesh_layout_witness :
  let st := mkState 3 3 0 (Some (replicate 9 FLOOR_DB)) F32.zero F32.zero
              false F64.zero F32.zero 0 0 0 0 in
  let bufs := mkBuffers (replicate 3 F32.zero) (replicate 3 F32.zero)
                (replicate 126 F32.zero) in
  ∃ bufs',
    wf_build_mesh fresh_rx st 3 bufs = Some (bufs', (depth st - 1) * 3 * 14)
    ∧ length (vtx bufs') = length (vtx bufs)
    ∧ (∀ d x k, 0 ≤ d < depth st - 1 → 0 ≤ x < 3 → 0 ≤ k < 14 →
         ∃ s0 s1,
           wf_cell st (wf_row_at_age st d) (wf_resample_bin 3 (bins st) x)
           = Some s0
           ∧ wf_cell st (wf_row_at_age st (d + 1))
               (wf_resample_bin 3 (bins st) x) = Some s1
           ∧ load (vtx bufs') ((d * 3 + x) * 14 + k)
             = wf_strip_vertex fresh_rx st 3 d x s0 s1 !! Z.to_nat k)
    ∧ ∀ j, (depth st - 1) * 3 * 14 ≤ j →
        load (vtx bufs') j = load (vtx bufs) j.
Proof.
  refine (render_mesh_layout fresh_rx
            (mkState 3 3 0 (Some (replicate 9 FLOOR_DB)) F32.zero F32.zero
               false F64.zero F32.zero 0 0 0 0) 3
            (mkBuffers (replicate 3 F32.zero) (replicate 3 F32.zero)
               (replicate 126 F32.zero)) _ _ _ _ _ _ _).
  - exists (replicate 9 FLOOR_DB). split; [|simpl; lia].
    unfold wf_allocated. simpl. split_and!; [reflexivity | lia..].
  - simpl. lia.
  - simpl. lia.
  - unfold INT_MAX. lia.
  - simpl. lia.
  - simpl. lia.
  - simpl. lia.
Defined.

(** X11.  The strips drawn are the strips written: strip [s] draws the
    [2 * W] vertices from [s * 2 * W], so the [depth - 1] draw calls cover
    the vertices of the mesh and none of the unwritten ones behind them. *)
Theorem draw_calls_cover_mesh D W :
  1 ≤ D → 0 ≤ W →
  wf_draw_strips D W = Some ((λ s, (s * (W * 2), W * 2)) <$> seqZ 0 (D - 1))
  ∧ ∀ first count,
      (first, count) ∈ (λ s, (s * (W * 2), W * 2)) <$> seqZ 0 (D - 1) →
      0 ≤ first ∧ first + count ≤ (D - 1) * W * 2.
Proof.
  intros HD HW. split.
  - unfold wf_draw_strips, for_range.
    pose (P := λ (s : Z) (st : Z * list (Z * Z)),
      st.1 = s * (W * 2)
      ∧ st.2 = (λ s, (s * (W * 2), W * 2)) <$> seqZ 0 s).
    destruct (for_loop_inv P
                (λ s '(base, calls),
                   Some (base + W * 2, calls ++ [(base, W * 2)]))
                (Z.to_nat (D - 1 - 0)) 0 (0, [])) as ([b c] & -> & Hb & Hc).
    + by unfold P.
    + intros s [b c] Hs [Hb Hc]. simpl in *. subst.
      eexists. split; [done|]. unfold P; simpl. split; [lia|].
      rewrite seqZ_app by lia. rewrite fmap_app. simpl.
      do 2 f_equal.
    + simpl in *. subst. do 2 f_equal. f_equal. lia.
  - intros first count (s & [= -> ->] & Hs%elem_of_seqZ)%list_elem_of_fmap.
    nia.
Qed.

Lemma draw_calls_cover_mesh_witness :
  wf_draw_strips 4 3 = Some [(0, 6); (6, 6); (12, 6)].
Proof.
  refine (proj1 (draw_calls_cover_mesh 4 3 _ _)); lia.
Defined.

(** ** The grid *)

Lemma store_seq_tail {A : Type} (vs : list A) (a : list A) out n :
  0 ≤ out → Z.of_nat (length vs) = n → out + n ≤ Z.of_nat (length a) →
  ∃ a', store_seq a out vs = Some (a', out + n)
        ∧ length a' = length a
        ∧ ∀ j, out + n ≤ j → load a' j = load a j.
Proof.
  intros Hout <- Hlen.
  destruct (store_seq_spec vs a out Hout Hlen) as (a' & Hrun & Hl & Hc).
  exists a'. split_and!; [done..|].
  intros j Hj. rewrite Hc. by rewrite decide_False by lia.
Qed.

(** A loop that writes [k] floats per round at the write pointer. *)
Lemma for_range_append (body : Z → list float32 * Z → option (list float32 * Z))
    k n a out :
  0 ≤ n → 0 ≤ out → 0 ≤ k →
  out + k * n ≤ Z.of_nat (length a) →
  (∀ i b o, 0 ≤ o → o + k ≤ Z.of_nat (length b) →
     ∃ b', body i (b, o) = Some (b', o + k) ∧ length b' = length b
           ∧ ∀ j, o + k ≤ j → load b' j = load b j) →
  ∃ a',
    for_range 0 n body (a, out) = Some (a', out + k * n)
    ∧ length a' = length a
    ∧ ∀ j, out + k * n ≤ j → load a' j = load a j.
Proof.
  intros Hn Hout Hk Hlen Hbody. unfold for_range.
  pose (P := λ (i : Z) (s : list float32 * Z),
    s.2 = out + k * i ∧ length s.1 = length a
    ∧ ∀ j, out + k * i ≤ j → load s.1 j = load a j).
  destruct (for_loop_inv P body (Z.to_nat (n - 0)) 0 (a, out))
    as ([a' o'] & Hrun & HP).
  - unfold P; simpl. split_and!; [lia | done | done].
  - intros i [b o] Hi (Ho & Hl & Hc). simpl in *. subst o.
    destruct (Hbody i b (out + k * i)) as (b' & -> & Hl' & Hc'); [nia | nia |].
    eexists. split; [done|]. unfold P; simpl.
    split_and!; [lia | congruence |].
    intros j Hj. rewrite Hc' by lia. apply Hc. lia.
  - destruct HP as (Ho & Hl & Hc). simpl in *. subst o'.
    exists a'. rewrite Hrun. split_and!; [do 2 f_equal; lia | done |].
    intros j Hj. apply Hc. lia.
Qed.

Ltac store_seq_step b' Hl Hc :=
  cbv beta iota; cbn [mbind option_bind];
  match goal with
  | |- context [store_seq ?b ?o ?vs] =>
      destruct (store_seq_tail vs b o 7) as (b' & -> & Hl & Hc);
      [lia | done | lia |]
  end.

(** X12.  [build_grid] stays inside its allocation whatever the tilt is:
    of the 78 vertices allocated it writes 74, two for each of the 20
    vertical, 15 horizontal and 2 border lines, and these 518 floats are
    what it uploads. *)
Theorem build_grid_fits st grid_data :
  Z.of_nat (length grid_data) = grid_max_verts * 7 →
  ∃ grid_data',
    build_grid st grid_data = Some (grid_data', 518, 74)
    ∧ 74 = 2 * (N_VLINES + N_HLINES + 2) ∧ 74 ≤ grid_max_verts
    ∧ length grid_data' = length grid_data
    ∧ ∀ j, 518 ≤ j → load grid_data' j = load grid_data j.
Proof.
  intros Hlen. unfold grid_max_verts, N_VLINES, N_HLINES in Hlen.
  unfold build_grid. cbv zeta.
  match goal with
  | |- context [for_range 0 N_VLINES ?body (grid_data, 0)] =>
      destruct (for_range_append body 14 N_VLINES grid_data 0)
        as (a1 & -> & Hl1 & Hc1)
  end; [done | done | done | unfold N_VLINES; lia | |].
  { intros i b o Ho Hb.
    store_seq_step b1 Hlb1 Hcb1. store_seq_step b2 Hlb2 Hcb2.
    exists b2. split_and!; [do 2 f_equal; lia | congruence |].
    intros j Hj. rewrite Hcb2, Hcb1 by lia. done. }
  cbn [mbind option_bind].
  match goal with
  | |- context [for_range 0 N_HLINES ?body (a1, ?o)] =>
      destruct (for_range_append body 14 N_HLINES a1 o)
        as (a2 & -> & Hl2 & Hc2)
  end; [done | done | done | unfold N_VLINES, N_HLINES; lia | |].
  { intros i b o Ho Hb.
    store_seq_step b1 Hlb1 Hcb1. store_seq_step b2 Hlb2 Hcb2.
    exists b2. split_and!; [do 2 f_equal; lia | congruence |].
    intros j Hj. rewrite Hcb2, Hcb1 by lia. done. }
  unfold N_VLINES, N_HLINES in *.
  store_seq_step a3 Hl3 Hc3. store_seq_step a4 Hl4 Hc4.
  store_seq_step a5 Hl5 Hc5. store_seq_step a6 Hl6 Hc6.
  cbv beta iota. cbn [mbind option_bind].
  exists a6. split_and!; [done | done | done | congruence |].
  intros j Hj. rewrite Hc6, Hc5, Hc4, Hc3, Hc2, Hc1 by lia. done.
Qed.

Lemma build_grid_fits_witness :
  ∃ grid_data',
    build_grid fresh_state (replicate 546 F32.zero)
    = Some (grid_data', 518, 74)
    ∧ 74 = 2 * (N_VLINES + N_HLINES + 2) ∧ 74 ≤ grid_max_verts
    ∧ length grid_data' = length (replicate 546 F32.zero)
    ∧ ∀ j, 518 ≤ j →
        load grid_data' j = load (replicate 546 F32.zero) j.
Proof.
  refine (build_grid_fits fresh_state (replicate 546 F32.zero) _).
  rewrite length_replicate. reflexivity.
Defined.

(** ** A display without buffer *)

(** X13.  A display state created while the receiver has no pixels has no
    buffer, since an allocation of zero bytes gives none, and never gets
    one: every later tick returns at its first test, before the test that
    would allocate, and queues no redraw. *)
Theorem zero_pixels_display_stays_blank rx ticks :
  pixels rx = 0 →
  ∃ st,
    waterfall3dss_init rx = Some st ∧ history st = None
    ∧ wf_ticks ticks st = Some (st, replicate (length ticks) false).
Proof.
  intros Hp. unfold waterfall3dss_init, g_malloc0. rewrite Hp.
  rewrite decide_True by lia. eexists. split; [done|]. split; [done|].
  induction ticks as [|[host rx'] ticks IH]; [done|].
  simpl. by rewrite IH.
Qed.

Lemma zero_pixels_display_stays_blank_witness :
  ∃ st,
    waterfall3dss_init
      (mkRx 1 0 0 48000 0 0 (-100) (-50) false 0 [] true) = Some st
    ∧ history st = None
    ∧ wf_ticks [(demo_host_steady, demo_rx); (demo_host_retuned, demo_rx)] st
      = Some (st, replicate 2 false).
Proof.
  refine (zero_pixels_display_stays_blank
            (mkRx 1 0 0 48000 0 0 (-100) (-50) false 0 [] true)
            [(demo_host_steady, demo_rx); (demo_host_retuned, demo_rx)] _).
  reflexivity.
Defined.

(** ** Runs of ticks *)

Lemma waterfall3dss_update_safe host rx st :
  wf_state_ok st → rx_samples_ok rx →
  INT_MIN ≤ update_count st < INT_MAX →
  ∃ rx' st' redraw,
    waterfall3dss_update host rx st = Some (rx', st', redraw)
    ∧ wf_state_ok st' ∧ depth st' = depth st
    ∧ update_count st ≤ update_count st' ≤ update_count st + 1.
Proof.
  intros Hok Hrx Hc. pose proof Hok as (h & (Hh & _) & _).
  destruct (decide (2 < wf_screen_width host)) as [Hw|Hw].
  - rewrite (waterfall3dss_update_unfold host rx st h) by done.
    destruct (wf_sync_view_ok (wf_screen_width host) rx st Hok)
      as (st1 & -> & Hok1 & Hb1 & Hd1 & Hc1 & _); [lia|].
    simpl.
    destruct (wf_handle_frequency_ok host rx st1 Hok1)
      as (st2 & -> & Hok2 & Hb2 & Hd2 & Hc2 & _).
    simpl.
    destruct (wf_store_row_ok rx st2 Hok2 Hrx)
      as (st3 & -> & Hok3 & Hb3 & Hd3 & Hc3 & _); [lia|].
    simpl. eexists _, _, _. split; [done|].
    split_and!; [done | congruence | lia..].
  - unfold waterfall3dss_update. rewrite Hh.
    rewrite decide_True by lia.
    eexists _, _, _. split; [done|]. split_and!; try done; lia.
Qed.

(** X14.  A run of ticks, each with its own width, zoom, pan, frequency and
    samples, never reads or writes outside the history buffer or a sample
    array as long as the update counter cannot overflow: every tick
    returns, and the run leaves a buffer of [depth * bins] cells with
    [head] the index of a row, the depth it started with and a counter
    that went up by at most one per tick. *)
Theorem ticks_keep_state_ok ticks st :
  wf_state_ok st →
  Forall (λ t, rx_samples_ok t.2) ticks →
  INT_MIN ≤ update_count st →
  update_count st + Z.of_nat (length ticks) ≤ INT_MAX →
  ∃ st' redraws,
    wf_ticks ticks st = Some (st', redraws)
    ∧ wf_state_ok st' ∧ depth st' = depth st
    ∧ length redraws = length ticks
    ∧ update_count st ≤ update_count st'
      ≤ update_count st + Z.of_nat (length ticks).
Proof.
  intros Hok Hrx. revert st Hok.
  induction Hrx as [|[host rx] ticks Hrx _ IH]; intros st Hok Hlo Hhi.
  - eexists _, _. split; [done|]. simpl. split_and!; try done; lia.
  - simpl in Hhi, Hrx.
    destruct (waterfall3dss_update_safe host rx st Hok Hrx)
      as (rx' & st1 & redraw & Hu & Hok1 & Hd1 & Hc1); [lia|].
    destruct (IH st1 Hok1) as (st2 & redraws & Ht & Hok2 & Hd2 & Hl2 & Hc2);
      [lia..|].
    simpl. rewrite Hu. simpl. rewrite Ht. simpl.
    eexists _, _. split; [done|].
    split_and!; [done | congruence | simpl; congruence | lia..].
Qed.

Lemma ticks_keep_state_ok_witness :
  ∃ st' redraws,
    wf_ticks [(demo_host_retuned, demo_rx); (demo_host_steady, demo_rx)]
      demo_state = Some (st', redraws)
    ∧ wf_state_ok st' ∧ depth st' = 2
    ∧ length redraws = 2%nat
    ∧ 0 ≤ update_count st' ≤ 0 + 2.
Proof.
  refine (ticks_keep_state_ok
            [(demo_host_retuned, demo_rx); (demo_host_steady, demo_rx)]
            demo_state _ _ _ _).
  - exists (F32.of_Z <$> seqZ 1 20). split; [|simpl; lia].
    unfold wf_allocated. simpl. split_and!; [reflexivity | lia..].
  - repeat constructor; unfold rx_samples_ok; simpl; lia.
  - unfold INT_MIN. simpl. lia.
  - unfold INT_MAX. simpl. lia.
Defined.

(** ** The 2D waterfall *)

Lemma load_memset {A : Type} (a a' : list A) dst v n j :
  memset a dst v n = Some a' →
  length a' = length a
  ∧ load a' j = if decide (dst ≤ j < dst + n) then Some v else load a j.
Proof.
  unfold memset. case_decide as Hb; [|done]. intros [= <-].
  destruct Hb as (Hn & Hd & Hdn).
  split.
  - rewrite !length_app, length_take, length_replicate, length_drop. lia.
  - unfold load. destruct (decide (dst ≤ j < dst + n)) as [Hj|Hj].
    + rewrite decide_True by lia.
      rewrite lookup_app_r by (rewrite length_take; lia).
      rewrite length_take, lookup_app_l by (rewrite length_replicate; lia).
      apply lookup_replicate_2. lia.
    + case_decide as Hj0; [|done].
      destruct (decide (j < dst)).
      * rewrite lookup_app_l by (rewrite length_take; lia).
        by rewrite lookup_take_lt by lia.
      * rewrite lookup_app_r by (rewrite length_take; lia).
        rewrite length_take.
        rewrite lookup_app_r by (rewrite length_replicate; lia).
        rewrite length_replicate, lookup_drop. f_equal. lia.
Qed.

Lemma memset_is_Some {A : Type} (a : list A) dst v n :
  0 ≤ n → 0 ≤ dst → dst + n ≤ Z.of_nat (length a) →
  ∃ a', memset a dst v n = Some a'.
Proof. intros. unfold memset. rewrite decide_True by done. by eexists. Qed.

Lemma mod_row j i S : 0 ≤ j - i * S < S → j `mod` S = j - i * S.
Proof. intros H. symmetry. apply Z.mod_unique_pos with i; lia. Qed.

(** The loop that clears [n] bytes at offset [off] of each of the first
    [H] runs of [S] bytes. *)
Lemma for_range_memset {A : Type} (v : A) S off n H (a : list A) :
  0 ≤ H → 0 ≤ off → 0 ≤ n → off + n ≤ S →
  H * S ≤ Z.of_nat (length a) →
  ∃ a', for_range 0 H (λ i a, memset a (i * S + off) v n) a = Some a'
        ∧ length a' = length a
        ∧ ∀ j, load a' j =
               if decide (0 ≤ j < H * S ∧ off ≤ j `mod` S < off + n)
               then Some v else load a j.
Proof.
  intros HH Hoff Hn HS Hlen. unfold for_range.
  destruct (for_loop_inv
              (λ i b, length b = length a
                      ∧ ∀ j, load b j =
                             if decide (0 ≤ j < i * S
                                        ∧ off ≤ j `mod` S < off + n)
                             then Some v else load a j)
              (λ i a, memset a (i * S + off) v n) (Z.to_nat (H - 0)) 0 a)
    as (a' & Hrun & Hl & Hc).
  - split; [done|]. intros j. by rewrite decide_False by lia.
  - intros i b Hi [Hlb Hcb].
    destruct (memset_is_Some b (i * S + off) v n) as [b' Hb']; [nia..|].
    exists b'. split; [done|].
    destruct (load_memset b b' _ _ _ 0 Hb') as [Hl' _].
    split; [congruence|]. intros j.
    destruct (load_memset b b' _ _ _ j Hb') as [_ ->].
    rewrite Hcb.
    destruct (decide (i * S + off ≤ j < i * S + off + n)) as [Hj|Hj].
    + rewrite decide_True; [done|].
      rewrite (mod_row j i S) by lia. nia.
    + destruct (decide (0 ≤ j < i * S ∧ off ≤ j `mod` S < off + n))
        as [Hj1|Hj1].
      * rewrite decide_True; [done|]. nia.
      * rewrite decide_False; [done|].
        intros [Hj2 Hj3]. apply Hj1. split; [|done].
        destruct (decide (j < i * S)); [lia|].
        rewrite (mod_row j i S) in Hj3 by lia. lia.
  - exists a'. split; [done|]. split; [done|].
    intros j. rewrite Hc. by replace (0 + Z.of_nat (Z.to_nat (H - 0))) with H by lia.
Qed.

(** The horizontal shift on a picture whose rows follow each other without
    padding: the byte at [j] of the first [3 * my_width * my_height] comes
    from [3 * rotate_pixels] bytes before it when that is in the same row,
    and is cleared otherwise. *)
Lemma waterfall_shift_spec ws width k (a : list Z) :
  width = my_width ws → 0 < my_width ws → 0 < my_height ws →
  - my_width ws < k < my_width ws →
  3 * my_width ws * my_height ws ≤ Z.of_nat (length a) →
  ∃ a', waterfall_shift ws width k a = Some a'
        ∧ length a' = length a
        ∧ ∀ j, load a' j =
               if decide (0 ≤ j < 3 * my_width ws * my_height ws) then
                 if decide (0 ≤ j `mod` (3 * my_width ws) - 3 * k
                            < 3 * my_width ws)
                 then load a (j - 3 * k) else Some 0
               else load a j.
Proof.
  intros -> Hw Hh Hk Hlen. unfold waterfall_shift.
  set (w := my_width ws) in *. set (h := my_height ws) in *.
  assert (∀ j, 0 ≤ j < 3 * w * h →
               0 ≤ j `mod` (3 * w) < 3 * w
               ∧ j = 3 * w * (j / (3 * w)) + j `mod` (3 * w)
               ∧ 0 ≤ j / (3 * w) < h) as Hdm.
  { intros j Hj. pose proof (Z.mod_pos_bound j (3 * w) ltac:(lia)).
    pose proof (Z.div_mod j (3 * w) ltac:(lia)).
    split_and!; [lia | lia | lia | nia | nia]. }
  destruct (decide (k < 0)) as [Hneg|Hneg].
  - destruct (memmove_is_Some a 0 (- k * 3) ((w * h + k) * 3)) as [a1 Ha1];
      [nia..|].
    rewrite Ha1. simpl.
    destruct (for_range_memset 0 (3 * w) ((w + k) * 3) (- k * 3) h a1)
      as (a' & Hrun & Hl & Hc); [lia | lia | lia | lia | |].
    { destruct (load_memmove a a1 _ _ _ 0 Ha1) as [-> _]. lia. }
    exists a'. split.
    { rewrite <- Hrun. unfold for_range. apply for_loop_ext.
      intros i b. f_equal. lia. }
    destruct (load_memmove a a1 _ _ _ 0 Ha1) as [Hl1 _].
    split; [congruence|]. intros j. rewrite Hc.
    destruct (load_memmove a a1 _ _ _ j Ha1) as [_ ->].
    destruct (decide (0 ≤ j < 3 * w * h)) as [Hj|Hj].
    + destruct (Hdm j Hj) as (Hm & Hq & Hd).
      destruct (decide (0 ≤ j `mod` (3 * w) - 3 * k < 3 * w)) as [Hc1|Hc1].
      * rewrite decide_False by lia.
        rewrite decide_True by nia. f_equal. lia.
      * rewrite decide_True; [done|]. split; [lia|]. lia.
    + rewrite decide_False by lia.
      destruct (decide (0 ≤ j < 0 + (w * h + k) * 3)); [lia|done].
  - destruct (decide (k > 0)) as [Hpos|Hpos].
    + destruct (memmove_is_Some a (k * 3) 0 ((w * h - k) * 3)) as [a1 Ha1];
        [nia..|].
      rewrite Ha1. simpl.
      destruct (for_range_memset 0 (3 * w) 0 (k * 3) h a1)
        as (a' & Hrun & Hl & Hc); [lia | lia | lia | lia | |].
      { destruct (load_memmove a a1 _ _ _ 0 Ha1) as [-> _]. lia. }
      exists a'. split.
      { rewrite <- Hrun. unfold for_range. apply for_loop_ext.
        intros i b. f_equal. lia. }
      destruct (load_memmove a a1 _ _ _ 0 Ha1) as [Hl1 _].
      split; [congruence|]. intros j. rewrite Hc.
      destruct (load_memmove a a1 _ _ _ j Ha1) as [_ ->].
      destruct (decide (0 ≤ j < 3 * w * h)) as [Hj|Hj].
      * destruct (Hdm j Hj) as (Hm & Hq & Hd).
        destruct (decide (0 ≤ j `mod` (3 * w) - 3 * k < 3 * w)) as [Hc1|Hc1].
        -- rewrite decide_False by lia.
           rewrite decide_True by nia. f_equal. lia.
        -- rewrite decide_True; [done|]. split; [lia|]. lia.
      * rewrite decide_False by lia.
        destruct (decide (k * 3 ≤ j < k * 3 + (w * h - k) * 3)); [lia|done].
    + exists a. split; [done|]. split; [done|]. intros j.
      assert (k = 0) as -> by lia.
      destruct (decide (0 ≤ j < 3 * w * h)) as [Hj|Hj]; [|done].
      destruct (Hdm j Hj) as (Hm & Hq & Hd).
      rewrite decide_True by lia. f_equal. lia.
Qed.

Lemma waterfall_pixel_length wf_low wf_high rangei sample :
  length (waterfall_pixel wf_low wf_high rangei sample) = 3%nat.
Proof. unfold waterfall_pixel. by repeat case_match. Qed.

Lemma waterfall_pixel_byte wf_low wf_high rangei sample ch b :
  waterfall_pixel wf_low wf_high rangei sample !! ch = Some b → 0 ≤ b < 256.
Proof.
  unfold waterfall_pixel, uchar. intros H.
  assert (∀ z, 0 ≤ z `mod` 256 < 256) as Hm
    by (intros z; apply Z.mod_pos_bound; lia).
  repeat case_match;
    (destruct ch as [|[|[|ch]]]; simpl in H; [| | |done];
     injection H as <-; apply Hm).
Qed.

Lemma waterfall_thresholds_is_Some rx width soffset :
  0 ≤ width ≤ Z.of_nat (length (pixel_samples rx)) →
  ∃ wf_low wf_high,
    waterfall_thresholds rx width soffset = Some (wf_low, wf_high).
Proof.
  intros Hw. unfold waterfall_thresholds, for_range.
  destruct (waterfall_automatic rx); [|by eexists _, _].
  rewrite for_loop_sum by lia. simpl. by eexists _, _.
Qed.

(** The new row: every row moves down by one, the last one is lost, and
    the first [3 * width] bytes of the first row are the colours of the
    samples from [pan] on. *)
Lemma waterfall_draw_row_spec soffset rx pb (a : list Z) :
  0 < gdk_pixbuf_get_width pb → 0 < gdk_pixbuf_get_height pb →
  3 * gdk_pixbuf_get_width pb ≤ gdk_pixbuf_get_rowstride pb →
  Z.of_nat (length a)
  = gdk_pixbuf_get_height pb * gdk_pixbuf_get_rowstride pb →
  rx_row_ok rx (gdk_pixbuf_get_width pb) →
  ∃ a' wf_low wf_high,
    waterfall_draw_row soffset rx pb a = Some a'
    ∧ waterfall_thresholds rx (gdk_pixbuf_get_width pb) soffset
      = Some (wf_low, wf_high)
    ∧ length a' = length a
    ∧ (∀ i ch, 0 ≤ i < gdk_pixbuf_get_width pb → 0 ≤ ch < 3 →
         ∃ s, load (pixel_samples rx) (i + pan rx) = Some s
              ∧ load a' (i * 3 + ch)
                = waterfall_pixel wf_low wf_high
                    (F32.div F32.one (F32.sub wf_high wf_low))
                    (F32.add s soffset) !! Z.to_nat ch)
    ∧ (∀ j, 3 * gdk_pixbuf_get_width pb ≤ j < gdk_pixbuf_get_rowstride pb →
            load a' j = load a j)
    ∧ (∀ j, gdk_pixbuf_get_rowstride pb ≤ j
            < gdk_pixbuf_get_height pb * gdk_pixbuf_get_rowstride pb →
            load a' j = load a (j - gdk_pixbuf_get_rowstride pb)).
Proof.
  intros Hw Hh Hrs Hlen [Hpan Hsamples]. unfold waterfall_draw_row.
  set (w := gdk_pixbuf_get_width pb) in *.
  set (h := gdk_pixbuf_get_height pb) in *.
  set (rs := gdk_pixbuf_get_rowstride pb) in *.
  destruct (memmove_is_Some a rs 0 ((h - 1) * rs)) as [a1 Ha1]; [nia..|].
  rewrite Ha1. simpl.
  destruct (load_memmove a a1 _ _ _ 0 Ha1) as [Hl1 _].
  destruct (waterfall_thresholds_is_Some rx w soffset) as (lo & hi & Hth);
    [lia|].
  rewrite Hth. simpl.
  set (rangei := F32.div F32.one (F32.sub hi lo)).
  set (body := λ (i : Z) '(pixels, p),
         load (pixel_samples rx) (i + pan rx)
         ≫= λ s, store_seq pixels p
                   (waterfall_pixel lo hi rangei (F32.add s soffset))).
  unfold for_range.
  destruct (for_loop_inv
              (λ i '(b, p),
                 p = i * 3 ∧ length b = length a
                 ∧ (∀ i' ch, 0 ≤ i' < i → 0 ≤ ch < 3 →
                      ∃ s, load (pixel_samples rx) (i' + pan rx) = Some s
                           ∧ load b (i' * 3 + ch)
                             = waterfall_pixel lo hi rangei (F32.add s soffset)
                               !! Z.to_nat ch)
                 ∧ ∀ j, i * 3 ≤ j → load b j = load a1 j)
              body (Z.to_nat (w - 0)) 0 (a1, 0))
    as ([a' p] & Hrun & Hp & Hl & Hrow & Hrest).
  - split_and!; [done | done | lia | done].
  - intros i [b p] Hi (-> & Hlb & Hrowb & Hrestb). unfold body.
    destruct (lookup_lt_is_Some_2 (pixel_samples rx) (Z.to_nat (i + pan rx)))
      as [s Hs]; [lia|].
    rewrite load_lookup by lia. rewrite Hs. simpl.
    pose proof (waterfall_pixel_length lo hi rangei (F32.add s soffset))
      as Hpl.
    destruct (store_seq_spec
                (waterfall_pixel lo hi rangei (F32.add s soffset)) b (i * 3))
      as (b' & Hst & Hlb' & Hcb'); [lia | rewrite Hpl; nia |].
    exists (b', (i + 1) * 3). split.
    { rewrite Hst, Hpl. do 2 f_equal. lia. }
    split_and!; [done | congruence | |].
    + intros i' ch Hi' Hch. rewrite Hcb', Hpl.
      destruct (decide (i' = i)) as [->|Hne].
      * exists s. rewrite load_lookup by lia. split; [done|].
        rewrite decide_True by lia. f_equal. lia.
      * destruct (Hrowb i' ch) as (s' & Hs' & Hb'); [lia | done |].
        exists s'. split; [done|]. by rewrite decide_False by lia.
    + intros j Hj. rewrite Hcb', Hpl.
      rewrite decide_False by lia. apply Hrestb. lia.
  - exists a', lo, hi.
    rewrite (for_loop_ext _ body); [|by intros i [b q]].
    rewrite Hrun. simpl.
    replace (0 + Z.of_nat (Z.to_nat (w - 0))) with w in * by lia.
    split_and!; [done | done | done | | |].
    + intros i ch Hi Hch. by apply Hrow.
    + intros j Hj. rewrite Hrest by lia.
      destruct (load_memmove a a1 _ _ _ j Ha1) as [_ ->].
      by rewrite decide_False by lia.
    + intros j Hj. rewrite Hrest by lia.
      destruct (load_memmove a a1 _ _ _ j Ha1) as [_ ->].
      rewrite decide_True by lia. f_equal. lia.
Qed.

Lemma pixbuf_byte_set_pixels a pb row col ch :
  pixbuf_byte (set_pixels a pb) row col ch
  = load a (row * gdk_pixbuf_get_rowstride pb + col * 3 + ch).
Proof. done. Qed.

(** What [waterfall_draw_row] leaves, in terms of pixels. *)
Lemma waterfall_draw_row_picture soffset rx pb (a : list Z) :
  0 < gdk_pixbuf_get_width pb → 0 < gdk_pixbuf_get_height pb →
  3 * gdk_pixbuf_get_width pb ≤ gdk_pixbuf_get_rowstride pb →
  Z.of_nat (length a)
  = gdk_pixbuf_get_height pb * gdk_pixbuf_get_rowstride pb →
  rx_row_ok rx (gdk_pixbuf_get_width pb) →
  ∃ a',
    waterfall_draw_row soffset rx pb a = Some a'
    ∧ length a' = length a
    ∧ waterfall_first_row soffset rx (set_pixels a' pb)
    ∧ ∀ row col ch,
        1 ≤ row < gdk_pixbuf_get_height pb →
        0 ≤ col < gdk_pixbuf_get_width pb → 0 ≤ ch < 3 →
        pixbuf_byte (set_pixels a' pb) row col ch
        = pixbuf_byte (set_pixels a pb) (row - 1) col ch.
Proof.
  intros Hw Hh Hrs Hlen Hrow.
  destruct (waterfall_draw_row_spec soffset rx pb a Hw Hh Hrs Hlen Hrow)
    as (a' & lo & hi & Hrun & Hth & Hl & Hfirst & _ & Hdown).
  exists a'. split_and!; [done | done | |].
  - exists lo, hi. split; [done|]. intros col ch Hcol Hch.
    destruct (Hfirst col ch Hcol Hch) as (s & Hs & Hb).
    exists s. split; [done|]. rewrite pixbuf_byte_set_pixels, <- Hb.
    f_equal; lia.
  - intros row col ch Hr Hc Hch. rewrite !pixbuf_byte_set_pixels.
    rewrite Hdown by nia. f_equal; lia.
Qed.

Lemma pixbuf_ok_set_pixels ws pb a :
  pixbuf_ok ws pb → length a = length (gdk_pixbuf_get_pixels pb) →
  pixbuf_ok ws (set_pixels a pb).
Proof.
  intros (Hw & Hh & Hw0 & Hh0 & Hrs & Hlen) Hl.
  unfold pixbuf_ok. simpl. rewrite Hl. done.
Qed.

(** The tracker stays inside the pixel array whatever the frequencies, the
    zoom and the pan values are. *)
Lemma waterfall_track_ok host ws rx pb :
  pixbuf_ok ws pb →
  ∃ a rx' freq_changed,
    waterfall_track host ws rx pb = Some (a, rx', freq_changed)
    ∧ length a = length (gdk_pixbuf_get_pixels pb)
    ∧ pixel_samples (rx_common rx') = pixel_samples (rx_common rx)
    ∧ pan (rx_common rx') = pan (rx_common rx)
    ∧ waterfall_mode rx' = waterfall_mode rx.
Proof.
  intros (Hw & Hh & Hw0 & Hh0 & Hrs & Hlen). unfold waterfall_track.
  assert (∃ a, memset (gdk_pixbuf_get_pixels pb) 0 0
                 (my_width ws * my_height ws * 3) = Some a
               ∧ length a = length (gdk_pixbuf_get_pixels pb)) as Hclear.
  { destruct (memset_is_Some (gdk_pixbuf_get_pixels pb) 0 0
                (my_width ws * my_height ws * 3)) as [a Ha]; [nia..|].
    exists a. split; [done|].
    by destruct (load_memset _ _ _ _ _ 0 Ha) as [-> _]. }
  destruct (decide (_ ∧ _ ∧ _)) as [Hinit|Hinit].
  - destruct (decide (_ ∨ _)) as [Hch|Hch].
    + destruct (decide (_ ∨ _)) as [Hbig|Hsmall].
      * destruct Hclear as (a & -> & Hl). simpl. by eexists _, _, _.
      * destruct (waterfall_shift_spec ws (gdk_pixbuf_get_width pb)
                    (wrap32 (waterfall_rotfreq ws (rx_common rx)
                               (vfo_frequency host)
                             + wrap32 (rx_waterfall_pan rx
                                       - pan (rx_common rx))))
                    (gdk_pixbuf_get_pixels pb))
          as (a & -> & Hl & _); [done | done | done | lia | nia |].
        simpl. destruct (decide (_ ≠ 0)); by eexists _, _, _.
    + by eexists _, _, _.
  - destruct Hclear as (a & -> & Hl). simpl. by eexists _, _, _.
Qed.

(** X15.  The 2D update stays inside the pixel array and the sample array
    for every frequency, zoom and pan: with a pixbuf of [my_width] by
    [my_height] pixels and samples for the columns of a row, it returns,
    and the pixbuf keeps its size.  Here a conversion to [int] of a value
    out of range gives [INT_MIN] and sums of [int] wrap around, so the
    shift in pixels can be any [int]. *)
Theorem waterfall_2d_in_bounds soffset host ws rx pb :
  pixbuf_ok ws pb → rx_row_ok (rx_common rx) (my_width ws) →
  ∃ rx' pb',
    waterfall_update_2d soffset host ws rx pb = Some rx'
    ∧ pixbuf rx' = Some pb' ∧ pixbuf_ok ws pb'
    ∧ gdk_pixbuf_get_rowstride pb' = gdk_pixbuf_get_rowstride pb
    ∧ pixel_samples (rx_common rx') = pixel_samples (rx_common rx)
    ∧ pan (rx_common rx') = pan (rx_common rx).
Proof.
  intros Hpb Hrow. unfold waterfall_update_2d.
  destruct (waterfall_track_ok host ws rx pb Hpb)
    as (a & rx' & fc & -> & Hl & Hs & Hp & _).
  simpl. pose proof Hpb as (Hw & Hh & Hw0 & Hh0 & Hrs & Hlen).
  destruct fc.
  - simpl. eexists _, _. split; [done|]. simpl.
    split_and!; [done | by apply pixbuf_ok_set_pixels | done..].
  - destruct (waterfall_draw_row_picture soffset (rx_common rx) pb a)
      as (a' & -> & Hl' & _); [lia | lia | lia | | by rewrite Hw |].
    { rewrite Hl, Hlen, Hh. done. }
    simpl. eexists _, _. split; [done|]. simpl.
    split_and!; [done | apply pixbuf_ok_set_pixels; [done | congruence]
                | done..].
Qed.

Lemma waterfall_2d_in_bounds_witness :
  ∃ rx' pb',
    waterfall_update_2d F32.zero demo_host_retuned (mkStatics 4 2)
      (mkRx2D demo_rx 0 None 1 0) (mkPixbuf (replicate 24 7) 4 2 12)
    = Some rx'
    ∧ pixbuf rx' = Some pb' ∧ pixbuf_ok (mkStatics 4 2) pb'
    ∧ gdk_pixbuf_get_rowstride pb' = 12
    ∧ pixel_samples (rx_common rx') = pixel_samples demo_rx
    ∧ pan (rx_common rx') = pan demo_rx.
Proof.
  refine (waterfall_2d_in_bounds F32.zero demo_host_retuned (mkStatics 4 2)
            (mkRx2D demo_rx 0 None 1 0) (mkPixbuf (replicate 24 7) 4 2 12)
            _ _).
  - unfold pixbuf_ok. simpl. lia.
  - unfold rx_row_ok. simpl. lia.
Defined.

(** X16.  A 2D tick without a change of frequency, pan, zoom or sample rate
    moves every row of the picture down by one, drops the last row and
    draws the samples of the tick, from [pan] on, into the first row; the
    receiver keeps what it tracks. *)
Theorem waterfall_2d_steady_scroll soffset host ws rx pb :
  pixbuf_ok ws pb → rx_row_ok (rx_common rx) (my_width ws) →
  waterfall_frequency (rx_common rx) ≠ 0 →
  sample_rate (rx_common rx) = waterfall_sample_rate (rx_common rx) →
  zoom (rx_common rx) = rx_waterfall_zoom rx →
  waterfall_frequency (rx_common rx) = vfo_frequency host →
  rx_waterfall_pan rx = pan (rx_common rx) →
  ∃ pb',
    waterfall_update_2d soffset host ws rx pb
    = Some (set_pixbuf (Some pb') rx)
    ∧ pixbuf_ok ws pb'
    ∧ waterfall_first_row soffset (rx_common rx) pb'
    ∧ ∀ row col ch,
        1 ≤ row < my_height ws → 0 ≤ col < my_width ws → 0 ≤ ch < 3 →
        pixbuf_byte pb' row col ch = pixbuf_byte pb (row - 1) col ch.
Proof.
  intros Hpb Hrow Hf Hsr Hz Hv Hp.
  pose proof Hpb as (Hw & Hh & Hw0 & Hh0 & Hrs & Hlen).
  unfold waterfall_update_2d, waterfall_track.
  rewrite decide_True by done. rewrite decide_False by tauto. simpl.
  destruct (waterfall_draw_row_picture soffset (rx_common rx) pb
              (gdk_pixbuf_get_pixels pb))
    as (a' & -> & Hl' & Hfirst & Hdown);
    [lia | lia | lia | by rewrite Hlen, Hh | by rewrite Hw |].
  simpl. exists (set_pixels a' pb).
  split_and!; [done | by apply pixbuf_ok_set_pixels | done |].
  intros row col ch Hr Hc Hch. rewrite Hdown by lia. done.
Qed.

Lemma waterfall_2d_steady_scroll_witness :
  ∃ pb',
    waterfall_update_2d F32.zero demo_host_steady (mkStatics 4 2)
      (mkRx2D demo_rx 0 None 1 0) (mkPixbuf (seqZ 1 24) 4 2 12)
    = Some (set_pixbuf (Some pb') (mkRx2D demo_rx 0 None 1 0))
    ∧ pixbuf_ok (mkStatics 4 2) pb'
    ∧ waterfall_first_row F32.zero demo_rx pb'
    ∧ ∀ row col ch,
        1 ≤ row < 2 → 0 ≤ col < 4 → 0 ≤ ch < 3 →
        pixbuf_byte pb' row col ch
        = pixbuf_byte (mkPixbuf (seqZ 1 24) 4 2 12) (row - 1) col ch.
Proof.
  refine (waterfall_2d_steady_scroll F32.zero demo_host_steady
            (mkStatics 4 2) (mkRx2D demo_rx 0 None 1 0)
            (mkPixbuf (seqZ 1 24) 4 2 12) _ _ _ _ _ _ _).
  - unfold pixbuf_ok. simpl. lia.
  - unfold rx_row_ok. simpl. lia.
  - simpl. lia.
  - reflexivity.
  - reflexivity.
  - reflexivity.
  - reflexivity.
Defined.

(** The picture after it has been cleared and a row has been drawn: the
    new row on top, and below it the cleared bytes one row further down.
    Bytes behind the first [3 * my_width * my_height] are not cleared. *)
Lemma waterfall_clear_draw soffset ws rx pb :
  pixbuf_ok ws pb → rx_row_ok rx (my_width ws) →
  ∃ a a',
    memset (gdk_pixbuf_get_pixels pb) 0 0 (my_width ws * my_height ws * 3)
    = Some a
    ∧ waterfall_draw_row soffset rx pb a = Some a'
    ∧ pixbuf_ok ws (set_pixels a' pb)
    ∧ waterfall_first_row soffset rx (set_pixels a' pb)
    ∧ ∀ row col ch,
        1 ≤ row < my_height ws → 0 ≤ col < my_width ws → 0 ≤ ch < 3 →
        pixbuf_byte (set_pixels a' pb) row col ch
        = if decide ((row - 1) * gdk_pixbuf_get_rowstride pb + col * 3 + ch
                     < 3 * my_width ws * my_height ws)
          then Some 0 else pixbuf_byte pb (row - 1) col ch.
Proof.
  intros Hpb Hrow.
  pose proof Hpb as (Hw & Hh & Hw0 & Hh0 & Hrs & Hlen).
  destruct (memset_is_Some (gdk_pixbuf_get_pixels pb) 0 0
              (my_width ws * my_height ws * 3)) as [a Ha]; [nia..|].
  destruct (load_memset _ _ _ _ _ 0 Ha) as [Hl _].
  destruct (waterfall_draw_row_picture soffset rx pb a)
    as (a' & Hrun & Hl' & Hfirst & Hdown);
    [lia | lia | lia | by rewrite Hl, Hlen, Hh | by rewrite Hw |].
  exists a, a'.
  split_and!; [done | done | apply pixbuf_ok_set_pixels; [done|congruence]
              | done |].
  intros row col ch Hr Hc Hch. rewrite Hdown by lia.
  rewrite pixbuf_byte_set_pixels.
  destruct (load_memset _ _ _ _ _
              ((row - 1) * gdk_pixbuf_get_rowstride pb + col * 3 + ch) Ha)
    as [_ ->].
  destruct (decide (_ < 3 * _ * _)) as [Hin|Hout].
  - rewrite decide_True; [done|]. nia.
  - rewrite decide_False; [done|]. lia.
Qed.

(** X17.  When the tracker is not initialised, or the sample rate or the
    zoom has changed, the 2D tick clears the picture, draws the samples of
    the tick into the first row and records the frequency, the sample
    rate, the zoom and the pan.  What it clears are the first
    [3 * my_width * my_height] bytes: the rows below the first are black
    when the rows have no padding, and with padded rows the end of the
    picture keeps what it showed, one row further down. *)
Theorem waterfall_2d_reinit soffset host ws rx pb :
  pixbuf_ok ws pb → rx_row_ok (rx_common rx) (my_width ws) →
  waterfall_frequency (rx_common rx) = 0
  ∨ sample_rate (rx_common rx) ≠ waterfall_sample_rate (rx_common rx)
  ∨ zoom (rx_common rx) ≠ rx_waterfall_zoom rx →
  ∃ rx' pb',
    waterfall_update_2d soffset host ws rx pb = Some rx'
    ∧ pixbuf rx' = Some pb' ∧ pixbuf_ok ws pb'
    ∧ rx_common rx'
      = set_waterfall_tracking (vfo_frequency host)
          (sample_rate (rx_common rx)) (rx_common rx)
    ∧ rx_waterfall_zoom rx' = zoom (rx_common rx)
    ∧ rx_waterfall_pan rx' = pan (rx_common rx)
    ∧ waterfall_first_row soffset (rx_common rx) pb'
    ∧ (∀ row col ch,
         1 ≤ row < my_height ws → 0 ≤ col < my_width ws → 0 ≤ ch < 3 →
         pixbuf_byte pb' row col ch
         = if decide ((row - 1) * gdk_pixbuf_get_rowstride pb + col * 3 + ch
                      < 3 * my_width ws * my_height ws)
           then Some 0 else pixbuf_byte pb (row - 1) col ch)
    ∧ (gdk_pixbuf_get_rowstride pb = 3 * my_width ws →
       ∀ row col ch,
         1 ≤ row < my_height ws → 0 ≤ col < my_width ws → 0 ≤ ch < 3 →
         pixbuf_byte pb' row col ch = Some 0).
Proof.
  intros Hpb Hrow Hcause.
  destruct (waterfall_clear_draw soffset ws (rx_common rx) pb Hpb Hrow)
    as (a & a' & Ha & Ha' & Hok & Hfirst & Hrest).
  unfold waterfall_update_2d, waterfall_track.
  rewrite decide_False by (intros (? & ? & ?); tauto).
  rewrite Ha. simpl. rewrite Ha'. simpl.
  eexists _, _. split; [done|]. simpl.
  split_and!; [done..|].
  intros Htight row col ch Hr Hc Hch. rewrite Hrest by done.
  rewrite decide_True; [done|]. rewrite Htight. nia.
Qed.

Lemma waterfall_2d_reinit_witness :
  ∃ rx' pb',
    waterfall_update_2d F32.zero demo_host_steady (mkStatics 4 2)
      (mkRx2D demo_rx 0 None 2 0) (mkPixbuf (seqZ 1 24) 4 2 12)
    = Some rx'
    ∧ pixbuf rx' = Some pb' ∧ pixbuf_ok (mkStatics 4 2) pb'
    ∧ rx_common rx' = set_waterfall_tracking 7100000 48000 demo_rx
    ∧ rx_waterfall_zoom rx' = 1
    ∧ rx_waterfall_pan rx' = 0
    ∧ waterfall_first_row F32.zero demo_rx pb'
    ∧ (∀ row col ch,
         1 ≤ row < 2 → 0 ≤ col < 4 → 0 ≤ ch < 3 →
         pixbuf_byte pb' row col ch
         = if decide ((row - 1) * 12 + col * 3 + ch < 3 * 4 * 2)
           then Some 0
           else pixbuf_byte (mkPixbuf (seqZ 1 24) 4 2 12) (row - 1) col ch)
    ∧ (12 = 3 * 4 →
       ∀ row col ch,
         1 ≤ row < 2 → 0 ≤ col < 4 → 0 ≤ ch < 3 →
         pixbuf_byte pb' row col ch = Some 0).
Proof.
  refine (waterfall_2d_reinit F32.zero demo_host_steady (mkStatics 4 2)
            (mkRx2D demo_rx 0 None 2 0) (mkPixbuf (seqZ 1 24) 4 2 12)
            _ _ _).
  - unfold pixbuf_ok. simpl. lia.
  - unfold rx_row_ok. simpl. lia.
  - right. right. simpl. lia.
Defined.

(** The horizontal shift in terms of pixels, for rows without padding. *)
Lemma waterfall_shift_picture ws pb k :
  pixbuf_ok ws pb → gdk_pixbuf_get_rowstride pb = 3 * my_width ws →
  - my_width ws < k < my_width ws →
  ∃ a,
    waterfall_shift ws (gdk_pixbuf_get_width pb) k (gdk_pixbuf_get_pixels pb)
    = Some a
    ∧ length a = length (gdk_pixbuf_get_pixels pb)
    ∧ ∀ row col ch,
        0 ≤ row < my_height ws → 0 ≤ col < my_width ws → 0 ≤ ch < 3 →
        pixbuf_byte (set_pixels a pb) row col ch
        = if decide (0 ≤ col - k < my_width ws)
          then pixbuf_byte pb row (col - k) ch else Some 0.
Proof.
  intros (Hw & Hh & Hw0 & Hh0 & Hrs & Hlen) Htight Hk.
  destruct (waterfall_shift_spec ws (gdk_pixbuf_get_width pb) k
              (gdk_pixbuf_get_pixels pb))
    as (a & Hrun & Hl & Hc); [done | done | done | done | nia |].
  exists a. split_and!; [done..|].
  intros row col ch Hr Hcol Hch.
  rewrite pixbuf_byte_set_pixels, Hc, Htight.
  rewrite decide_True by nia.
  replace (row * (3 * my_width ws) + col * 3 + ch)
    with ((col * 3 + ch) + row * (3 * my_width ws)) by lia.
  rewrite Z.mod_add, Z.mod_small by lia.
  destruct (decide (0 ≤ col - k < my_width ws)) as [Hin|Hout].
  - rewrite decide_True by lia. unfold pixbuf_byte. rewrite Htight.
    f_equal; lia.
  - rewrite decide_False by lia. done.
Qed.

(** X18.  When the picture would have to move by [my_width] pixels or more,
    the 2D tick clears it instead, takes the frequency of the VFO as
    tracked frequency and goes on to draw the samples of the tick into the
    first row. *)
Theorem waterfall_2d_large_shift_clears soffset host ws rx pb :
  pixbuf_ok ws pb → rx_row_ok (rx_common rx) (my_width ws) →
  waterfall_moved host rx →
  (waterfall_rotate_pixels host ws rx >= my_width ws
   ∨ waterfall_rotate_pixels host ws rx <= - my_width ws) →
  ∃ pb',
    waterfall_update_2d soffset host ws rx pb
    = Some (set_pixbuf (Some pb')
              (set_rx_waterfall_pan (pan (rx_common rx))
                 (set_waterfall_frequency (vfo_frequency host) rx)))
    ∧ pixbuf_ok ws pb'
    ∧ waterfall_first_row soffset (rx_common rx) pb'
    ∧ ∀ row col ch,
        1 ≤ row < my_height ws → 0 ≤ col < my_width ws → 0 ≤ ch < 3 →
        pixbuf_byte pb' row col ch
        = if decide ((row - 1) * gdk_pixbuf_get_rowstride pb + col * 3 + ch
                     < 3 * my_width ws * my_height ws)
          then Some 0 else pixbuf_byte pb (row - 1) col ch.
Proof.
  intros Hpb Hrow (Hf & Hsr & Hz & Hch) Hbig.
  destruct (waterfall_clear_draw soffset ws (rx_common rx) pb Hpb Hrow)
    as (a & a' & Ha & Ha' & Hok & Hfirst & Hrest).
  unfold waterfall_update_2d, waterfall_track.
  rewrite decide_True by done. rewrite decide_True by done.
  fold (waterfall_rotate_pixels host ws rx).
  rewrite decide_True by done.
  rewrite Ha. simpl. rewrite Ha'. simpl.
  eexists. split; [done|]. split_and!; done.
Qed.

Lemma waterfall_2d_large_shift_clears_witness :
  ∃ pb',
    waterfall_update_2d F32.zero demo_host_jumped (mkStatics 4 2)
      (mkRx2D demo_rx 0 None 1 0) (mkPixbuf (seqZ 1 24) 4 2 12)
    = Some (set_pixbuf (Some pb')
              (set_rx_waterfall_pan 0
                 (set_waterfall_frequency 7200000
                    (mkRx2D demo_rx 0 None 1 0))))
    ∧ pixbuf_ok (mkStatics 4 2) pb'
    ∧ waterfall_first_row F32.zero demo_rx pb'
    ∧ ∀ row col ch,
        1 ≤ row < 2 → 0 ≤ col < 4 → 0 ≤ ch < 3 →
        pixbuf_byte pb' row col ch
        = if decide ((row - 1) * 12 + col * 3 + ch < 3 * 4 * 2)
          then Some 0
          else pixbuf_byte (mkPixbuf (seqZ 1 24) 4 2 12) (row - 1) col ch.
Proof.
  refine (waterfall_2d_large_shift_clears F32.zero demo_host_jumped
            (mkStatics 4 2) (mkRx2D demo_rx 0 None 1 0)
            (mkPixbuf (seqZ 1 24) 4 2 12) _ _ _ _).
  - unfold pixbuf_ok. simpl. lia.
  - unfold rx_row_ok. simpl. lia.
  - unfold waterfall_moved. simpl. lia.
  - right. vm_compute. discriminate.
Defined.

(** X19.  A change of frequency that moves the picture by at least one
    pixel, and with the pan by less than [my_width], shifts every row
    sideways and clears the columns that come in at the edge.  The tick
    draws no new row and does not move the picture down, and the tracked
    frequency goes back by the frequency of the whole pixels of the
    shift. *)
Theorem waterfall_2d_retune_shifts_without_row soffset host ws rx pb :
  pixbuf_ok ws pb → gdk_pixbuf_get_rowstride pb = 3 * my_width ws →
  waterfall_moved host rx →
  waterfall_rotfreq ws (rx_common rx) (vfo_frequency host) ≠ 0 →
  - my_width ws < waterfall_rotate_pixels host ws rx < my_width ws →
  ∃ pb',
    waterfall_update_2d soffset host ws rx pb
    = Some (set_pixbuf (Some pb')
              (set_rx_waterfall_pan (pan (rx_common rx))
                 (set_waterfall_frequency
                    (waterfall_frequency (rx_common rx)
                     - lround
                         (F64.mul
                            (F64.of_Z
                               (waterfall_rotfreq ws (rx_common rx)
                                  (vfo_frequency host)))
                            (waterfall_hz_per_pixel ws (rx_common rx))))
                    rx)))
    ∧ pixbuf_ok ws pb'
    ∧ ∀ row col ch,
        0 ≤ row < my_height ws → 0 ≤ col < my_width ws → 0 ≤ ch < 3 →
        pixbuf_byte pb' row col ch
        = if decide (0 ≤ col - waterfall_rotate_pixels host ws rx
                     < my_width ws)
          then pixbuf_byte pb row
                 (col - waterfall_rotate_pixels host ws rx) ch
          else Some 0.
Proof.
  intros Hpb Htight (Hf & Hsr & Hz & Hch) Hrot Hk.
  destruct (waterfall_shift_picture ws pb (waterfall_rotate_pixels host ws rx)
              Hpb Htight Hk) as (a & Ha & Hl & Hpic).
  unfold waterfall_update_2d, waterfall_track.
  rewrite decide_True by done. rewrite decide_True by done.
  fold (waterfall_rotate_pixels host ws rx).
  rewrite decide_False by lia.
  rewrite Ha. simpl. rewrite decide_True by done. simpl.
  eexists. split; [done|].
  split; [by apply pixbuf_ok_set_pixels | done].
Qed.

Lemma waterfall_2d_retune_shifts_without_row_witness :
  ∃ pb',
    waterfall_update_2d F32.zero (mkHost 10 7088000) (mkStatics 4 2)
      (mkRx2D demo_rx 0 None 1 0) (mkPixbuf (seqZ 1 24) 4 2 12)
    = Some (set_pixbuf (Some pb')
              (set_rx_waterfall_pan 0
                 (set_waterfall_frequency
                    (7100000
                     - lround
                         (F64.mul
                            (F64.of_Z
                               (waterfall_rotfreq (mkStatics 4 2) demo_rx
                                  7088000))
                            (waterfall_hz_per_pixel (mkStatics 4 2) demo_rx)))
                    (mkRx2D demo_rx 0 None 1 0))))
    ∧ pixbuf_ok (mkStatics 4 2) pb'
    ∧ ∀ row col ch,
        0 ≤ row < 2 → 0 ≤ col < 4 → 0 ≤ ch < 3 →
        pixbuf_byte pb' row col ch
        = if decide (0 ≤ col - waterfall_rotate_pixels (mkHost 10 7088000)
                                 (mkStatics 4 2) (mkRx2D demo_rx 0 None 1 0)
                     < 4)
          then pixbuf_byte (mkPixbuf (seqZ 1 24) 4 2 12) row
                 (col - waterfall_rotate_pixels (mkHost 10 7088000)
                          (mkStatics 4 2) (mkRx2D demo_rx 0 None 1 0)) ch
          else Some 0.
Proof.
  refine (waterfall_2d_retune_shifts_without_row F32.zero (mkHost 10 7088000)
            (mkStatics 4 2) (mkRx2D demo_rx 0 None 1 0)
            (mkPixbuf (seqZ 1 24) 4 2 12) _ _ _ _ _).
  - unfold pixbuf_ok. simpl. lia.
  - reflexivity.
  - unfold waterfall_moved. simpl. lia.
  - vm_compute. discriminate.
  - vm_compute. split; reflexivity.
Defined.

(** The shifted picture in numbers: a retune by one pixel of 12 kHz moves
    the two rows of four pixels one column to the right, and the tracked
    frequency follows by 12 kHz. *)
Example retune_by_one_pixel :
  (rx' ← waterfall_update_2d F32.zero (mkHost 10 7088000) (mkStatics 4 2)
           (mkRx2D demo_rx 0 None 1 0) (mkPixbuf (seqZ 1 24) 4 2 12);
   pb' ← pixbuf rx';
   Some (gdk_pixbuf_get_pixels pb', waterfall_frequency (rx_common rx')))
  = Some ([0; 0; 0; 1; 2; 3; 4; 5; 6; 7; 8; 9;
           0; 0; 0; 13; 14; 15; 16; 17; 18; 19; 20; 21], 7088000).
Proof. vm_compute. reflexivity. Qed.

(** X20.  A change of pan alone, or with a change of frequency of less than
    a pixel, by less than [my_width] pixels: the picture is shifted
    sideways, then moved down by one row, and the samples of the tick are
    drawn into the first row.  The new pan is recorded and the tracked
    frequency stays. *)
Theorem waterfall_2d_pan_shift_then_row soffset host ws rx pb :
  pixbuf_ok ws pb → rx_row_ok (rx_common rx) (my_width ws) →
  gdk_pixbuf_get_rowstride pb = 3 * my_width ws →
  waterfall_moved host rx →
  waterfall_rotfreq ws (rx_common rx) (vfo_frequency host) = 0 →
  - my_width ws < waterfall_rotate_pixels host ws rx < my_width ws →
  ∃ pb',
    waterfall_update_2d soffset host ws rx pb
    = Some (set_pixbuf (Some pb')
              (set_rx_waterfall_pan (pan (rx_common rx)) rx))
    ∧ pixbuf_ok ws pb'
    ∧ waterfall_first_row soffset (rx_common rx) pb'
    ∧ ∀ row col ch,
        1 ≤ row < my_height ws → 0 ≤ col < my_width ws → 0 ≤ ch < 3 →
        pixbuf_byte pb' row col ch
        = if decide (0 ≤ col - waterfall_rotate_pixels host ws rx
                     < my_width ws)
          then pixbuf_byte pb (row - 1)
                 (col - waterfall_rotate_pixels host ws rx) ch
          else Some 0.
Proof.
  intros Hpb Hrow Htight (Hf & Hsr & Hz & Hch) Hrot Hk.
  pose proof Hpb as (Hw & Hh & Hw0 & Hh0 & Hrs & Hlen).
  destruct (waterfall_shift_picture ws pb (waterfall_rotate_pixels host ws rx)
              Hpb Htight Hk) as (a & Ha & Hl & Hpic).
  destruct (waterfall_draw_row_picture soffset (rx_common rx) pb a)
    as (a' & Ha' & Hl' & Hfirst & Hdown);
    [lia | lia | lia | by rewrite Hl, Hlen, Hh | by rewrite Hw |].
  unfold waterfall_update_2d, waterfall_track.
  rewrite decide_True by done. rewrite decide_True by done.
  fold (waterfall_rotate_pixels host ws rx).
  rewrite decide_False by lia.
  rewrite Ha. simpl. rewrite decide_False by (rewrite Hrot; lia). simpl.
  rewrite Ha'. simpl.
  eexists. split; [done|].
  split_and!; [apply pixbuf_ok_set_pixels; [done|congruence] | done |].
  intros row col ch Hr Hc Hc3. rewrite Hdown by lia. apply Hpic; lia.
Qed.

Lemma waterfall_2d_pan_shift_then_row_witness :
  ∃ pb',
    waterfall_update_2d F32.zero demo_host_steady (mkStatics 4 2)
      (mkRx2D demo_rx 0 None 1 2) (mkPixbuf (seqZ 1 24) 4 2 12)
    = Some (set_pixbuf (Some pb')
              (set_rx_waterfall_pan 0 (mkRx2D demo_rx 0 None 1 2)))
    ∧ pixbuf_ok (mkStatics 4 2) pb'
    ∧ waterfall_first_row F32.zero demo_rx pb'
    ∧ ∀ row col ch,
        1 ≤ row < 2 → 0 ≤ col < 4 → 0 ≤ ch < 3 →
        pixbuf_byte pb' row col ch
        = if decide (0 ≤ col - waterfall_rotate_pixels demo_host_steady
                                 (mkStatics 4 2) (mkRx2D demo_rx 0 None 1 2)
                     < 4)
          then pixbuf_byte (mkPixbuf (seqZ 1 24) 4 2 12) (row - 1)
                 (col - waterfall_rotate_pixels demo_host_steady
                          (mkStatics 4 2) (mkRx2D demo_rx 0 None 1 2)) ch
          else Some 0.
Proof.
  refine (waterfall_2d_pan_shift_then_row F32.zero demo_host_steady
            (mkStatics 4 2) (mkRx2D demo_rx 0 None 1 2)
            (mkPixbuf (seqZ 1 24) 4 2 12) _ _ _ _ _ _).
  - unfold pixbuf_ok. simpl. lia.
  - unfold rx_row_ok. simpl. lia.
  - reflexivity.
  - unfold waterfall_moved. simpl. lia.
  - vm_compute. reflexivity.
  - vm_compute. split; reflexivity.
Defined.

(** ** The shift in pixels of the 2D tracker *)

Section Canonical.
Local Open Scope R_scope.

(** Two floats with a full mantissa and the same value are the same. *)
Lemma F2R_canonical prec m1 e1 m2 e2 :
  Zdigits2 (Z.pos m1) = prec → Zdigits2 (Z.pos m2) = prec →
  (e1 ≤ e2)%Z →
  F2R (Z.pos m1) e1 = F2R (Z.pos m2) e2 → m1 = m2 ∧ e1 = e2.
Proof.
  intros H1 H2 He Hv.
  pose proof (Zdigits2_bounds (Z.pos m1) ltac:(lia)) as B1.
  pose proof (Zdigits2_bounds (Z.pos m2) ltac:(lia)) as B2.
  rewrite H1 in B1. rewrite H2 in B2.
  assert (Z.pos m1 = Z.pos m2 * 2 ^ (e2 - e1))%Z as Hm.
  { apply eq_IZR. rewrite mult_IZR, <- (bpow_IZR (e2 - e1)) by lia.
    unfold F2R in Hv. pose proof (bpow_pos e1).
    apply Rmult_eq_reg_r with (bpow e1); [|lra].
    rewrite Hv, Rmult_assoc, <- bpow_add. do 2 f_equal. lia. }
  destruct (decide (e1 = e2)) as [->|Hne].
  - rewrite Z.sub_diag in Hm. split; [lia | done].
  - exfalso.
    assert (2 ^ 1 ≤ 2 ^ (e2 - e1))%Z by (apply Z.pow_le_mono_r; lia).
    assert (2 ^ prec = 2 * 2 ^ (prec - 1))%Z.
    { rewrite <- Z.pow_succ_r by (pose proof (Zdigits2_pos (Z.pos m1)); lia).
      f_equal. lia. }
    nia.
Qed.

Lemma rounded_canonical prec r1 r2 f1 f2 :
  rounded prec r1 f1 → rounded prec r2 f2 → B2R f1 = B2R f2 → f1 = f2.
Proof.
  intros (m1 & e1 & _ & _ & -> & H1 & _) (m2 & e2 & _ & _ & -> & H2 & _) Hv.
  simpl in Hv.
  destruct (decide (e1 ≤ e2)%Z).
  - destruct (F2R_canonical prec m1 e1 m2 e2) as [-> ->]; done.
  - destruct (F2R_canonical prec m2 e2 m1 e1) as [-> ->]; [done | done | lia | done | done].
Qed.

(** The product of two small positive integers is computed exactly. *)
Lemma F64_mul_of_Z a b :
  (1 ≤ a)%Z → (1 ≤ b)%Z → (a * b < 2 ^ 53)%Z →
  F64.mul (F64.of_Z a) (F64.of_Z b) = F64.of_Z (a * b).
Proof.
  intros Ha Hb Hab.
  destruct (F64_of_Z_rounded a ltac:(nia)) as [Ra Va].
  destruct (F64_of_Z_rounded b ltac:(nia)) as [Rb Vb].
  destruct (F64_of_Z_rounded (a * b) ltac:(nia)) as [Rab Vab].
  destruct (IZR_bounds a 53 ltac:(nia) ltac:(lia)) as [La Ua].
  destruct (IZR_bounds b 53 ltac:(nia) ltac:(lia)) as [Lb Ub].
  destruct (rounded_repr 53 prec53_pos _ _ _ _ Ra La Ua)
    as (m1 & e1 & E1 & D1 & He1 & _).
  destruct (rounded_repr 53 prec53_pos _ _ _ _ Rb Lb Ub)
    as (m2 & e2 & E2 & D2 & He2 & _).
  assert (rounded 53 (IZR a * IZR b) (F64.mul (F64.of_Z a) (F64.of_Z b)))
    as Rm.
  { rewrite <- Va, <- Vb, E1, E2. simpl B2R.
    pose proof (Zdigits2_mul (Z.pos m1) (Z.pos m2) ltac:(lia) ltac:(lia)).
    apply (SFmul_rounded 53 1024 prec53_pos); [done | simpl in *; lia..]. }
  apply (rounded_canonical 53 _ _ _ _ Rm Rab).
  rewrite Vab, mult_IZR.
  apply (rounded_exact 53 prec53_pos _ _ (a * b) 0 Rm).
  - rewrite bpow_0, mult_IZR. lra.
  - nia.
Qed.
End Canonical.

(** The 2D tracker divides as the 3D tracker does, with
    [my_width * zoom] in the place of the bin count. *)
Lemma waterfall_rotfreq_as_bins ws rx vfofreq st :
  1 ≤ my_width ws → 1 ≤ zoom rx → my_width ws * zoom rx ≤ INT_MAX →
  bins st = my_width ws * zoom rx →
  waterfall_rotfreq ws rx vfofreq = wf_rotate_bins rx st vfofreq.
Proof.
  intros Hw Hz Hnb Hb. unfold INT_MAX in Hnb.
  unfold waterfall_rotfreq, waterfall_hz_per_pixel, wf_rotate_bins,
    wf_rotate_quotient, wf_hz_per_bin.
  rewrite F64_mul_of_Z by lia. by rewrite Hb.
Qed.

(** X21.  The shift in pixels that the 2D tracker computes for a change of
    frequency of at most half the sample rate has the sign of the
    difference between the tracked and the new frequency, is smaller in
    magnitude than [my_width * zoom], and is zero exactly when the
    difference is less than one pixel, that is when
    [|difference| * my_width * zoom < sample_rate]. *)
Theorem waterfall_2d_rotfreq_whole_pixels ws rx vfofreq :
  1 ≤ my_width ws → 1 ≤ zoom rx → my_width ws * zoom rx ≤ INT_MAX →
  0 < sample_rate rx ≤ INT_MAX →
  waterfall_frequency rx ≠ vfofreq →
  2 * Z.abs (vfofreq - waterfall_frequency rx) ≤ sample_rate rx →
  let delta := waterfall_frequency rx - vfofreq in
  let k := waterfall_rotfreq ws rx vfofreq in
  k = Z.sgn delta * Z.abs k
  ∧ Z.abs k < my_width ws * zoom rx
  ∧ (k = 0 ↔ Z.abs delta * (my_width ws * zoom rx) < sample_rate rx).
Proof.
  intros Hw Hz Hnb Hsr Hne Hhalf delta k.
  set (nb := my_width ws * zoom rx) in *.
  set (st := mkState nb 0 0 None F32.zero F32.zero false F64.zero F32.zero
               0 0 0 0).
  assert (k = wf_rotate_bins rx st vfofreq) as Hk
    by (by apply waterfall_rotfreq_as_bins).
  destruct (wf_rotate_bins_spec rx st vfofreq)
    as (Rhz & Rq & Hsgn & Hfl & Hlt & Hsub); [simpl; lia | done..|].
  fold delta in Rq, Hsgn, Hsub. rewrite <- Hk in Hsgn, Hfl, Hlt, Hsub.
  simpl bins in *. fold nb in Rhz, Hlt, Hsub.
  split_and!.
  - pose proof Rq as (m & e & _ & _ & Eq & _). rewrite Eq in Hsgn.
    pose proof (float_trunc_nonneg m e). nia.
  - done.
  - split; [|done]. intros Hk0.
    destruct (decide (Z.abs delta * nb < sample_rate rx)) as [|Hge]; [done|].
    exfalso. unfold INT_MAX in *.
    destruct (F64_of_Z_rounded (Z.abs delta) ltac:(lia)) as [Rd Vd].
    destruct (F64_of_Z_rounded 1 ltac:(lia)) as [R1 V1].
    destruct (rounded_pos 53 _ _ Rhz) as [Hrpos Hhzpos].
    assert (IZR (sample_rate rx) / IZR nb <= IZR (Z.abs delta))%R as Hle.
    { assert (0 < IZR nb)%R by (apply IZR_lt; lia).
      apply Rmult_le_reg_r with (IZR nb); [done|].
      replace (IZR (sample_rate rx) / IZR nb * IZR nb)%R
        with (IZR (sample_rate rx)) by (field; lra).
      rewrite <- mult_IZR. apply IZR_le. lia. }
    pose proof (rounded_mono 53 prec53_pos _ _ _ _ Rhz Rd Hle) as Hhz.
    rewrite Vd in Hhz.
    assert (1 <= IZR (Z.abs delta) / B2R (wf_hz_per_bin rx st))%R as H1.
    { apply Rmult_le_reg_r with (B2R (wf_hz_per_bin rx st)); [done|].
      replace (IZR (Z.abs delta) / B2R (wf_hz_per_bin rx st)
               * B2R (wf_hz_per_bin rx st))%R
        with (IZR (Z.abs delta)) by (field; lra).
      lra. }
    pose proof (rounded_mono 53 prec53_pos _ _ _ _ R1 Rq H1) as Hq.
    rewrite V1 in Hq. rewrite Hk0 in Hfl. change (Z.abs 0) with 0%Z in Hfl.
    lra.
Qed.

Lemma waterfall_2d_rotfreq_whole_pixels_witness :
  let delta := 7100000 - 7090400 in
  let k := waterfall_rotfreq (mkStatics 4 2) demo_rx 7090400 in
  k = Z.sgn delta * Z.abs k
  ∧ Z.abs k < 4 * 1
  ∧ (k = 0 ↔ Z.abs delta * (4 * 1) < 48000).
Proof.
  refine (waterfall_2d_rotfreq_whole_pixels (mkStatics 4 2) demo_rx 7090400
            _ _ _ _ _ _).
  - simpl. lia.
  - simpl. lia.
  - unfold INT_MAX. simpl. lia.
  - unfold INT_MAX. simpl. lia.
  - simpl. lia.
  - simpl. lia.
Defined.

(** X22.  A retune by less than one pixel leaves the tracked frequency of
    the 2D path where it was: the tick moves the picture down and draws its
    row as a tick without retune does, and the receiver is not changed.
    The next tick therefore measures its shift from the same tracked
    frequency, so that small steps add up to a shift, where the 3D tracker
    drops them. *)
Theorem waterfall_2d_sub_pixel_retune soffset host ws rx pb :
  pixbuf_ok ws pb → rx_row_ok (rx_common rx) (my_width ws) →
  waterfall_frequency (rx_common rx) ≠ 0 →
  sample_rate (rx_common rx) = waterfall_sample_rate (rx_common rx) →
  zoom (rx_common rx) = rx_waterfall_zoom rx →
  rx_waterfall_pan rx = pan (rx_common rx) →
  2 ≤ my_width ws → 1 ≤ zoom (rx_common rx) →
  my_width ws * zoom (rx_common rx) ≤ INT_MAX →
  0 < sample_rate (rx_common rx) ≤ INT_MAX →
  waterfall_frequency (rx_common rx) ≠ vfo_frequency host →
  Z.abs (waterfall_frequency (rx_common rx) - vfo_frequency host)
  * (my_width ws * zoom (rx_common rx)) < sample_rate (rx_common rx) →
  ∃ pb',
    waterfall_update_2d soffset host ws rx pb
    = Some (set_pixbuf (Some pb') rx)
    ∧ pixbuf_ok ws pb'
    ∧ waterfall_first_row soffset (rx_common rx) pb'
    ∧ ∀ row col ch,
        1 ≤ row < my_height ws → 0 ≤ col < my_width ws → 0 ≤ ch < 3 →
        pixbuf_byte pb' row col ch = pixbuf_byte pb (row - 1) col ch.
Proof.
  intros Hpb Hrow Hf Hsr Hz Hp Hw2 Hz1 Hnb Hsr0 Hne Hsub.
  pose proof Hpb as (Hw & Hh & Hw0 & Hh0 & Hrs & Hlen).
  set (st := mkState (my_width ws * zoom (rx_common rx)) 0 0 None F32.zero
               F32.zero false F64.zero F32.zero 0 0 0 0).
  assert (waterfall_rotfreq ws (rx_common rx) (vfo_frequency host) = 0)
    as Hrot.
  { rewrite (waterfall_rotfreq_as_bins ws (rx_common rx) _ st)
      by (done || lia).
    destruct (wf_rotate_bins_spec (rx_common rx) st (vfo_frequency host))
      as (_ & _ & _ & _ & _ & Hzero); [simpl; lia | done | done | nia |].
    by apply Hzero. }
  destruct (waterfall_draw_row_picture soffset (rx_common rx) pb
              (gdk_pixbuf_get_pixels pb))
    as (a' & Ha' & Hl' & Hfirst & Hdown);
    [lia | lia | lia | by rewrite Hlen, Hh | by rewrite Hw |].
  unfold waterfall_update_2d, waterfall_track.
  rewrite decide_True by done. rewrite decide_True by tauto.
  rewrite Hrot, Hp, Z.sub_diag.
  change (wrap32 (0 + wrap32 0)) with 0.
  rewrite decide_False by lia.
  unfold waterfall_shift.
  rewrite decide_False by lia. rewrite decide_False by lia. simpl.
  rewrite Ha'. simpl.
  exists (set_pixels a' pb). split.
  { do 2 f_equal. destruct rx; simpl in *. by subst. }
  split_and!; [by apply pixbuf_ok_set_pixels | done |].
  intros row col ch Hr Hc Hc3. by rewrite Hdown by lia.
Qed.

Lemma waterfall_2d_sub_pixel_retune_witness :
  ∃ pb',
    waterfall_update_2d F32.zero demo_host_retuned (mkStatics 4 2)
      (mkRx2D demo_rx 0 None 1 0) (mkPixbuf (seqZ 1 24) 4 2 12)
    = Some (set_pixbuf (Some pb') (mkRx2D demo_rx 0 None 1 0))
    ∧ pixbuf_ok (mkStatics 4 2) pb'
    ∧ waterfall_first_row F32.zero demo_rx pb'
    ∧ ∀ row col ch,
        1 ≤ row < 2 → 0 ≤ col < 4 → 0 ≤ ch < 3 →
        pixbuf_byte pb' row col ch
        = pixbuf_byte (mkPixbuf (seqZ 1 24) 4 2 12) (row - 1) col ch.
Proof.
  refine (waterfall_2d_sub_pixel_retune F32.zero demo_host_retuned
            (mkStatics 4 2) (mkRx2D demo_rx 0 None 1 0)
            (mkPixbuf (seqZ 1 24) 4 2 12) _ _ _ _ _ _ _ _ _ _ _ _).
  - unfold pixbuf_ok. simpl. lia.
  - unfold rx_row_ok. simpl. lia.
  - simpl. lia.
  - reflexivity.
  - reflexivity.
  - reflexivity.
  - simpl. lia.
  - simpl. lia.
  - unfold INT_MAX. simpl. lia.
  - unfold INT_MAX. simpl. lia.
  - simpl. lia.
  - simpl. lia.
Defined.

Lemma waterfall_update_2d_reinit soffset host ws rx pb a a' :
  ¬ (waterfall_frequency (rx_common rx) ≠ 0
     ∧ sample_rate (rx_common rx) = waterfall_sample_rate (rx_common rx)
     ∧ zoom (rx_common rx) = rx_waterfall_zoom rx) →
  memset (gdk_pixbuf_get_pixels pb) 0 0 (my_width ws * my_height ws * 3)
  = Some a →
  waterfall_draw_row soffset (rx_common rx) pb a = Some a' →
  waterfall_update_2d soffset host ws rx pb
  = Some (set_pixbuf (Some (set_pixels a' pb))
            (set_rx_common
               (set_waterfall_tracking (vfo_frequency host)
                  (sample_rate (rx_common rx)) (rx_common rx))
               (set_rx_waterfall_zoom (zoom (rx_common rx))
                  (set_rx_waterfall_pan (pan (rx_common rx)) rx)))).
Proof.
  intros Hn Ha Ha'. unfold waterfall_update_2d, waterfall_track.
  rewrite decide_False by done. rewrite Ha. simpl. by rewrite Ha'.
Qed.

Lemma waterfall_update_2d_mode soffset host ws rx st pb rx' :
  waterfall_mode rx ≠ 1 → pixbuf rx = Some pb →
  waterfall_update_2d soffset host ws rx pb = Some rx' →
  waterfall_update soffset host ws rx st = Some (rx', st, true).
Proof.
  intros Hm Hpb Hu. unfold waterfall_update.
  rewrite decide_False by done. rewrite Hpb. by rewrite Hu.
Qed.

(** X23.  From [waterfall_init_2d] to the first picture.  After the
    initialisation the receiver has no pixbuf, and an update draws nothing
    and queues no redraw.  The configure event stores the pixbuf made for
    the allocation, with its first [3 * my_width * my_height] bytes
    cleared.  The first update after that finds the tracked frequency at
    0, so whatever the frequency of the VFO is it takes the
    initialisation branch: it records the frequency, the sample rate, the
    zoom and the pan, draws the first row and queues a redraw; the 3D
    state is not touched. *)
Theorem waterfall_2d_first_picture soffset host rx width height new_pixbuf st :
  waterfall_mode rx ≠ 1 →
  let ws := mkStatics (gdk_pixbuf_get_width new_pixbuf)
              (gdk_pixbuf_get_height new_pixbuf) in
  pixbuf_ok ws new_pixbuf →
  rx_row_ok (rx_common rx) (my_width ws) →
  let ws0 := (waterfall_init_2d rx width height).1 in
  let rx0 := (waterfall_init_2d rx width height).2 in
  waterfall_update soffset host ws0 rx0 st = Some (rx0, st, false)
  ∧ ∃ rx1 pb1 rx2 pb2,
      waterfall_configure_event_cb (gdk_pixbuf_get_width new_pixbuf)
        (gdk_pixbuf_get_height new_pixbuf) new_pixbuf rx0
      = Some (ws, rx1)
      ∧ pixbuf rx1 = Some pb1 ∧ pixbuf_ok ws pb1
      ∧ (∀ j, 0 ≤ j < 3 * my_width ws * my_height ws →
              load (gdk_pixbuf_get_pixels pb1) j = Some 0)
      ∧ waterfall_update soffset host ws rx1 st = Some (rx2, st, true)
      ∧ pixbuf rx2 = Some pb2 ∧ pixbuf_ok ws pb2
      ∧ waterfall_frequency (rx_common rx2) = vfo_frequency host
      ∧ waterfall_sample_rate (rx_common rx2) = sample_rate (rx_common rx)
      ∧ rx_waterfall_zoom rx2 = zoom (rx_common rx)
      ∧ rx_waterfall_pan rx2 = pan (rx_common rx)
      ∧ waterfall_first_row soffset (rx_common rx0) pb2
      ∧ (gdk_pixbuf_get_rowstride new_pixbuf = 3 * my_width ws →
         ∀ row col ch,
           1 ≤ row < my_height ws → 0 ≤ col < my_width ws → 0 ≤ ch < 3 →
           pixbuf_byte pb2 row col ch = Some 0).
Proof.
  intros Hmode ws Hpb Hrow ws0 rx0.
  pose proof Hpb as (Hw & Hh & Hw0 & Hh0 & Hrs & Hlen).
  split.
  { unfold waterfall_update. subst rx0. simpl.
    by rewrite decide_False by done. }
  destruct (memset_is_Some (gdk_pixbuf_get_pixels new_pixbuf) 0 0
              (my_width ws * my_height ws * 3)) as [a Ha]; [nia..|].
  destruct (load_memset _ _ _ _ _ 0 Ha) as [Hl _].
  set (pb1 := set_pixels a new_pixbuf).
  assert (pixbuf_ok ws pb1) as Hpb1 by (by apply pixbuf_ok_set_pixels).
  destruct (waterfall_clear_draw soffset ws (rx_common rx0) pb1 Hpb1 Hrow)
    as (b & b' & Hb & Hb' & Hok & Hfirst & Hrest).
  exists (set_pixbuf (Some pb1) rx0), pb1. eexists _, _.
  split_and!.
  - unfold waterfall_configure_event_cb. simpl in Ha. by rewrite Ha.
  - done.
  - done.
  - intros j Hj. change (load a j = Some 0).
    destruct (load_memset _ _ _ _ _ j Ha) as [_ ->].
    by rewrite decide_True by lia.
  - apply (waterfall_update_2d_mode _ _ _ _ _ pb1); [done | done |].
    apply (waterfall_update_2d_reinit soffset host ws
             (set_pixbuf (Some pb1) rx0) pb1 b b');
      [simpl; intros (? & _); done | done | done].
  - done.
  - done.
  - done.
  - done.
  - done.
  - done.
  - done.
  - intros Htight row col ch Hr Hc Hch. rewrite Hrest by done.
    rewrite decide_True; [done|]. simpl. rewrite Htight. nia.
Qed.

Lemma waterfall_2d_first_picture_witness :
  let ws := mkStatics 4 2 in
  let ws0 := (waterfall_init_2d (mkRx2D demo_rx 0 None 1 0) 4 2).1 in
  let rx0 := (waterfall_init_2d (mkRx2D demo_rx 0 None 1 0) 4 2).2 in
  waterfall_update F32.zero demo_host_steady ws0 rx0 demo_state
  = Some (rx0, demo_state, false)
  ∧ ∃ rx1 pb1 rx2 pb2,
      waterfall_configure_event_cb 4 2 (mkPixbuf (seqZ 1 24) 4 2 12) rx0
      = Some (ws, rx1)
      ∧ pixbuf rx1 = Some pb1 ∧ pixbuf_ok ws pb1
      ∧ (∀ j, 0 ≤ j < 3 * 4 * 2 →
              load (gdk_pixbuf_get_pixels pb1) j = Some 0)
      ∧ waterfall_update F32.zero demo_host_steady ws rx1 demo_state
        = Some (rx2, demo_state, true)
      ∧ pixbuf rx2 = Some pb2 ∧ pixbuf_ok ws pb2
      ∧ waterfall_frequency (rx_common rx2) = 7100000
      ∧ waterfall_sample_rate (rx_common rx2) = 48000
      ∧ rx_waterfall_zoom rx2 = 1
      ∧ rx_waterfall_pan rx2 = 0
      ∧ waterfall_first_row F32.zero (rx_common rx0) pb2
      ∧ (12 = 3 * 4 →
         ∀ row col ch,
           1 ≤ row < 2 → 0 ≤ col < 4 → 0 ≤ ch < 3 →
           pixbuf_byte pb2 row col ch = Some 0).
Proof.
  refine (waterfall_2d_first_picture F32.zero demo_host_steady
            (mkRx2D demo_rx 0 None 1 0) 4 2 (mkPixbuf (seqZ 1 24) 4 2 12)
            demo_state _ _ _).
  - simpl. lia.
  - unfold pixbuf_ok. simpl. lia.
  - unfold rx_row_ok. simpl. lia.
Defined.

(** ** The tracked frequency after a shift *)

Section Lround.
Local Open Scope R_scope.

(** [lround] of a finite double of moderate size is an integer at a
    distance of at most one half. *)
Lemma lround_finite s m e :
  F2R (Z.pos m) e < bpow 62 →
  ∃ a, (0 ≤ a)%Z ∧ Rabs (IZR a - F2R (Z.pos m) e) <= / 2
       ∧ lround (S754_finite s m e) = if s then (- a)%Z else a.
Proof.
  intros Hv. unfold lround.
  set (a := if (0 <=? e)%Z then (Z.pos m * 2 ^ e)%Z
            else ((Z.pos m + 2 ^ (- e - 1)) / 2 ^ (- e))%Z).
  assert ((0 ≤ a)%Z ∧ Rabs (IZR a - F2R (Z.pos m) e) <= / 2) as [Ha Hd].
  { subst a. destruct (Z.leb_spec 0 e) as [He|He].
    - split; [lia|]. unfold F2R. rewrite mult_IZR, <- bpow_IZR by done.
      rewrite Rminus_diag, Rabs_R0. lra.
    - set (N := (2 ^ (- e))%Z). set (H := (2 ^ (- e - 1))%Z).
      assert (N = 2 * H)%Z as HN.
      { subst N H. rewrite <- Z.pow_succ_r by lia. f_equal. lia. }
      assert (0 < H)%Z as HH by (apply Z.pow_pos_nonneg; lia).
      pose proof (Z.div_mod (Z.pos m + H) N ltac:(lia)) as Hdm.
      pose proof (Z.mod_pos_bound (Z.pos m + H) N ltac:(lia)) as Hr.
      set (q := ((Z.pos m + H) / N)%Z) in *.
      set (r := ((Z.pos m + H) mod N)%Z) in *.
      split; [nia|].
      assert (bpow e * IZR N = 1) as Hb.
      { subst N. rewrite <- bpow_IZR by lia. rewrite <- bpow_add.
        replace (e + - e)%Z with 0%Z by lia. apply bpow_0. }
      assert (0 < IZR N) as HNp by (apply IZR_lt; lia).
      assert (IZR (Z.pos m) = IZR N * IZR q + IZR r - IZR H) as Hm.
      { rewrite <- mult_IZR, <- plus_IZR, <- minus_IZR. f_equal. lia. }
      assert (IZR N = 2 * IZR H) as HN2 by (rewrite HN, mult_IZR; lra).
      assert (0 <= IZR r < IZR N) as [Hr0 Hr1]
        by (split; [apply IZR_le | apply IZR_lt]; lia).
      unfold F2R. rewrite Hm.
      assert (bpow e = / IZR N) as -> by (apply Rmult_eq_reg_r with (IZR N);
        [rewrite Hb; field; lra | lra]).
      replace (IZR q - (IZR N * IZR q + IZR r - IZR H) * / IZR N)
        with ((IZR H - IZR r) / IZR N) by (field; lra).
      apply Rabs_le. split.
      + apply Rmult_le_reg_r with (IZR N); [done|].
        replace ((IZR H - IZR r) / IZR N * IZR N) with (IZR H - IZR r)
          by (field; lra). lra.
      + apply Rmult_le_reg_r with (IZR N); [done|].
        replace ((IZR H - IZR r) / IZR N * IZR N) with (IZR H - IZR r)
          by (field; lra). lra. }
  exists a. split; [done|]. split; [done|].
  assert (a < 2 ^ 63)%Z as Hlt.
  { apply lt_IZR. rewrite <- (bpow_IZR 63) by lia.
    apply Rabs_le_inv in Hd.
    assert (bpow 63 = 2 * bpow 62) as -> by (rewrite <- bpow_succ; done).
    pose proof (bpow_le 0 62 ltac:(lia)) as H0. rewrite bpow_0 in H0. lra. }
  unfold LONG_MIN, LONG_MAX. destruct s.
  - rewrite (proj2 (Z.leb_le _ _)) by lia.
    rewrite (proj2 (Z.leb_le _ _)) by lia. done.
  - rewrite (proj2 (Z.leb_le _ _)) by lia.
    rewrite (proj2 (Z.leb_le _ _)) by lia. done.
Qed.
End Lround.

Section Residual.
Local Open Scope R_scope.

(** The distance between a difference [D] and the rounded multiple of the
    pixel width that the tracker subtracts: [h] is the rounded pixel
    width, [Q] the rounded quotient, [K] its integer part, [p] the rounded
    product and [a] the nearest integer. *)
Lemma residual_real (D K a nb sr : Z) (h Q p : R) :
  (1 ≤ D)%Z → (2 * D ≤ sr)%Z → (sr < 2 ^ 31)%Z → (1 ≤ nb)%Z → (0 ≤ K)%Z →
  0 < h →
  Rabs (h - IZR sr / IZR nb) <= IZR sr / IZR nb * bpow (- 53) →
  Rabs (Q - IZR D / h) <= IZR D / h * bpow (- 53) →
  IZR K <= Q < IZR K + 1 →
  Rabs (p - IZR K * h) <= IZR K * h * bpow (- 53) →
  Rabs (IZR a - p) <= / 2 →
  (Z.abs (D - a) * nb < sr + nb)%Z.
Proof.
  intros HD Hhalf Hsr Hnb HK Hh Eh Eq [Q1 Q2] Ep Ea.
  change (- (53))%Z with (-53)%Z in *.
  set (E := bpow (-53)) in *.
  set (t := bpow (-23)).
  assert (t * 8388608 = 1) as Ht.
  { subst t. change 8388608 with (IZR (2 ^ 23)).
    rewrite <- (bpow_IZR 23), <- bpow_add by lia. done. }
  assert (0 < E) as HE0 by apply bpow_pos.
  assert (E <= 1) as HE1.
  { pose proof (bpow_le (-53) 0 ltac:(lia)) as H. by rewrite bpow_0 in H. }
  assert (bpow 30 * E = t) as H30
    by (subst E t; rewrite <- bpow_add; done).
  assert (bpow 31 * E = 2 * t) as H31.
  { subst E t. rewrite <- bpow_add.
    replace (31 + -53)%Z with (-23 + 1)%Z by lia.
    by rewrite bpow_succ. }
  assert (1 <= IZR D) as HD1 by (apply IZR_le; lia).
  assert (IZR D <= bpow 30) as HD30.
  { rewrite (bpow_IZR 30) by lia. apply IZR_le. lia. }
  assert (IZR sr <= bpow 31) as Hsr31.
  { rewrite (bpow_IZR 31) by lia. apply IZR_le. lia. }
  assert (1 <= IZR nb) as Hnb1 by (apply IZR_le; lia).
  assert (0 <= IZR K) as HK0 by (apply IZR_le; lia).
  assert (0 < IZR sr) as Hsr0 by (apply IZR_lt; lia).
  assert (IZR D * E <= t) as HDE.
  { rewrite <- H30. apply Rmult_le_compat_r; lra. }
  assert (IZR sr * E <= 2 * t) as HsE.
  { rewrite <- H31. apply Rmult_le_compat_r; lra. }
  set (x := IZR D / h) in *.
  assert (x * h = IZR D) as Hx by (subst x; field; lra).
  apply Rabs_le_inv in Eq. apply Rabs_le_inv in Eh.
  apply Rabs_le_inv in Ep. apply Rabs_le_inv in Ea.
  (* the whole pixels against the difference *)
  assert (IZR K * h <= IZR D + t) as Ha1.
  { assert (IZR K * h <= (x + x * E) * h)
      by (apply Rmult_le_compat_r; lra).
    replace ((x + x * E) * h) with (x * h + x * h * E) in * by ring.
    rewrite Hx in *. lra. }
  assert (IZR D - t < IZR K * h + h) as Ha2.
  { assert ((x - x * E) * h < (IZR K + 1) * h)
      by (apply Rmult_lt_compat_r; lra).
    replace ((x - x * E) * h) with (x * h - x * h * E) in * by ring.
    rewrite Hx in *. lra. }
  assert (IZR K * h * E <= 2 * t) as Hp1.
  { assert (0 <= IZR K * h) by (apply Rmult_le_pos; lra).
    assert (IZR K * h * E <= (IZR D + t) * E)
      by (apply Rmult_le_compat_r; lra).
    assert (t * E <= t * 1) by (apply Rmult_le_compat_l; lra).
    lra. }
  (* the pixel width against the sample rate *)
  set (rho := IZR sr / IZR nb) in *.
  assert (rho * IZR nb = IZR sr) as Hrho by (subst rho; field; lra).
  assert (h * IZR nb <= IZR sr + 2 * t) as Hhn.
  { assert (h * IZR nb <= (rho + rho * E) * IZR nb)
      by (apply Rmult_le_compat_r; lra).
    replace ((rho + rho * E) * IZR nb)
      with (rho * IZR nb + rho * IZR nb * E) in * by ring.
    rewrite Hrho in *. lra. }
  assert (IZR D - IZR a < h + 3 * t + / 2) as Hup by lra.
  assert (- (3 * t + / 2) <= IZR D - IZR a) as Hlo by lra.
  assert (3 * t + / 2 < 1 - 2 * t) as Hsmall by lra.
  assert (IZR (D - a) * IZR nb < IZR sr + IZR nb) as H1.
  { rewrite minus_IZR.
    assert ((IZR D - IZR a) * IZR nb <= (h + 3 * t + / 2) * IZR nb)
      by (apply Rmult_le_compat_r; lra).
    assert ((3 * t + / 2) * IZR nb <= (1 - 2 * t) * IZR nb)
      by (apply Rmult_le_compat_r; lra).
    assert (2 * t * 1 <= 2 * t * IZR nb)
      by (apply Rmult_le_compat_l; lra).
    lra. }
  assert (IZR (a - D) * IZR nb < IZR sr + IZR nb) as H2.
  { rewrite minus_IZR.
    assert ((IZR a - IZR D) * IZR nb <= (3 * t + / 2) * IZR nb)
      by (apply Rmult_le_compat_r; lra).
    assert ((3 * t + / 2) * IZR nb <= 1 * IZR nb)
      by (apply Rmult_le_compat_r; lra).
    lra. }
  rewrite <- mult_IZR, <- plus_IZR in H1, H2.
  apply lt_IZR in H1. apply lt_IZR in H2. lia.
Qed.
End Residual.

Lemma waterfall_hz_per_pixel_as_bins ws rx st :
  1 ≤ my_width ws → 1 ≤ zoom rx → my_width ws * zoom rx ≤ INT_MAX →
  bins st = my_width ws * zoom rx →
  waterfall_hz_per_pixel ws rx = wf_hz_per_bin rx st.
Proof.
  intros Hw Hz Hnb Hb. unfold INT_MAX in Hnb.
  unfold waterfall_hz_per_pixel, wf_hz_per_bin.
  rewrite F64_mul_of_Z by lia. by rewrite Hb.
Qed.

(** X24.  After a change of frequency of at most half the sample rate the
    tracked frequency of the 2D path, which goes back by the rounded
    frequency of the whole pixels of the shift, is within one pixel and
    one hertz of the frequency of the VFO:
    [|tracked - vfo| * my_width * zoom < sample_rate + my_width * zoom]. *)
Theorem waterfall_2d_tracked_within_pixel ws rx vfofreq :
  1 ≤ my_width ws → 1 ≤ zoom rx → my_width ws * zoom rx ≤ INT_MAX →
  0 < sample_rate rx ≤ INT_MAX →
  waterfall_frequency rx ≠ vfofreq →
  2 * Z.abs (vfofreq - waterfall_frequency rx) ≤ sample_rate rx →
  let rotfreq := waterfall_rotfreq ws rx vfofreq in
  let tracked :=
    waterfall_frequency rx
    - lround (F64.mul (F64.of_Z rotfreq) (waterfall_hz_per_pixel ws rx)) in
  Z.abs (tracked - vfofreq) * (my_width ws * zoom rx)
  < sample_rate rx + my_width ws * zoom rx.
Proof.
  intros Hw Hz Hnb Hsr Hne Hhalf k tracked.
  set (nb := my_width ws * zoom rx) in *.
  set (st := mkState nb 0 0 None F32.zero F32.zero false F64.zero F32.zero
               0 0 0 0).
  assert (k = wf_rotate_bins rx st vfofreq) as Hk
    by (by apply waterfall_rotfreq_as_bins).
  assert (waterfall_hz_per_pixel ws rx = wf_hz_per_bin rx st) as Hhz
    by (by apply waterfall_hz_per_pixel_as_bins).
  destruct (wf_rotate_bins_spec rx st vfofreq)
    as (Rhz & Rq & Hsgn & Hfl & Hlt & _); [simpl; lia | done..|].
  rewrite <- Hk in Hsgn, Hfl, Hlt. simpl bins in *. fold nb in Rhz.
  set (delta := waterfall_frequency rx - vfofreq) in *.
  set (hz := wf_hz_per_bin rx st) in *.
  set (qa := SFabs (wf_rotate_quotient rx st vfofreq)) in *.
  unfold INT_MAX in *.
  (* the integer part *)
  assert (0 ≤ float_trunc qa) as HK0.
  { pose proof Rq as (m & e & _ & _ & Eq & _). rewrite Eq.
    apply float_trunc_nonneg. }
  set (K := float_trunc qa) in *.
  assert (Z.abs k = K) as HkK by nia.
  rewrite HkK in Hfl.
  (* the pixel width *)
  destruct (rounded_pos 53 _ _ Rhz) as [Hrpos Hhpos].
  assert (bpow (-31) <= IZR (sample_rate rx) / IZR nb < bpow 32)%R
    as [Lh Uh].
  { destruct (IZR_bounds (sample_rate rx) 31 ltac:(lia) ltac:(lia))
      as [Ls Us].
    destruct (IZR_bounds nb 31 ltac:(lia) ltac:(lia)) as [Ln Un].
    rewrite bpow_0 in *.
    assert (bpow (-31) * bpow 31 = 1)%R as Hinv
      by (rewrite <- bpow_add; done).
    assert (bpow 32 = 2 * bpow 31)%R as -> by (rewrite <- bpow_succ; done).
    pose proof (bpow_pos 31). pose proof (bpow_pos (-31)).
    split.
    - apply Rmult_le_reg_r with (IZR nb); [lra|].
      replace (IZR (sample_rate rx) / IZR nb * IZR nb)%R
        with (IZR (sample_rate rx)) by (field; lra). nra.
    - apply Rmult_lt_reg_r with (IZR nb); [lra|].
      replace (IZR (sample_rate rx) / IZR nb * IZR nb)%R
        with (IZR (sample_rate rx)) by (field; lra). nra. }
  destruct (rounded_repr 53 prec53_pos _ _ _ _ Rhz Lh Uh)
    as (mh & eh & Ehz & Dh & Heh & _).
  pose proof (rounded_rel_error 53 _ _ Rhz) as Erh.
  pose proof (rounded_rel_error 53 _ _ Rq) as Erq.
  (* the product and its nearest integer *)
  assert (∃ a p,
            lround (F64.mul (F64.of_Z k) hz) = Z.sgn delta * a
            ∧ (Rabs (p - IZR K * B2R hz) <= IZR K * B2R hz * bpow (- 53))%R
            ∧ (Rabs (IZR a - p) <= / 2)%R) as (a & p & HL & Ep & Ea).
  { destruct (decide (K = 0)) as [HK|HK].
    - exists 0, 0%R. rewrite Hsgn. fold K. rewrite HK, Z.mul_0_r, Ehz.
      split; [done|].
      rewrite Rmult_0_l, Rmult_0_l, Rminus_diag, Rabs_R0. lra.
    - destruct (F64_of_Z_rounded K ltac:(lia)) as [RK VK].
      destruct (IZR_bounds K 31 ltac:(lia) ltac:(lia)) as [LK UK].
      destruct (rounded_repr 53 prec53_pos _ _ _ _ RK LK UK)
        as (mk & ek & EK & DK & Hek & _).
      set (P := SFmul 53 1024 (S754_finite false mk ek)
                  (S754_finite false mh eh)).
      assert (rounded 53 (IZR K * B2R hz) P) as RP.
      { rewrite <- VK, EK, Ehz. simpl B2R.
        pose proof (Zdigits2_mul (Z.pos mk) (Z.pos mh) ltac:(lia) ltac:(lia)).
        apply (SFmul_rounded 53 1024 prec53_pos); [done | simpl in *; lia..]. }
      pose proof (rounded_rel_error 53 _ _ RP) as ErP.
      pose proof RP as (mp & ep & _ & _ & EP & _).
      (* the size of the product *)
      assert (B2R P < bpow 62)%R as HP62.
      { apply Rabs_le_inv in ErP. apply Rabs_le_inv in Erq.
        destruct Hfl as [Q1 Q2].
        assert (IZR K * B2R hz
                <= (IZR (Z.abs delta) / B2R hz) * 2 * B2R hz)%R as H1.
        { apply Rmult_le_compat_r; [lra|].
          pose proof (bpow_le (-53) 0 ltac:(lia)) as Hb.
          rewrite bpow_0 in Hb. change (- (53)) with (-53) in Erq.
          assert (0 <= IZR (Z.abs delta) / B2R hz)%R.
          { apply Rmult_le_pos; [apply IZR_le; lia|].
            apply Rlt_le, Rinv_0_lt_compat. done. }
          assert (IZR (Z.abs delta) / B2R hz * bpow (-53)
                  <= IZR (Z.abs delta) / B2R hz * 1)%R
            by (apply Rmult_le_compat_l; lra).
          lra. }
        replace (IZR (Z.abs delta) / B2R hz * 2 * B2R hz)%R
          with (2 * IZR (Z.abs delta))%R in H1 by (field; lra).
        assert (IZR (Z.abs delta) <= bpow 30)%R.
        { rewrite (bpow_IZR 30) by lia. apply IZR_le. lia. }
        assert (0 <= IZR K * B2R hz)%R.
        { apply Rmult_le_pos; [apply IZR_le; lia | lra]. }
        pose proof (bpow_le (-53) 0 ltac:(lia)) as Hb.
        rewrite bpow_0 in Hb. change (- (53)) with (-53) in ErP.
        assert (IZR K * B2R hz * bpow (-53) <= IZR K * B2R hz * 1)%R
          by (apply Rmult_le_compat_l; lra).
        assert (bpow 32 = 2 * bpow 31)%R by (rewrite <- bpow_succ; done).
        assert (bpow 31 = 2 * bpow 30)%R by (rewrite <- bpow_succ; done).
        pose proof (bpow_lt 32 62 ltac:(lia)). pose proof (bpow_pos 30).
        lra. }
      rewrite EP in HP62. simpl in HP62.
      assert (F64.mul (F64.of_Z k) hz
              = if decide (delta < 0) then SFopp P else P) as Hmul.
      { rewrite Hsgn. fold K. rewrite Ehz.
        destruct (decide (delta < 0)) as [Hneg|Hpos].
        - replace (Z.sgn delta * K) with (- K) by lia.
          unfold F64.of_Z. rewrite binary_normalize_opp by done.
          fold (F64.of_Z K). rewrite EK. unfold P. simpl.
          apply (binary_round_aux_opp 53 1024 false).
        - replace (Z.sgn delta * K) with K by lia. by rewrite EK. }
      rewrite Hmul.
      destruct (decide (delta < 0)) as [Hneg|Hpos].
      + destruct (lround_finite true mp ep HP62) as (a & Ha0 & Had & HaL).
        exists a, (B2R P). rewrite EP. simpl SFopp. rewrite HaL.
        split; [lia|]. rewrite <- EP. split; [done|].
        by rewrite EP.
      + destruct (lround_finite false mp ep HP62) as (a & Ha0 & Had & HaL).
        exists a, (B2R P). rewrite EP, HaL.
        split; [lia|]. rewrite <- EP. split; [done|].
        by rewrite EP. }
  assert (Z.abs (tracked - vfofreq) = Z.abs (Z.abs delta - a)) as ->.
  { subst tracked. rewrite Hhz. fold hz. rewrite HL. subst delta. lia. }
  apply (residual_real (Z.abs delta) K a nb (sample_rate rx)
           (B2R hz) (B2R qa) p); try done; lia.
Qed.

Lemma waterfall_2d_tracked_within_pixel_witness :
  let rotfreq := waterfall_rotfreq (mkStatics 4 2) demo_rx 7088000 in
  let tracked :=
    7100000
    - lround (F64.mul (F64.of_Z rotfreq)
                (waterfall_hz_per_pixel (mkStatics 4 2) demo_rx)) in
  Z.abs (tracked - 7088000) * (4 * 1) < 48000 + 4 * 1.
Proof.
  refine (waterfall_2d_tracked_within_pixel (mkStatics 4 2) demo_rx 7088000
            _ _ _ _ _ _).
  - simpl. lia.
  - simpl. lia.
  - unfold INT_MAX. simpl. lia.
  - unfold INT_MAX. simpl. lia.
  - simpl. lia.
  - simpl. lia.
Defined.

(** ** The samples that a row needs *)

(** A loop that has run to its end has run every round. *)
Lemma for_loop_Some_body {St : Type} (body : Z → St → option St) n lo s s' i :
  for_loop n lo body s = Some s' → lo ≤ i < lo + Z.of_nat n →
  ∃ si, is_Some (body i si).
Proof.
  revert lo s. induction n as [|n IH]; intros lo s Hrun Hi; [lia|].
  simpl in Hrun. destruct (body lo s) as [s1|] eqn:Hb; [|done].
  simpl in Hrun. destruct (decide (i = lo)) as [->|Hne].
  - exists s. by rewrite Hb.
  - apply (IH (lo + 1) s1); [done | lia].
Qed.

(** X25.  The 2D path does not test the index [i + pan] of the sample it
    draws, as the 3D path does: a row is drawn without a read outside the
    sample array exactly when the array holds the samples [pan] to
    [pan + width - 1]. *)
Theorem waterfall_2d_row_needs_samples soffset rx pb (a : list Z) :
  0 < gdk_pixbuf_get_width pb → 0 < gdk_pixbuf_get_height pb →
  3 * gdk_pixbuf_get_width pb ≤ gdk_pixbuf_get_rowstride pb →
  Z.of_nat (length a)
  = gdk_pixbuf_get_height pb * gdk_pixbuf_get_rowstride pb →
  is_Some (waterfall_draw_row soffset rx pb a)
  ↔ rx_row_ok rx (gdk_pixbuf_get_width pb).
Proof.
  intros Hw Hh Hrs Hlen. split.
  - intros [a' Hrun]. unfold waterfall_draw_row in Hrun.
    destruct (memmove a _ _ _) as [a1|]; [|done]. simpl in Hrun.
    destruct (waterfall_thresholds rx _ soffset) as [[lo hi]|]; [|done].
    simpl in Hrun.
    destruct (for_range 0 _ _ _) as [[a2 p]|] eqn:Hloop; [|done].
    unfold for_range in Hloop.
    assert (∀ i, 0 ≤ i < gdk_pixbuf_get_width pb →
                 is_Some (load (pixel_samples rx) (i + pan rx))) as Hall.
    { intros i Hi.
      destruct (for_loop_Some_body _ _ _ _ _ i Hloop) as ([b q] & Hb);
        [lia|].
      simpl in Hb.
      destruct (load (pixel_samples rx) (i + pan rx)); [done|].
      by destruct Hb. }
    split.
    + destruct (decide (0 ≤ pan rx)) as [|Hneg]; [done|].
      destruct (Hall 0 ltac:(lia)) as [s Hs].
      rewrite load_neg in Hs by lia. done.
    + destruct (decide (pan rx + gdk_pixbuf_get_width pb
                        ≤ Z.of_nat (length (pixel_samples rx))))
        as [|Hbig]; [done|].
      destruct (Hall (gdk_pixbuf_get_width pb - 1) ltac:(lia)) as [s Hs].
      rewrite load_ge in Hs by lia. done.
  - intros Hrow.
    destruct (waterfall_draw_row_picture soffset rx pb a Hw Hh Hrs Hlen Hrow)
      as (a' & -> & _). done.
Qed.

Lemma waterfall_2d_row_needs_samples_witness :
  is_Some (waterfall_draw_row F32.zero demo_rx (mkPixbuf (seqZ 1 24) 4 2 12)
             (seqZ 1 24))
  ↔ rx_row_ok demo_rx 4.
Proof.
  refine (waterfall_2d_row_needs_samples F32.zero demo_rx
            (mkPixbuf (seqZ 1 24) 4 2 12) (seqZ 1 24) _ _ _ _).
  - simpl. lia.
  - simpl. lia.
  - simpl. lia.
  - reflexivity.
Defined.

(** A pan that leaves fewer than [width] samples: the row of the tick reads
    behind the ten samples of the receiver. *)
Example pan_behind_the_samples :
  waterfall_update_2d F32.zero demo_host_steady (mkStatics 4 2)
    (mkRx2D (mkRx 1 7 10 48000 7100000 48000 (-100) (-50) false 0
               (F32.of_Z <$> seqZ 101 10) true) 0 None 1 7)
    (mkPixbuf (seqZ 1 24) 4 2 12)
  = None.
Proof. vm_compute. reflexivity. Qed.
